(** * Screenshot-to-Text: the extraction pipeline, the rate limiter, the
    store adapter and the two API routes, embedded from [src/lib/openai.ts],
    [src/lib/rateLimiter.ts], [src/lib/mongodb.ts], [src/models/Screenshot.ts],
    [src/app/api/ocr/route.ts] and [src/app/api/history/route.ts].

    How the program is read:
    - a string is the sequence of its UTF-16 code units, so that [length],
      the regular expressions and the Unicode ranges mean what they mean in
      JavaScript;
    - a number is an integer ([Z]) where the code only counts, and an exact
      rational or NaN ([number]) where it parses text;
    - an [async] function awaits its calls one after the other and is read
      as a sequential computation that returns or throws; what it asks of
      the image library, of the model API and of the clock (delays) is
      logged in order, so that "one attempt" and "a second pass" can be
      stated; console output is left out;
    - [Date.now()] is an argument of the rate limiter, and its map is passed
      in and out;
    - sharp, the OpenAI client, the base64 codec and the MongoDB driver's
      [ObjectId] are interfaces: every call of theirs may return or throw;
    - the regular expressions are kept as syntax and run by a backtracking
      matcher;
    - a route handler is a function of what it reads of the request, of the
      readings of the clock and of the state of its modules (the limiter's
      map, the request log, the collection), and returns its response with
      the state afterwards. *)

From Stdlib Require Import ZArith QArith Qround List String Ascii Bool Lia DecimalString.
From stdpp Require Import base option list gmap strings.
Import ListNotations.

Local Open Scope Z_scope.

(* ================================================================== *)
(** ** Part I. Definitions                                             *)
(* ================================================================== *)

(** *** JavaScript strings and numbers *)

Module JS.

(** A string is the list of its UTF-16 code units. *)
Abbreviation jsstring := (list Z).

(** The code unit of a Basic Latin character of a source literal. *)
Definition cu (a : ascii) : Z := Z.of_N (N_of_ascii a).

(** A source string literal (Basic Latin only). *)
Definition str (s : string) : jsstring := map cu (list_ascii_of_string s).

(** Line feed, written [\n] in the sources. *)
Definition LF : Z := 10.

(** WhiteSpace and LineTerminator of ECMAScript: what [\s] matches and what
    [String.prototype.trim] strips. *)
Definition isWhiteSpace (c : Z) : bool :=
  ((9 <=? c) && (c <=? 13)) || (c =? 32) || (c =? 0xA0) || (c =? 0x1680)
  || ((0x2000 <=? c) && (c <=? 0x200A)) || (c =? 0x2028) || (c =? 0x2029)
  || (c =? 0x202F) || (c =? 0x205F) || (c =? 0x3000) || (c =? 0xFEFF).

Definition isDigit (c : Z) : bool := (48 <=? c) && (c <=? 57).
Definition isUpper (c : Z) : bool := (65 <=? c) && (c <=? 90).
Definition isLower (c : Z) : bool := (97 <=? c) && (c <=? 122).
Definition isLetter (c : Z) : bool := isUpper c || isLower c.

(** [\w] *)
Definition isWordChar (c : Z) : bool := isLetter c || isDigit c || (c =? 95).

Fixpoint dropWhile (p : Z -> bool) (s : jsstring) : jsstring :=
  match s with
  | c :: s' => if p c then dropWhile p s' else s
  | [] => []
  end.

Fixpoint takeWhile (p : Z -> bool) (s : jsstring) : jsstring :=
  match s with
  | c :: s' => if p c then c :: takeWhile p s' else []
  | [] => []
  end.

Definition trimStart (s : jsstring) : jsstring := dropWhile isWhiteSpace s.
Definition trimEnd (s : jsstring) : jsstring := rev (dropWhile isWhiteSpace (rev s)).

(** [String.prototype.trim] *)
Definition trim (s : jsstring) : jsstring := trimEnd (trimStart s).

(** Lower-casing of one code unit.  Besides A-Z, the only characters whose
    lower-case form contains a Basic Latin letter are U+0130 and U+212A;
    every other code unit lower-cases to code units outside Basic Latin and
    is kept as it is: the program only ever compares lower-cased text with
    Basic Latin literals. *)
Definition lowerUnit (c : Z) : jsstring :=
  if isUpper c then [c + 32]
  else if c =? 0x130 then [0x69; 0x307]
  else if c =? 0x212A then [0x6B]
  else [c].

(** [String.prototype.toLowerCase] *)
Definition toLowerCase (s : jsstring) : jsstring := flat_map lowerUnit s.

Fixpoint startsWith (s sub : jsstring) : bool :=
  match sub, s with
  | [], _ => true
  | _ :: _, [] => false
  | a :: sub', c :: s' => (a =? c) && startsWith s' sub'
  end.

(** [String.prototype.includes] *)
Fixpoint includes (s sub : jsstring) : bool :=
  startsWith s sub ||
  match s with
  | [] => false
  | _ :: s' => includes s' sub
  end.

(** [String.prototype.split] on a separator of one code unit. *)
Fixpoint split (sep : Z) (s : jsstring) : list jsstring :=
  match s with
  | [] => [[]]
  | c :: s' =>
      if c =? sep then [] :: split sep s'
      else match split sep s' with
           | piece :: rest => (c :: piece) :: rest
           | [] => [[c]]
           end
  end.

(** A JavaScript number: an exact rational, or NaN.  A decimal read from
    text is kept at its exact value; a double is that value rounded, which
    changes nothing for the integers below 2^53. *)
Inductive number :=
| Num (q : Q)
| NaN.

Definition ofZ (z : Z) : number := Num (inject_Z z).

Fixpoint digitsValue (acc : Z) (ds : jsstring) : Z :=
  match ds with
  | [] => acc
  | d :: ds' => digitsValue (acc * 10 + (d - 48)) ds'
  end.

(** [parseFloat] on decimal literals without exponent: leading white space,
    an optional sign, then the longest prefix [digits], [digits.digits],
    [digits.] or [.digits]; NaN when no digit is found. *)
Definition parseFloat (s : jsstring) : number :=
  let s := trimStart s in
  let '(neg, s) :=
    match s with
    | 45 :: s' => (true, s')
    | 43 :: s' => (false, s')
    | _ => (false, s)
    end in
  let ip := takeWhile isDigit s in
  let rest := dropWhile isDigit s in
  let fp := match rest with
            | 46 :: r => takeWhile isDigit r
            | _ => []
            end in
  match ip, fp with
  | [], [] => NaN
  | _, _ =>
      let scale := 10 ^ Z.of_nat (length fp) in
      let mant := digitsValue 0 ip * scale + digitsValue 0 fp in
      Num (Qmake (if neg then - mant else mant) (Z.to_pos scale))
  end.

(** [parseInt] without radix, on decimal input: leading white space, an
    optional sign, then the longest prefix of decimal digits. *)
Definition parseInt (s : jsstring) : number :=
  let s := trimStart s in
  let '(neg, s) :=
    match s with
    | 45 :: s' => (true, s')
    | 43 :: s' => (false, s')
    | _ => (false, s)
    end in
  match takeWhile isDigit s with
  | [] => NaN
  | ds => let v := digitsValue 0 ds in ofZ (if neg then - v else v)
  end.

Definition times (a b : number) : number :=
  match a, b with
  | Num x, Num y => Num (x * y)
  | _, _ => NaN
  end.

(** [a === b] on strings. *)
Definition strictEq (a b : jsstring) : bool := bool_decide (a = b).

(** A string used as a condition is true unless it is empty. *)
Definition truthy (s : jsstring) : bool :=
  match s with [] => false | _ => true end.

(** Decimal rendering of a natural number, as in a template literal. *)
Definition natToString (n : nat) : jsstring :=
  str (NilEmpty.string_of_uint (Nat.to_uint n)).

End JS.
Import JS.

(** *** Regular expressions

    The fragment of the ECMAScript pattern language that the sources use,
    with the backtracking matcher of the language definition: greedy
    quantifiers that give characters back, one capture group, the
    [ignoreCase] flag.  None of the expressions is global or sticky. *)

Module RegExp.

Inductive atom :=
| Single (c : Z)         (* a pattern character *)
| Range (lo hi : Z)      (* lo-hi inside brackets *)
| Digit                  (* \d *)
| Space                  (* \s *)
| Word.                  (* \w *)

Inductive charset :=
| Atom (a : atom)
| OneOf (items : list atom)      (* [ ... ] *)
| NoneOf (items : list atom).    (* [^ ... ] *)

Inductive pattern :=
| Eps
| Chr (cs : charset)
| Seq (p1 p2 : pattern)
| Repeat (cs : charset) (lo : nat) (hi : option nat)   (* cs{lo,hi}, greedy *)
| Opt (p : pattern)                                    (* (?: p )? *)
| Capture (p : pattern).                               (* ( p ), group 1 *)

Record regexp := { source : pattern; ignoreCase : bool }.

Definition atomMember (a : atom) (c : Z) : bool :=
  match a with
  | Single x => c =? x
  | Range lo hi => (lo <=? c) && (c <=? hi)
  | Digit => isDigit c
  | Space => isWhiteSpace c
  | Word => isWordChar c
  end.

(** Canonicalize of the language definition for a pattern without the
    unicode flag: characters are compared by their upper-case form, and a
    character outside Basic Latin never canonicalizes into Basic Latin. *)
Definition canonicalize (i : bool) (c : Z) : Z :=
  if i && isLower c then c - 32 else c.

(** The other Basic Latin character with the same canonical form. *)
Definition swapCase (c : Z) : Z :=
  if isLower c then c - 32 else if isUpper c then c + 32 else c.

Definition atomMatches (i : bool) (a : atom) (c : Z) : bool :=
  atomMember a c || (i && atomMember a (swapCase c)).

Definition charsetMatches (i : bool) (cs : charset) (c : Z) : bool :=
  match cs with
  | Atom a => atomMatches i a c
  | OneOf items => existsb (fun a => atomMatches i a c) items
  | NoneOf items => negb (existsb (fun a => atomMatches i a c) items)
  end.

(** Greedy repetition of a one-character matcher: take one more character
    when allowed, and fall back to stopping here when the rest fails. *)
Fixpoint repeatMatcher {R} (ok : Z -> bool) (lo : nat) (hi : option nat)
    (s : jsstring) (k : jsstring -> option R) : option R :=
  let stop := match lo with O => k s | S _ => None end in
  match hi with
  | Some O => stop
  | _ =>
      match s with
      | c :: s' =>
          if ok c then
            match repeatMatcher ok (Nat.pred lo) (Nat.pred <$> hi) s' k with
            | Some r => Some r
            | None => stop
            end
          else stop
      | [] => stop
      end
  end.

(** The matcher of a pattern at the start of [s]: [k] is the continuation,
    called on what is left of the input and the capture so far. *)
Fixpoint matcher {R} (i : bool) (p : pattern) (s : jsstring)
    (cap : option jsstring)
    (k : jsstring -> option jsstring -> option R) : option R :=
  match p with
  | Eps => k s cap
  | Chr cs =>
      match s with
      | c :: s' => if charsetMatches i cs c then k s' cap else None
      | [] => None
      end
  | Seq p1 p2 => matcher i p1 s cap (fun s1 cap1 => matcher i p2 s1 cap1 k)
  | Repeat cs lo hi =>
      repeatMatcher (charsetMatches i cs) lo hi s (fun s1 => k s1 cap)
  | Opt p1 =>
      match matcher i p1 s cap k with
      | Some r => Some r
      | None => k s cap
      end
  | Capture p1 =>
      matcher i p1 s cap
        (fun s1 _ => k s1 (Some (take (length s - length s1)%nat s)))
  end.

(** The result of a successful match: [index], [m[0]] and [m[1]]. *)
Record MatchResult := {
  index : nat;
  matched : jsstring;
  group1 : option jsstring
}.

Definition matchAt (re : regexp) (idx : nat) (s : jsstring) : option MatchResult :=
  matcher (ignoreCase re) (source re) s None
    (fun rest cap =>
       Some {| index := idx;
               matched := take (length s - length rest)%nat s;
               group1 := cap |}).

(** Leftmost match: every start position in turn, the end of input included. *)
Fixpoint execFrom (re : regexp) (idx : nat) (s : jsstring) : option MatchResult :=
  match matchAt re idx s with
  | Some m => Some m
  | None =>
      match s with
      | [] => None
      | _ :: s' => execFrom re (S idx) s'
      end
  end.

(** [text.match(re)] *)
Definition exec (re : regexp) (text : jsstring) : option MatchResult :=
  execFrom re 0 text.

(** [re.test(text)] *)
Definition test (re : regexp) (text : jsstring) : bool :=
  match exec re text with Some _ => true | None => false end.

(** [text.replace(re, "")]: the first match is cut out. *)
Definition remove (re : regexp) (text : jsstring) : jsstring :=
  match exec re text with
  | Some m => take (index m) text ++ drop (index m + length (matched m))%nat text
  | None => text
  end.

(** A sequence of pattern characters. *)
Definition lit (s : string) : pattern :=
  fold_right (fun c p => Seq (Chr (Atom (Single c))) p) Eps (str s).

End RegExp.
Import RegExp.

(** *** The response parser ([src/lib/openai.ts]) *)

Module Parser.

(** [/LANGUAGE:\s*([a-z]{2,3})/i] *)
Definition languagePattern : regexp :=
  {| source :=
       Seq (lit "LANGUAGE:")
         (Seq (Repeat (Atom Space) 0 None)
            (Capture (Repeat (OneOf [Range (cu "a") (cu "z")]) 2 (Some 3%nat))));
     ignoreCase := true |}.

(** [/CONFIDENCE:\s*(\d+(?:\.\d+)?)/i] *)
Definition confidencePattern : regexp :=
  {| source :=
       Seq (lit "CONFIDENCE:")
         (Seq (Repeat (Atom Space) 0 None)
            (Capture
               (Seq (Repeat (Atom Digit) 1 None)
                  (Opt (Seq (Chr (Atom (Single (cu "."))))
                          (Repeat (Atom Digit) 1 None))))));
     ignoreCase := true |}.

(** [/LANGUAGE:\s*[a-z]{2,3}\s*/i] *)
Definition languageLine : regexp :=
  {| source :=
       Seq (lit "LANGUAGE:")
         (Seq (Repeat (Atom Space) 0 None)
            (Seq (Repeat (OneOf [Range (cu "a") (cu "z")]) 2 (Some 3%nat))
               (Repeat (Atom Space) 0 None)));
     ignoreCase := true |}.

(** [/CONFIDENCE:\s*\d+(?:\.\d+)?\s*/i] *)
Definition confidenceLine : regexp :=
  {| source :=
       Seq (lit "CONFIDENCE:")
         (Seq (Repeat (Atom Space) 0 None)
            (Seq (Repeat (Atom Digit) 1 None)
               (Seq (Opt (Seq (Chr (Atom (Single (cu "."))))
                            (Repeat (Atom Digit) 1 None)))
                  (Repeat (Atom Space) 0 None))));
     ignoreCase := true |}.

Definition classTest (items : list atom) : regexp :=
  {| source := Chr (OneOf items); ignoreCase := false |}.

(** function detectLanguageFromText(text: string): string *)
Definition detectLanguageFromText (text : jsstring) : jsstring :=
  (* Chinese characters *)
  if test (classTest [Range 0x4e00 0x9fff]) text then str "zh"
  (* Japanese characters (Hiragana, Katakana) *)
  else if test (classTest [Range 0x3040 0x309f; Range 0x30a0 0x30ff]) text then str "ja"
  (* Korean characters *)
  else if test (classTest [Range 0xac00 0xd7a3]) text then str "ko"
  (* Arabic characters *)
  else if test (classTest [Range 0x0600 0x06ff]) text then str "ar"
  (* Cyrillic characters *)
  else if test (classTest [Range 0x0400 0x04ff]) text then str "ru"
  (* Thai characters *)
  else if test (classTest [Range 0x0e00 0x0e7f]) text then str "th"
  (* Hebrew characters *)
  else if test (classTest [Range 0x0590 0x05ff]) text then str "he"
  (* Default to English *)
  else str "en".

(** The negated class of [garbledPattern]: [\w], [\s], \u00C0-\u017F,
    \u4e00-\u9fff, \u3040-\u30ff, \uac00-\ud7a3 and the punctuation
    . , ! ? ; : ( ) [ ] { } - ' double-quote / backslash. *)
Definition garbledSet : charset :=
  NoneOf
    [Word; Space; Range 0x00C0 0x017F; Range 0x4e00 0x9fff;
     Range 0x3040 0x30ff; Range 0xac00 0xd7a3;
     Single (cu "."); Single (cu ","); Single (cu "!");
     Single (cu "?"); Single (cu ";"); Single (cu ":");
     Single (cu "("); Single (cu ")"); Single (cu "[");
     Single (cu "]"); Single (cu "{"); Single (cu "}");
     Single (cu "-"); Single (cu "'"); Single 34 (* double quote *);
     Single (cu "/"); Single 92 (* backslash *)].

Definition garbledClass : regexp :=
  {| source := Chr garbledSet; ignoreCase := false |}.

(** function estimateConfidence(text: string): number.  Every value it
    handles is an integer. *)
Definition estimateConfidence (text : jsstring) : Z :=
  let len := Z.of_nat (length text) in
  if negb (truthy text) || (len =? 0) then 0 else
  let confidence := 80 in
  let confidence := if 10 <? len then confidence + 5 else confidence in
  let confidence := if 50 <? len then confidence + 5 else confidence in
  let confidence := if 100 <? len then confidence + 5 else confidence in
  let hasLetters := test (classTest [Range (cu "a") (cu "z"); Range (cu "A") (cu "Z")]) text in
  let hasNumbers := test {| source := Chr (Atom Digit); ignoreCase := false |} text in
  let hasSpaces := test {| source := Chr (Atom Space); ignoreCase := false |} text in
  let hasPunctuation :=
    test (classTest [Single (cu "."); Single (cu ","); Single (cu "!");
                     Single (cu "?"); Single (cu ";"); Single (cu ":")]) text in
  let confidence := if hasLetters && hasSpaces then confidence + 5 else confidence in
  let confidence := if hasNumbers then confidence + 2 else confidence in
  let confidence := if hasPunctuation then confidence + 3 else confidence in
  let garbledPattern := test garbledClass text in
  let confidence :=
    if garbledPattern && (len <? 20) then confidence - 10 else confidence in
  Z.min 100 (Z.max 0 confidence).

Record Parsed := {
  extractedText : jsstring;
  language : jsstring;
  confidence : number
}.

(** function parseExtractionResponse(text: string) *)
Definition parseExtractionResponse (text : jsstring) : Parsed :=
  let languageMatch := exec languagePattern text in
  let confidenceMatch := exec confidencePattern text in
  let extractedText := text in
  let language := str "en" in
  let confidence := ofZ 95 in
  (* Extract language *)
  let '(language, extractedText) :=
    match languageMatch with
    | Some m =>
        (toLowerCase (default [] (group1 m)), remove languageLine extractedText)
    | None => (language, extractedText)
    end in
  (* Extract confidence *)
  let '(confidence, extractedText) :=
    match confidenceMatch with
    | Some m =>
        (parseFloat (default [] (group1 m)), remove confidenceLine extractedText)
    | None => (confidence, extractedText)
    end in
  let extractedText := trim extractedText in
  let language :=
    match languageMatch with
    | Some _ => language
    | None => detectLanguageFromText extractedText
    end in
  let confidence :=
    match confidenceMatch with
    | Some _ => confidence
    | None => ofZ (estimateConfidence extractedText)
    end in
  {| extractedText := extractedText; language := language; confidence := confidence |}.

End Parser.
Import Parser.

(** *** Thrown values and logged effects *)

Module Effects.

(** What a [catch] clause can receive. *)
Inductive thrown :=
| APIError (status : option Z) (retryAfter : option jsstring) (message : jsstring)
    (* an OpenAI.APIError with its status, its retry-after header, its message *)
| Error (message : jsstring)
    (* any other instance of Error *)
| Other (rendering : jsstring).
    (* a thrown value that is no Error; [rendering] is String(value) *)

Inductive outcome (A : Type) :=
| Returned (a : A)
| Threw (e : thrown).
Arguments Returned {A} a.
Arguments Threw {A} e.

(** The bytes of a Node Buffer. *)
Definition Buffer := list Byte.byte.

(** The options recorded on a sharp pipeline. *)
Inductive Op :=
| Resize (width height : Z)      (* .resize(w, h, {fit: inside, withoutEnlargement: true}) *)
| Jpeg (quality : Z)             (* .jpeg({quality}) *)
| Webp (quality : Z).            (* .webp({quality}) *)

(** A sharp instance: its input and the options set on it so far. *)
Record Image := { input : Buffer; ops : list Op }.

Record Metadata := { width : option Z; height : option Z }.

Inductive sharpCall :=
| Construct (b : Buffer)
| Configure (op : Op)
| ReadMetadata (img : Image)
| ToBuffer (img : Image).

(** What a run leaves behind, oldest first. *)
Inductive Event :=
| SharpCall (c : sharpCall) (threw : bool)
| ApiCall (attempt : nat)
| Sleep (ms : number).

(** A computation that returns or throws, and logs its effects. *)
Definition Run (A : Type) : Type := outcome A * list Event.

Definition ret {A} (a : A) : Run A := (Returned a, []).
Definition throw {A} (e : thrown) : Run A := (Threw e, []).
Definition emit (ev : Event) : Run unit := (Returned tt, [ev]).

Definition bind {A B} (m : Run A) (f : A -> Run B) : Run B :=
  match m with
  | (Returned a, l1) => let '(r, l2) := f a in (r, l1 ++ l2)
  | (Threw e, l1) => (Threw e, l1)
  end.

(** try { m } catch (error) { handler error } *)
Definition tryCatch {A} (m : Run A) (handler : thrown -> Run A) : Run A :=
  match m with
  | (Returned a, l1) => (Returned a, l1)
  | (Threw e, l1) => let '(r, l2) := handler e in (r, l1 ++ l2)
  end.

Definition isThrow {A} (o : outcome A) : bool :=
  match o with Threw _ => true | Returned _ => false end.

(** A library call: its outcome, and one event saying whether it threw. *)
Definition perform {A} (c : sharpCall) (o : outcome A) : Run A :=
  (o, [SharpCall c (isThrow o)]).

(** The runtime the module is linked against: sharp (whose constructor,
    option setters, metadata reader and encoder may each throw) and the
    base64 codec of Buffer. *)
Class Platform := {
  sharpConstruct : Buffer -> outcome unit;
  sharpConfigure : Op -> outcome unit;
  sharpMetadata : Image -> outcome Metadata;
  sharpToBuffer : Image -> outcome Buffer;
  bufferToBase64 : Buffer -> jsstring;
  bufferFromBase64 : jsstring -> Buffer
}.

End Effects.
Import Effects.

#[global] Instance run_ret : MRet Run := @ret.
#[global] Instance run_bind : MBind Run := fun A B f m => bind m f.

(** *** The image normalizer ([src/lib/openai.ts]) *)

Module Images.

Definition SUPPORTED_MIME_TYPES : list jsstring :=
  [str "image/png"; str "image/jpeg"; str "image/jpg";
   str "image/webp"; str "image/heic"; str "image/heif"].

(** Maximum image size in bytes before compression (20MB) *)
Definition MAX_IMAGE_SIZE : Z := 20 * 1024 * 1024.

(** Maximum image dimension *)
Definition MAX_IMAGE_DIMENSION : Z := 2048.

Record ImageProcessingOptions := {
  maxSize : option Z;
  maxDimension : option Z;
  quality : option Z
}.

(** [type.split("/")[1]]; an index out of range reads [undefined], which
    [includes] would turn into the string of that name. *)
Definition subtype (type : jsstring) : jsstring :=
  match split (cu "/") type !! 1%nat with
  | Some sub => sub
  | None => str "undefined"
  end.

(** export function validateImageFormat(mimeType: string): boolean *)
Definition validateImageFormat (mimeType : jsstring) : bool :=
  existsb (fun type => includes (toLowerCase mimeType) (subtype type))
    SUPPORTED_MIME_TYPES.

(** [value || fallback] on an optional number. *)
Definition orElse (value : option Z) (fallback : Z) : Z :=
  match value with
  | Some v => if v =? 0 then fallback else v
  | None => fallback
  end.

(** An optional number used as a condition. *)
Definition present (value : option Z) : bool :=
  match value with
  | Some v => negb (v =? 0)
  | None => false
  end.

(** The value [compressImageIfNeeded] resolves to; [outWidth] and
    [outHeight] are its optional [width] and [height]. *)
Record Compressed := {
  buffer : Buffer;
  mimeType : jsstring;
  outWidth : option Z;
  outHeight : option Z
}.

Section WithPlatform.
Context `{Platform}.

(** sharp(buffer) *)
Definition sharp (b : Buffer) : Run Image :=
  perform (Construct b) (sharpConstruct b) ;;
  ret {| input := b; ops := [] |}.

(** image.resize(...), image.jpeg(...), image.webp(...) *)
Definition configure (image : Image) (op : Op) : Run Image :=
  perform (Configure op) (sharpConfigure op) ;;
  ret {| input := input image; ops := ops image ++ [op] |}.

(** await image.metadata() *)
Definition readMetadata (image : Image) : Run Metadata :=
  perform (ReadMetadata image) (sharpMetadata image).

(** await image.toBuffer() *)
Definition toBuffer (image : Image) : Run Buffer :=
  perform (ToBuffer image) (sharpToBuffer image).

Definition byteLength (b : Buffer) : Z := Z.of_nat (length b).

(** export async function compressImageIfNeeded(buffer, mimeType, options) *)
Definition compressImageIfNeeded (buffer : Buffer) (mimeType : jsstring)
    (options : ImageProcessingOptions) : Run Compressed :=
  let maxSize := orElse (maxSize options) MAX_IMAGE_SIZE in
  let maxDimension := orElse (maxDimension options) MAX_IMAGE_DIMENSION in
  let quality := orElse (quality options) 85 in
  let original :=
    {| buffer := buffer; mimeType := mimeType; outWidth := None; outHeight := None |} in
  (* If image is small enough, return as-is *)
  early ←
    (if byteLength buffer <=? maxSize then
       tryCatch
         (image ← sharp buffer;
          metadata ← readMetadata image;
          if present (width metadata) && present (height metadata)
             && (default 0 (width metadata) <=? maxDimension)
             && (default 0 (height metadata) <=? maxDimension)
          then ret (Some {| buffer := buffer; mimeType := mimeType;
                            outWidth := width metadata;
                            outHeight := height metadata |})
          else ret None)
         (fun error => ret (Some original))
     else ret None);
  match early with
  | Some result => ret result
  | None =>
      tryCatch
        (image ← sharp buffer;
         metadata ← readMetadata image;
         let originalWidth := orElse (width metadata) 0 in
         let originalHeight := orElse (height metadata) 0 in
         (* Resize if needed *)
         image ←
           (if (maxDimension <? originalWidth) || (maxDimension <? originalHeight)
            then configure image (Resize maxDimension maxDimension)
            else ret image);
         (* Convert to JPEG for better compression *)
         '(image, outputMimeType) ←
           (if strictEq mimeType (str "image/png")
               && (500 * 1024 <? byteLength buffer)
            then image ← configure image (Jpeg quality); ret (image, str "image/jpeg")
            else if includes mimeType (str "heic") || includes mimeType (str "heif")
            then image ← configure image (Jpeg quality); ret (image, str "image/jpeg")
            else if strictEq mimeType (str "image/webp")
            then image ← configure image (Webp quality); ret (image, mimeType)
            else if strictEq mimeType (str "image/jpeg")
                    || strictEq mimeType (str "image/jpg")
            then image ← configure image (Jpeg quality); ret (image, mimeType)
            else ret (image, mimeType));
         (* Compress *)
         compressedBuffer ← toBuffer image;
         (* If still too large, reduce quality further *)
         compressedBuffer ←
           (if (maxSize <? byteLength compressedBuffer) && (50 <? quality) then
              let reducedQuality := Z.max 50 (quality - 20) in
              image ← sharp buffer;
              image ← configure image (Resize maxDimension maxDimension);
              image ←
                (if strictEq outputMimeType (str "image/jpeg")
                    || strictEq outputMimeType (str "image/jpg")
                 then configure image (Jpeg reducedQuality)
                 else configure image (Webp reducedQuality));
              toBuffer image
            else ret compressedBuffer);
         final ← sharp compressedBuffer;
         finalMetadata ← readMetadata final;
         ret {| buffer := compressedBuffer; mimeType := outputMimeType;
                outWidth := width finalMetadata;
                outHeight := height finalMetadata |})
        (fun error => ret original)
  end.

End WithPlatform.

End Images.
Import Images.

(** *** The extraction orchestrator ([src/lib/openai.ts]) *)

Module Extraction.

Record ChatRequest := {
  requestModel : jsstring;
  promptText : jsstring;
  imageUrl : jsstring;
  max_tokens : Z;
  temperature : Q
}.

Record Usage := { prompt_tokens : Z; completion_tokens : Z }.

(** What the orchestrator reads of a chat completion:
    [choices[0]?.message?.content], [model] and [usage]. *)
Record ChatCompletion := {
  content : option jsstring;
  responseModel : jsstring;
  usage : option Usage
}.

Record ExtractionResult := {
  text : jsstring;
  language : jsstring;
  confidence : number;
  model : jsstring;
  promptTokens : Z;
  completionTokens : Z
}.

Definition statusOf (error : thrown) : option Z :=
  match error with
  | APIError status _ _ => status
  | _ => None
  end.

(** [error.headers?.["retry-after"]], the empty string standing for an
    absent header (both count as false in a condition). *)
Definition retryAfterOf (error : thrown) : jsstring :=
  match error with
  | APIError _ retryAfter _ => default [] retryAfter
  | _ => []
  end.

(** [error.status === code] *)
Definition hasStatus (error : thrown) (code : Z) : bool :=
  match statusOf error with
  | Some s => s =? code
  | None => false
  end.

(** function handleApiError(error: unknown, retries: number = 0): string *)
Definition handleApiError (error : thrown) (retries : nat) : jsstring :=
  match error with
  | APIError status retryAfter message =>
      (* Rate limit error *)
      if hasStatus error 429 then
        str "Rate limit exceeded. Please try again"
        ++ (if truthy (default [] retryAfter)
            then str " after " ++ default [] retryAfter ++ str " seconds"
            else str " later")
        ++ str "."
      (* Invalid API key *)
      else if hasStatus error 401 then
        str "Invalid OpenAI API key. Please check your configuration."
      (* Insufficient quota *)
      else if hasStatus error 402 then
        str "Insufficient OpenAI API quota. Please check your account."
      (* Model not found *)
      else if hasStatus error 404 then
        str "OpenAI model not found. Please check the model name."
      (* Server error *)
      else if match status with Some s => 500 <=? s | None => false end then
        str "OpenAI server error. Please try again"
        ++ (if (0 <? retries)%nat
            then str " (retry " ++ natToString retries ++ str ")"
            else [])
        ++ str "."
      else if truthy message then message
      else str "OpenAI API error occurred."
  | Error message => message
  | Other _ => str "An unknown error occurred while processing the image."
  end.

(** The instruction sent with every image. *)
Definition prompt : jsstring :=
  str "Extract all text from this image with high accuracy. " ++ [LF]
  ++ str "Preserve formatting, line breaks, and structure. " ++ [LF]
  ++ str "If the image contains tables, preserve their structure." ++ [LF]
  ++ str "Return the text in plain text format." ++ [LF]
  ++ str "After the text, on a new line, add:" ++ [LF]
  ++ str "LANGUAGE: [detected language code]" ++ [LF]
  ++ str "CONFIDENCE: [your confidence level 0-100]".

Definition maxRetries : nat := 3.

(** [error instanceof Error ? error : new Error(String(error))] *)
Definition asError (error : thrown) : thrown :=
  match error with
  | Other rendering => Error rendering
  | _ => error
  end.

(** What the [try] block returns for a response: the parsed text merged
    with the model and the token counts. *)
Definition resultOf (response : ChatCompletion) : ExtractionResult :=
  let fullText := default [] (content response) in
  let usage := usage response in
  (* Parse the response *)
  let parsed := parseExtractionResponse fullText in
  {| text := Parser.extractedText parsed;
     language := Parser.language parsed;
     confidence := Parser.confidence parsed;
     model := responseModel response;
     promptTokens := default 0 (prompt_tokens <$> usage);
     completionTokens := default 0 (completion_tokens <$> usage) |}.

Section WithUpstream.
Context `{Platform}.

(** [upstream n request]: how the [n]-th call (from 0) of
    [openai.chat.completions.create] within one extraction settles. *)
Variable upstream : nat -> ChatRequest -> outcome ChatCompletion.

(** The retry loop [for (let attempt = 0; attempt < maxRetries; attempt++)]
    and the [throw] after it; [remaining] is [maxRetries - attempt]. *)
Fixpoint attemptLoop (request : ChatRequest) (remaining attempt : nat)
    (lastError : option thrown) : Run ExtractionResult :=
  match remaining with
  | O =>
      throw (Error
        match lastError with
        | Some e => handleApiError e maxRetries
        | None => str "Failed to extract text from image after multiple attempts"
        end)
  | S remaining' =>
      emit (ApiCall attempt) ;;
      match upstream attempt request with
      | Returned response => ret (resultOf response)
      | Threw error =>
          let lastError := asError error in
          (* Don't retry on certain errors *)
          if hasStatus error 401 || hasStatus error 402 || hasStatus error 404 then
            throw (Error (handleApiError error 0))
          (* Rate limit - wait before retrying *)
          else if hasStatus error 429 && (attempt <? maxRetries - 1)%nat then
            let retryAfter := retryAfterOf error in
            let waitTime :=
              if truthy retryAfter
              then times (parseInt retryAfter) (ofZ 1000)
              else ofZ (2 ^ Z.of_nat attempt * 1000) in
            emit (Sleep waitTime) ;;
            attemptLoop request remaining' (S attempt) (Some lastError)
          (* If it's the last attempt, throw the error *)
          else if (attempt =? maxRetries - 1)%nat then
            throw (Error (handleApiError error attempt))
          (* Wait before retrying (exponential backoff) *)
          else
            emit (Sleep (ofZ (2 ^ Z.of_nat attempt * 1000))) ;;
            attemptLoop request remaining' (S attempt) (Some lastError)
      end
  end.

(** export function convertImageToBase64(buffer, mimeType): string *)
Definition convertImageToBase64 (buffer : Buffer) (mimeType : jsstring) : jsstring :=
  bufferToBase64 buffer.

(** export async function extractTextFromImage(imageBuffer, mimeType, model, options) *)
Definition extractTextFromImage (imageBuffer : Buffer + jsstring)
    (mimeType : jsstring) (model : jsstring)
    (options : ImageProcessingOptions) : Run ExtractionResult :=
  (* Validate image format *)
  if negb (validateImageFormat mimeType) then
    throw (Error (str "Unsupported image format: " ++ mimeType
                  ++ str ". Supported formats: PNG, JPEG, WebP, HEIC"))
  else
    (* Convert base64 to buffer if needed *)
    let buffer :=
      match imageBuffer with
      | inl b => b
      | inr s => bufferFromBase64 s
      end in
    (* Compress and resize if needed *)
    processed ←
      tryCatch (compressImageIfNeeded buffer mimeType options)
        (fun error =>
           ret {| Images.buffer := buffer; Images.mimeType := mimeType;
                  outWidth := None; outHeight := None |});
    let buffer := Images.buffer processed in
    let finalMimeType := Images.mimeType processed in
    (* Convert to base64 *)
    let base64Image := convertImageToBase64 buffer finalMimeType in
    let request :=
      {| requestModel := model;
         promptText := prompt;
         imageUrl := str "data:" ++ finalMimeType ++ str ";base64," ++ base64Image;
         max_tokens := 4096;
         temperature := 1 # 10 |} in
    attemptLoop request maxRetries 0 None.

End WithUpstream.

End Extraction.

(** *** The rate limiter ([src/lib/rateLimiter.ts]) *)

Module RateLimiter.

Module Entry.
Record t := { count : Z; resetTime : Z }.
End Entry.

(** 1 minute *)
Definition RATE_LIMIT_WINDOW_MS : Z := 60 * 1000.
(** 10 requests per minute *)
Definition RATE_LIMIT_MAX_REQUESTS : Z := 10.

Record Verdict := { allowed : bool; remaining : Z; resetTime : Z }.

(** export function checkRateLimit(ip: string); [now] is what [Date.now()]
    reads during the call, the store is [rateLimitStore] before and after. *)
Definition checkRateLimit (now : Z) (ip : jsstring)
    (rateLimitStore : gmap jsstring Entry.t) : Verdict * gmap jsstring Entry.t :=
  let entry := rateLimitStore !! ip in
  match entry with
  | Some entry =>
      if Entry.resetTime entry <? now then
        (* window expired, create new entry *)
        let resetTime := now + RATE_LIMIT_WINDOW_MS in
        ({| allowed := true; remaining := RATE_LIMIT_MAX_REQUESTS - 1;
            resetTime := resetTime |},
         <[ip := {| Entry.count := 1; Entry.resetTime := resetTime |}]> rateLimitStore)
      (* Entry exists and window is still active *)
      else if RATE_LIMIT_MAX_REQUESTS <=? Entry.count entry then
        ({| allowed := false; remaining := 0; resetTime := Entry.resetTime entry |},
         rateLimitStore)
      else
        (* Increment count *)
        let entry :=
          {| Entry.count := Entry.count entry + 1;
             Entry.resetTime := Entry.resetTime entry |} in
        ({| allowed := true;
            remaining := RATE_LIMIT_MAX_REQUESTS - Entry.count entry;
            resetTime := Entry.resetTime entry |},
         <[ip := entry]> rateLimitStore)
  | None =>
      (* No entry, create new entry *)
      let resetTime := now + RATE_LIMIT_WINDOW_MS in
      ({| allowed := true; remaining := RATE_LIMIT_MAX_REQUESTS - 1;
          resetTime := resetTime |},
       <[ip := {| Entry.count := 1; Entry.resetTime := resetTime |}]> rateLimitStore)
  end.

(** The callback of [setInterval]: entries whose window has passed go. *)
Definition cleanup (now : Z) (rateLimitStore : gmap jsstring Entry.t)
    : gmap jsstring Entry.t :=
  filter (fun kv => negb (Entry.resetTime kv.2 <? now) = true) rateLimitStore.

(** One identity calling at the given times, in order. *)
Fixpoint calls (ip : jsstring) (times : list Z)
    (rateLimitStore : gmap jsstring Entry.t)
    : list Verdict * gmap jsstring Entry.t :=
  match times with
  | [] => ([], rateLimitStore)
  | now :: later =>
      let '(v, store1) := checkRateLimit now ip rateLimitStore in
      let '(vs, store2) := calls ip later store1 in
      (v :: vs, store2)
  end.

(** Verdicts of [n] admissions in a window that resets at [r], after [k]
    requests were counted. *)
Fixpoint admissions (r k : Z) (n : nat) : list Verdict :=
  match n with
  | O => []
  | S n' =>
      {| allowed := true; remaining := RATE_LIMIT_MAX_REQUESTS - (k + 1);
         resetTime := r |} :: admissions r (k + 1) n'
  end.

End RateLimiter.

(** *** The result store adapter ([src/lib/mongodb.ts], [src/models/Screenshot.ts]) *)

Module Store.

(** The driver's identifiers: [new ObjectId(id)] returns an identifier or
    throws on a string it does not accept. *)
Class Bson := {
  ObjectId : Type;
  ObjectId_eq_dec :: EqDecision ObjectId;
  newObjectId : jsstring -> outcome ObjectId
}.

Section WithBson.
Context `{Bson}.

Record Screenshot := {
  _id : ObjectId;
  filename : jsstring;
  extractedText : jsstring;
  language : jsstring;
  confidence : number;
  model : jsstring;
  promptTokens : Z;
  completionTokens : Z;
  imageSize : Z;
  mimeType : jsstring;
  createdAt : Z;
  userId : option jsstring
}.

(** The database as one call sees it: how [connectToDatabase] settles, and
    the documents of the [screenshots] collection in insertion order. *)
Record Database := {
  connection : outcome unit;
  screenshots : list Screenshot
}.

(** export async function getCollection() *)
Definition getCollection (db : Database) : outcome (list Screenshot) :=
  match connection db with
  | Returned _ => Returned (screenshots db)
  | Threw e => Threw e
  end.

(** [collection.deleteOne({ _id })]: the first document with that
    identifier goes; the count of deleted documents and what is left. *)
Fixpoint deleteOne (objectId : ObjectId) (docs : list Screenshot)
    : Z * list Screenshot :=
  match docs with
  | [] => (0, [])
  | d :: rest =>
      if decide (_id d = objectId) then (1, rest)
      else let '(n, rest') := deleteOne objectId rest in (n, d :: rest')
  end.

(** export async function deleteScreenshot(id: string): Promise<boolean> *)
Definition deleteScreenshot (id : jsstring) (db : Database)
    : outcome bool * Database :=
  match getCollection db with
  | Threw e => (Threw e, db)
  | Returned collection =>
      match newObjectId id with
      | Returned objectId =>
          let '(deletedCount, rest) := deleteOne objectId collection in
          (Returned (0 <? deletedCount),
           {| connection := connection db; screenshots := rest |})
      | Threw error =>
          (* Invalid ObjectId format *)
          (Returned false, db)
      end
  end.

(** ScreenshotModel.deleteById *)
Definition deleteById (id : jsstring) (db : Database) : outcome bool * Database :=
  deleteScreenshot id db.

End WithBson.

Definition isHexDigit (c : Z) : bool :=
  isDigit c || ((97 <=? c) && (c <=? 102)) || ((65 <=? c) && (c <=? 70)).

(** Identifiers in their printed form, 24 hexadecimal digits, compared
    without regard to case: one driver to run the adapter against. *)
Definition hexObjectId : Bson :=
  {| ObjectId := jsstring;
     newObjectId id :=
       if (length id =? 24)%nat && forallb isHexDigit id
       then Returned (toLowerCase id)
       else Threw (Error (str "input must be a 24 character hex string, 12 byte Uint8Array, or an integer")) |}.

End Store.

(** *** Reference readings used by the statements below *)

Module Reading.

(** A confidence the data model admits: a number from 0 to 100. *)
Definition isPercentage (n : number) : Prop :=
  match n with
  | Num q => (0 <= q)%Q /\ (q <= 100)%Q
  | NaN => False
  end.

Definition between (lo hi c : Z) : bool := (lo <=? c) && (c <=? hi).

Definition isCJK (c : Z) : bool := between 0x4e00 0x9fff c.
Definition isKana (c : Z) : bool := between 0x3040 0x309f c || between 0x30a0 0x30ff c.
Definition isHangul (c : Z) : bool := between 0xac00 0xd7a3 c.
Definition isArabic (c : Z) : bool := between 0x0600 0x06ff c.
Definition isCyrillic (c : Z) : bool := between 0x0400 0x04ff c.
Definition isThai (c : Z) : bool := between 0x0e00 0x0e7f c.
Definition isHebrew (c : Z) : bool := between 0x0590 0x05ff c.

(** The scripts in the order of precedence, each with its language code. *)
Definition scriptOrder : list ((Z -> bool) * jsstring) :=
  [(isCJK, str "zh"); (isKana, str "ja"); (isHangul, str "ko");
   (isArabic, str "ar"); (isCyrillic, str "ru"); (isThai, str "th");
   (isHebrew, str "he")].

(** The code of the first script of [scriptOrder] with a character in the
    text, [en] when there is none. *)
Definition firstScript (text : jsstring) : jsstring :=
  match find (fun entry => existsb entry.1 text) scriptOrder with
  | Some entry => entry.2
  | None => str "en"
  end.

Definition isPunctuation (c : Z) : bool :=
  existsb (Z.eqb c) (str ".,!?;:").

(** The characters [garbledPattern] lets pass. *)
Definition isPlausible (c : Z) : bool :=
  isWordChar c || isWhiteSpace c || between 0x00C0 0x017F c
  || between 0x4e00 0x9fff c || between 0x3040 0x30ff c
  || between 0xac00 0xd7a3 c
  || existsb (Z.eqb c) (str ".,!?;:()[]{}-'" ++ [34] ++ str "/" ++ [92]).

Definition points (condition : bool) (n : Z) : Z := if condition then n else 0.

(** A call of the image library that threw. *)
Definition threwEvent (ev : Event) : bool :=
  match ev with
  | SharpCall _ threw => threw
  | _ => false
  end.

(** The requests to the model and the delays between them. *)
Definition isNetworkEvent (ev : Event) : bool :=
  match ev with
  | SharpCall _ _ => false
  | _ => true
  end.

Definition network (log : list Event) : list Event := List.filter isNetworkEvent log.

(** The encoder runs of a log, in order. *)
Definition encodings (log : list Event) : list Image :=
  omap (fun ev => match ev with
                  | SharpCall (ToBuffer img) _ => Some img
                  | _ => None
                  end) log.

(** Authentication, quota and not-found failures of the model API. *)
Definition isTerminal (error : thrown) : bool :=
  Extraction.hasStatus error 401 || Extraction.hasStatus error 402
  || Extraction.hasStatus error 404.

(** The delay after a failed attempt that is retried: the retry hint, in
    seconds, of a rate-limit error that carries one, and two to the power
    of the attempt number, in seconds, otherwise. *)
Definition backoff (attempt : nat) (error : thrown) : number :=
  if Extraction.hasStatus error 429 && truthy (Extraction.retryAfterOf error)
  then times (parseInt (Extraction.retryAfterOf error)) (ofZ 1000)
  else ofZ (2 ^ Z.of_nat attempt * 1000).

(** An input character against a pattern character under ignoreCase. *)
Definition sameIgnoringCase (a c : Z) : bool :=
  charsetMatches true (Atom (Single a)) c.

(** [s] begins with the pattern characters [l], in any letter case. *)
Fixpoint startsWithI (l s : jsstring) : bool :=
  match l, s with
  | [], _ => true
  | _ :: _, [] => false
  | a :: l', c :: s' => sameIgnoringCase a c && startsWithI l' s'
  end.

(** [l] is the label, in any letter case. *)
Definition spells (label : string) (l : jsstring) : bool :=
  (length l =? length (str label))%nat && startsWithI (str label) l.

(** The label occurs in the text, in any letter case. *)
Definition mentions (label : string) (s : jsstring) : bool :=
  test {| source := lit label; ignoreCase := true |} s.

(** A number as the confidence expression reads it: digits, and possibly a
    point and more digits. *)
Definition decimal (ip : jsstring) (frac : option jsstring) : jsstring :=
  ip ++ match frac with
        | Some fp => cu "." :: fp
        | None => []
        end.

Definition isDecimal (ip : jsstring) (frac : option jsstring) : Prop :=
  ip <> [] /\ forallb isDigit ip = true
  /\ match frac with
     | Some fp => fp <> [] /\ forallb isDigit fp = true
     | None => True
     end.

(** The score of a non-empty text before clamping. *)
Definition score (text : jsstring) : Z :=
  let n := Z.of_nat (length text) in
  80 + points (10 <? n) 5 + points (50 <? n) 5 + points (100 <? n) 5
  + points (existsb isLetter text && existsb isWhiteSpace text) 5
  + points (existsb isDigit text) 2
  + points (existsb isPunctuation text) 3
  - points ((n <? 20) && existsb (fun c => negb (isPlausible c)) text) 10.

End Reading.
Import Reading.

(** *** Notions the proofs are stated with *)

Module Notions.

(** A run is faithful when it throws exactly if a logged call threw, and
    quiet when it logs calls of the image library only. *)
Definition faithful {A} (m : Run A) : Prop :=
  isThrow m.1 = existsb threwEvent m.2.

Definition quiet {A} (m : Run A) : Prop :=
  forallb (fun ev => negb (isNetworkEvent ev)) m.2 = true.

(** [l] occurs somewhere in [s], in any letter case. *)
Fixpoint occursI (l s : jsstring) : bool :=
  startsWithI l s ||
  match s with
  | [] => false
  | _ :: s' => occursI l s'
  end.

Definition litOf (l : jsstring) : pattern :=
  fold_right (fun c p => Seq (Chr (Atom (Single c))) p) Eps l.

(** A character that no pattern character of [l] matches stops every
    occurrence of [l]. *)
Definition foreignTo (l : jsstring) (c0 : Z) : Prop :=
  forallb (fun a => negb (sameIgnoringCase a c0)) l = true.

(** A run of characters of class [p] cannot go on into [s]: [s] is empty or
    begins with a character outside [p]. *)
Definition endsRun (p : Z -> bool) (s : jsstring) : Prop :=
  match s with
  | [] => True
  | c :: _ => p c = false
  end.

End Notions.
Import Notions.

(** *** Sample data: a runtime, two upstreams, a database, responses *)

Module Samples.

Definition sampleRecord : @Store.Screenshot Store.hexObjectId :=
  {| Store._id := (str "0123456789abcdef01234567" : @Store.ObjectId Store.hexObjectId);
     Store.filename := str "invoice.png";
     Store.extractedText := str "INVOICE #1023";
     Store.language := str "en";
     Store.confidence := ofZ 97;
     Store.model := str "gpt-4o";
     Store.promptTokens := 900;
     Store.completionTokens := 12;
     Store.imageSize := 51200;
     Store.mimeType := str "image/png";
     Store.createdAt := 1700000000000;
     Store.userId := None |}.

Definition sampleDatabase : @Store.Database Store.hexObjectId :=
  {| Store.connection := Returned tt; Store.screenshots := [sampleRecord] |}.

(** An image library that accepts every input and option, reads 4000x3000
    from any image it can read, and encodes to the input bytes at quality
    80 and above and to the first byte below that; a stand-in for the
    base64 codec that writes one code unit per byte. *)
Definition stubPlatform (readable : bool) : Platform :=
  {| sharpConstruct _ := Returned tt;
     sharpConfigure _ := Returned tt;
     sharpMetadata _ :=
       if readable then Returned {| width := Some 4000; height := Some 3000 |}
       else Threw (Error (str "Input buffer contains unsupported image format"));
     sharpToBuffer img :=
       Returned
         (if forallb (fun op => match op with
                                | Jpeg q | Webp q => 80 <=? q
                                | Resize _ _ => true
                                end) (ops img)
          then input img else take 1 (input img));
     bufferToBase64 b := map (fun x => Z.of_N (Byte.to_N x)) b;
     bufferFromBase64 _ := [] |}.

Definition threeBytes : Buffer := [Byte.x00; Byte.x01; Byte.x02].

Definition invoiceResponse : Extraction.ChatCompletion :=
  {| Extraction.content :=
       Some (str "INVOICE #1023" ++ [LF] ++ str "LANGUAGE: en" ++ [LF]
             ++ str "CONFIDENCE: 97");
     Extraction.responseModel := str "gpt-4o-2024-08-06";
     Extraction.usage :=
       Some {| Extraction.prompt_tokens := 900; Extraction.completion_tokens := 12 |} |}.

(** Fails twice with a server error, then answers. *)
Definition flakyUpstream (n : nat) (request : Extraction.ChatRequest)
    : outcome Extraction.ChatCompletion :=
  match n with
  | 0%nat | 1%nat => Threw (APIError (Some 503) None (str "Service Unavailable"))
  | _ => Returned invoiceResponse
  end.

(** Rejects the API key on every call. *)
Definition unauthorizedUpstream (n : nat) (request : Extraction.ChatRequest)
    : outcome Extraction.ChatCompletion :=
  Threw (APIError (Some 401) None (str "Incorrect API key provided")).

Definition noOptions : ImageProcessingOptions :=
  {| maxSize := None; maxDimension := None; quality := None |}.

Definition tightOptions : ImageProcessingOptions :=
  {| maxSize := Some 2; maxDimension := None; quality := None |}.

(** A response with the LANGUAGE: marker twice. *)
Definition repeatedMarkerResponse : jsstring :=
  str "A" ++ [LF] ++ str "LANGUAGE: en" ++ [LF] ++ str "LANGUAGE: fr" ++ [LF]
  ++ str "CONFIDENCE: 90".

(** A response whose LANGUAGE: marker spells the language out. *)
Definition spelledOutResponse : jsstring :=
  str "Hello" ++ [LF] ++ str "LANGUAGE: English" ++ [LF] ++ str "CONFIDENCE: 95".

End Samples.
Import Samples.

(** *** Token estimation ([src/lib/openai.ts]) *)

Module Tokens.

(** [Math.ceil] of an exact quotient. *)
Definition ceil (q : Q) : Z := Qceiling q.

(** export function estimateTokens(imageSize, width?, height?): number.
    Sizes and dimensions are integers and every quotient is kept exact; a
    double holds the same values for sizes below 2^50. *)
Definition estimateTokens (imageSize : Z) (width height : option Z) : Z :=
  (* Base tokens for the image *)
  let tokens := 85 in
  (* If we have dimensions and image is high-res, use high-res pricing *)
  let tokens :=
    if present width && present height then
      let minDimension := Z.min (default 0 width) (default 0 height) in
      if 512 <? minDimension then
        let tokens := 170 in
        (* Additional tokens for larger images *)
        let maxDimension := Z.max (default 0 width) (default 0 height) in
        if 2048 <? maxDimension
        then tokens + ceil (inject_Z (maxDimension - 2048) / 512) * 85
        else tokens
      else tokens
    else tokens in
  (* Add tokens for base64 encoding overhead *)
  let base64Overhead := (inject_Z (ceil (inject_Z imageSize / 3)) * 0.75)%Q in
  tokens + ceil (base64Overhead / 4).

End Tokens.

(** *** What the handlers read of a request *)

Module Http.

(** [request.headers]: the value of each header that is present, under its
    lower-case name. *)
Abbreviation Headers := (gmap jsstring jsstring).

(** [headers.get(name)]; [None] is null. *)
Definition get (headers : Headers) (name : string) : option jsstring :=
  headers !! str name.

(** An optional string used as a condition: null and the empty string are
    false. *)
Definition given (value : option jsstring) : bool :=
  match value with
  | Some s => truthy s
  | None => false
  end.

(** export function getClientIP(request: NextRequest): string *)
Definition getClientIP (headers : Headers) : jsstring :=
  (* Check various headers for IP address *)
  let forwarded := get headers "x-forwarded-for" in
  if given forwarded then
    match split (cu ",") (default [] forwarded) with
    | first :: _ => trim first
    | [] => []   (* split returns at least one piece *)
    end
  else
    let realIP := get headers "x-real-ip" in
    if given realIP then default [] realIP
    (* Fallback to unknown if no IP found *)
    else str "unknown".

End Http.

(** *** The rate limiter over time *)

Module Traffic.
Import RateLimiter.

(** What reaches the module, in order: a request of an identity, or the
    callback of the cleanup timer, each at the instant [Date.now()] reads. *)
Inductive Tick :=
| Request (now : Z) (ip : jsstring)
| Sweep (now : Z).

Definition instant (t : Tick) : Z :=
  match t with
  | Request now _ => now
  | Sweep now => now
  end.

(** A request that was answered: its instant, its identity, the answer. *)
Record Served := { at_ : Z; who : jsstring; verdict : Verdict }.

(** The answers to the requests, oldest first, and the store afterwards. *)
Fixpoint serve (ticks : list Tick) (rateLimitStore : gmap jsstring Entry.t)
    : list Served * gmap jsstring Entry.t :=
  match ticks with
  | [] => ([], rateLimitStore)
  | Request now ip :: later =>
      let '(v, store1) := checkRateLimit now ip rateLimitStore in
      let '(served, store2) := serve later store1 in
      ({| at_ := now; who := ip; verdict := v |} :: served, store2)
  | Sweep now :: later => serve later (cleanup now rateLimitStore)
  end.

(** Every stored count is between 1 and the maximum. *)
Definition counted (rateLimitStore : gmap jsstring Entry.t) : Prop :=
  map_Forall (fun _ e => 1 <= Entry.count e <= RATE_LIMIT_MAX_REQUESTS) rateLimitStore.

(** No stored window ends later than one window after [lo]. *)
Definition timely (lo : Z) (rateLimitStore : gmap jsstring Entry.t) : Prop :=
  map_Forall (fun _ e => Entry.resetTime e <= lo + RATE_LIMIT_WINDOW_MS) rateLimitStore.

(** The instants never go back, from [lo] on. *)
Fixpoint monotone (lo : Z) (ticks : list Tick) : Prop :=
  match ticks with
  | [] => True
  | t :: later => lo <= instant t /\ monotone (instant t) later
  end.

(** How many requests of [ip] were admitted into the window that resets at
    [r]. *)
Definition admitted (ip : jsstring) (r : Z) (served : list Served) : nat :=
  length (List.filter
            (fun s => bool_decide (who s = ip) && allowed (verdict s)
                      && (resetTime (verdict s) =? r))
            served).

End Traffic.

(** *** The attempts of an extraction *)

Module Attempts.

(** The calls to the model that failed and were tried again, each followed
    by its delay, the first of them numbered [attempt]. *)
Fixpoint retried (attempt : nat) (errors : list thrown) : list Event :=
  match errors with
  | [] => []
  | e :: later =>
      ApiCall attempt :: Sleep (backoff attempt e) :: retried (S attempt) later
  end.

End Attempts.

(** *** More of the result store ([src/lib/mongodb.ts], [src/models/Screenshot.ts]) *)

Module Documents.
Import Store.

(** What [saveScreenshot] is given: a screenshot without [_id] and
    [createdAt]. *)
Module Draft.
Record t := {
  filename : jsstring;
  extractedText : jsstring;
  language : jsstring;
  confidence : number;
  model : jsstring;
  promptTokens : Z;
  completionTokens : Z;
  imageSize : Z;
  mimeType : jsstring;
  userId : option jsstring
}.
End Draft.

(** More of the driver: the printed form of an identifier, the check
    [ObjectId.isValid], and the error of an insertion under an identifier
    that is already stored. *)
Class Driver `{Bson} := {
  toHexString : ObjectId -> jsstring;
  isValid : jsstring -> bool;
  duplicateKey : ObjectId -> thrown
}.

Section WithDriver.
Context `{Driver}.

(** [collection.findOne({ _id })]: the first document with that
    identifier, or null. *)
Definition findOne (objectId : ObjectId) (docs : list Screenshot) : option Screenshot :=
  List.find (fun d => bool_decide (_id d = objectId)) docs.

(** [collection.insertOne(doc)] of a document without [_id]: the driver
    gives it the identifier [generated]; the server refuses an identifier
    it already stores. *)
Definition insertOne (generated : ObjectId) (doc : ObjectId -> Screenshot)
    (docs : list Screenshot) : outcome ObjectId * list Screenshot :=
  match findOne generated docs with
  | Some _ => (Threw (duplicateKey generated), docs)
  | None => (Returned generated, docs ++ [doc generated])
  end.

(** export async function saveScreenshot(data); [now] is what [new Date()]
    reads, [generated] the identifier the driver makes up. *)
Definition saveScreenshot (data : Draft.t) (now : Z) (generated : ObjectId)
    (db : Database) : outcome Screenshot * Database :=
  match getCollection db with
  | Threw e => (Threw e, db)
  | Returned collection =>
      let screenshot (insertedId : ObjectId) :=
        {| _id := insertedId;
           filename := Draft.filename data;
           extractedText := Draft.extractedText data;
           language := Draft.language data;
           confidence := Draft.confidence data;
           model := Draft.model data;
           promptTokens := Draft.promptTokens data;
           completionTokens := Draft.completionTokens data;
           imageSize := Draft.imageSize data;
           mimeType := Draft.mimeType data;
           createdAt := now;
           userId := Draft.userId data |} in
      match insertOne generated screenshot collection with
      | (Threw e, _) => (Threw e, db)
      | (Returned insertedId, collection) =>
          let db := {| connection := connection db; screenshots := collection |} in
          match findOne insertedId collection with
          | Some created => (Returned created, db)
          | None => (Threw (Error (str "Failed to create screenshot")), db)
          end
      end
  end.

(** [.sort({ createdAt: -1 })]: newest first.  The order of documents of
    one date is the server's choice; here the one stored later comes
    first. *)
Fixpoint insertByDate (d : Screenshot) (sorted : list Screenshot) : list Screenshot :=
  match sorted with
  | [] => [d]
  | x :: rest =>
      if createdAt x <? createdAt d then d :: sorted else x :: insertByDate d rest
  end.

Definition newestFirst (docs : list Screenshot) : list Screenshot :=
  foldr insertByDate [] docs.

(** No document is followed by a newer one. *)
Fixpoint datedDescending (docs : list Screenshot) : Prop :=
  match docs with
  | [] => True
  | d :: rest =>
      Forall (fun x => createdAt x <= createdAt d) rest /\ datedDescending rest
  end.

(** [.limit(n)] of a cursor: the first [n] documents, all of them for 0; a
    negative [n] counts as its absolute value. *)
Definition cursorLimit (n : Z) (docs : list Screenshot) : list Screenshot :=
  if n =? 0 then docs else take (Z.to_nat (Z.abs n)) docs.

(** export async function getScreenshotHistory(limit: number = 50) *)
Definition getScreenshotHistory (limit : Z) (db : Database) : outcome (list Screenshot) :=
  match getCollection db with
  | Threw e => Threw e
  | Returned collection => Returned (cursorLimit limit (newestFirst collection))
  end.

(** export async function getScreenshotById(id: string) *)
Definition getScreenshotById (id : jsstring) (db : Database)
    : outcome (option Screenshot) :=
  match getCollection db with
  | Threw e => Threw e
  | Returned collection =>
      match newObjectId id with
      | Returned objectId => Returned (findOne objectId collection)
      | Threw error =>
          (* Invalid ObjectId format *)
          Returned None
      end
  end.

(** ScreenshotModel.create, findAll, findById *)
Definition create := saveScreenshot.
Definition findAll := getScreenshotHistory.
Definition findById := getScreenshotById.

End WithDriver.

End Documents.

(** *** Arrays and responses *)

Module Web.

(** A relative index of [Array.prototype.slice] against a length: counted
    from the end when negative, and kept within the array. *)
Definition clampIndex (len relative : Z) : Z :=
  if relative <? 0 then Z.max (len + relative) 0 else Z.min relative len.

(** [array.slice(start, end)] on integers. *)
Definition slice {A} (start finish : Z) (array : list A) : list A :=
  let len := Z.of_nat (length array) in
  let k := clampIndex len start in
  let final := clampIndex len finish in
  take (Z.to_nat (final - k)) (drop (Z.to_nat k) array).

(** [array.slice(start)] *)
Definition sliceFrom {A} (start : Z) (array : list A) : list A :=
  slice start (Z.of_nat (length array)) array.

(** [parseInt(text, 10)] as the integer it is (a double holds it exactly
    below 2^53); [None] is NaN. *)
Definition parseInteger (text : jsstring) : option Z :=
  match parseInt text with
  | Num q => Some (Qfloor q)
  | NaN => None
  end.

(** interface ApiResponse<T> *)
Record ApiResponse (T : Type) := {
  success : bool;
  data : option T;
  error : option jsstring;
  message : option jsstring
}.
Arguments success {T} _.
Arguments data {T} _.
Arguments error {T} _.
Arguments message {T} _.

(** [NextResponse.json(body, { status, headers })] *)
Record Response (T : Type) := {
  status : Z;
  headers : list (jsstring * jsstring);
  body : ApiResponse T
}.
Arguments status {T} _.
Arguments headers {T} _.
Arguments body {T} _.

(** A response [{ success: false, error }] without headers. *)
Definition failure {T} (status : Z) (error : jsstring) : Response T :=
  {| status := status;
     headers := [];
     body := {| success := false; data := None; error := Some error; message := None |} |}.

(** An integer in a template literal or under [toString()] (below 10^21,
    where the notation changes). *)
Definition numberToString (z : Z) : jsstring :=
  str (NilZero.string_of_int (Z.to_int z)).

(** [error instanceof Error ? error.message : fallback] *)
Definition messageOr (fallback : jsstring) (error : thrown) : jsstring :=
  match error with
  | APIError _ _ message => message
  | Error message => message
  | Other _ => fallback
  end.

End Web.

(** *** The history route ([src/app/api/history/route.ts]) *)

Module HistoryRoute.
Import Store Documents Http Web.

Record HistoryItem := {
  _id : jsstring;
  filename : jsstring;
  extractedText : jsstring;
  createdAt : Z
}.

Section WithDriver.
Context `{Driver}.

(** export async function GET(request); [searchParams] are the query
    parameters of the request. *)
Definition GET (searchParams : gmap jsstring jsstring) (db : Database)
    : Response (list HistoryItem) :=
  let limitParam := get searchParams "limit" in
  let skipParam := get searchParams "skip" in
  (* Parse and validate limit *)
  let limit := 50 in
  let limit :=
    if given limitParam then
      match parseInteger (default [] limitParam) with
      | Some parsedLimit => if 0 <? parsedLimit then Z.min parsedLimit 100 else limit
      | None => limit
      end
    else limit in
  (* Parse and validate skip *)
  let skip := 0 in
  let skip :=
    if given skipParam then
      match parseInteger (default [] skipParam) with
      | Some parsedSkip => if 0 <=? parsedSkip then parsedSkip else skip
      | None => skip
      end
    else skip in
  match findAll (limit + skip) db with
  | Returned screenshots =>
      (* Apply skip manually *)
      let paginatedScreenshots := slice skip (skip + limit) screenshots in
      let history :=
        map (fun screenshot =>
               {| _id := toHexString (Store._id screenshot);
                  filename := Store.filename screenshot;
                  extractedText := Store.extractedText screenshot;
                  createdAt := Store.createdAt screenshot |})
          paginatedScreenshots in
      {| status := 200;
         headers := [];
         body := {| success := true; data := Some history; error := None;
                    message := None |} |}
  | Threw error =>
      failure 500 (messageOr (str "Failed to fetch history") error)
  end.

(** export async function DELETE(request); [json] is how [request.json()]
    settles, read for the [id] member of the body (a string, when there is
    one). *)
Definition DELETE (searchParams : gmap jsstring jsstring)
    (json : outcome (option jsstring)) (db : Database) : Response unit * Database :=
  (* Try to get ID from URL params first *)
  let id := get searchParams "id" in
  (* If not in URL params, try request body *)
  let id :=
    if negb (given id) then
      match json with
      | Returned (Some bodyId) => if truthy bodyId then Some bodyId else None
      | Returned None => None
      | Threw _ => id   (* Body parsing failed, continue with null *)
      end
    else id in
  if negb (given id) then
    (failure 400
       (str "No ID provided. Provide ID in query parameter (?id=...) or request body ({ id: '...' })"),
     db)
  (* Validate ObjectId format *)
  else if negb (isValid (default [] id)) then
    (failure 400 (str "Invalid ID format. ID must be a valid MongoDB ObjectId"), db)
  else
    match deleteById (default [] id) db with
    | (Returned deleted, db) =>
        if negb deleted then (failure 404 (str "Screenshot not found"), db)
        else
          ({| status := 200;
              headers := [];
              body := {| success := true; data := None; error := None;
                         message := Some (str "Screenshot deleted successfully") |} |},
           db)
    | (Threw error, db) =>
        (failure 500 (messageOr (str "Failed to delete screenshot") error), db)
    end.

End WithDriver.

End HistoryRoute.

(** *** Connecting to the database ([src/lib/mongodb.ts]) *)

Module Connection.

(** The two indexes of the collection: [{ createdAt: -1 }] and
    [{ userId: 1 }]. *)
Inductive Index := CreatedAtDescending | UserIdAscending.

(** The environment and the server as one call of [connectToDatabase] meets
    them: the variable MONGODB_URI, how the [n]-th [new MongoClient(uri,
    options)] with its [connect()] settles, and how a ping and the
    creation of an index settle on a client. *)
Class Mongo := {
  Client : Type;
  MONGODB_URI : option jsstring;
  connect : nat -> jsstring -> outcome Client;
  ping : Client -> outcome unit;
  createIndex : Client -> Index -> outcome unit
}.

(** What a call does, oldest first: a ping of the cached client, a pass of
    the connection loop, the creation of an index (each with whether it
    went well), a delay. *)
Inductive Step :=
| Ping (ok : bool)
| Attempt (number : nat) (ok : bool)
| EnsureIndex (index : Index) (ok : bool)
| Wait (ms : Z).

Section WithMongo.
Context `{Mongo}.

(** function getMongoUri(): string *)
Definition getMongoUri : outcome jsstring :=
  match MONGODB_URI with
  | Some uri =>
      if truthy uri then Returned uri
      else Threw (Error (str "Please add your Mongo URI to .env.local"))
  | None => Threw (Error (str "Please add your Mongo URI to .env.local"))
  end.

(** async function ensureIndexes(db): never throws; an index that cannot
    be created ends the function. *)
Definition ensureIndexes (client : Client) : list Step :=
  match createIndex client CreatedAtDescending with
  | Returned _ =>
      EnsureIndex CreatedAtDescending true ::
      match createIndex client UserIdAscending with
      | Returned _ => [EnsureIndex UserIdAscending true]
      | Threw _ => [EnsureIndex UserIdAscending false]
      end
  | Threw _ => [EnsureIndex CreatedAtDescending false]
  end.

(** [lastError?.message] in the template of the final error. *)
Definition lastMessage (lastError : option thrown) : jsstring :=
  match lastError with
  | Some (APIError _ _ message) => message
  | Some (Error message) => message
  | Some (Other rendering) => rendering
  | None => str "undefined"
  end.

(** What a call resolves to, the cache ([cachedClient] with its
    [cachedDb]) afterwards, and what was done. *)
Record Connected := {
  settled : outcome Client;
  cached : option Client;
  steps : list Step
}.

(** The loop [while (retries > 0)] and the [throw] after it; [attempt]
    counts the passes. *)
Fixpoint connectLoop (retries attempt : nat) (cachedClient : option Client)
    (lastError : option thrown) : Connected :=
  match retries with
  | O =>
      {| settled :=
           Threw (Error (str "Failed to connect to MongoDB after retries: "
                         ++ lastMessage lastError));
         cached := cachedClient;
         steps := [] |}
  | S retries =>
      match
        match getMongoUri with
        | Returned uri => connect attempt uri
        | Threw e => Threw e
        end
      with
      | Returned client =>
          (* Cache the connection, ensure indexes exist *)
          {| settled := Returned client;
             cached := Some client;
             steps := Attempt attempt true :: ensureIndexes client |}
      | Threw error =>
          let lastError := Extraction.asError error in
          let wait :=
            if (0 <? retries)%nat
            then [Wait (1000 * (4 - Z.of_nat retries))]
            else [] in
          let later := connectLoop retries (S attempt) cachedClient (Some lastError) in
          {| settled := settled later;
             cached := cached later;
             steps := Attempt attempt false :: wait ++ steps later |}
      end
  end.

(** export async function connectToDatabase() *)
Definition connectToDatabase (cachedClient : option Client) : Connected :=
  match cachedClient with
  | Some client =>
      (* Check if connection is still alive *)
      match ping client with
      | Returned _ =>
          {| settled := Returned client; cached := cachedClient; steps := [Ping true] |}
      | Threw _ =>
          (* Connection is dead, reset cache *)
          let fresh := connectLoop 2 0 None None in
          {| settled := settled fresh; cached := cached fresh;
             steps := Ping false :: steps fresh |}
      end
  | None => connectLoop 2 0 None None
  end.

End WithMongo.

(** The delays and the passes of the loop among the steps. *)
Definition waits (steps : list Step) : list Z :=
  omap (fun step => match step with Wait ms => Some ms | _ => None end) steps.

Definition attempts (steps : list Step) : list bool :=
  omap (fun step => match step with Attempt _ ok => Some ok | _ => None end) steps.

End Connection.

(** *** The OCR route ([src/app/api/ocr/route.ts]) *)

Module OcrRoute.
Import Http Web.

(** Maximum file size: 10MB *)
Definition MAX_FILE_SIZE : Z := 10 * 1024 * 1024.

(** Allowed image formats *)
Definition ALLOWED_FORMATS : list jsstring :=
  [str "image/png"; str "image/jpeg"; str "image/jpg"; str "image/webp"].

(** interface RequestLog; [timestamp] is the instant of its [Date]. *)
Record RequestLog := {
  timestamp : Z;
  ip : jsstring;
  imageSize : Z;
  imageFormat : jsstring;
  model : jsstring;
  openaiResponseTime : option Z;
  tokensUsed : option Z;
  success : bool;
  error : option jsstring
}.

(** Keep last 1000 requests *)
Definition MAX_LOG_ENTRIES : nat := 1000.

(** function logRequest(log: RequestLog): void, on [requestLogs]. *)
Definition logRequest (log : RequestLog) (requestLogs : list RequestLog)
    : list RequestLog :=
  let requestLogs := requestLogs ++ [log] in
  if (MAX_LOG_ENTRIES <? length requestLogs)%nat
  then drop 1 requestLogs   (* Remove oldest entry *)
  else requestLogs.

(** The body of GET /api/ocr/logs. *)
Record Logs := { logs : list RequestLog; total : Z }.

(** export async function GET(request), the request logs *)
Definition GET (searchParams : gmap jsstring jsstring) (requestLogs : list RequestLog)
    : Logs :=
  let limit :=
    parseInteger
      (if given (get searchParams "limit")
       then default [] (get searchParams "limit")
       else str "100") in
  (* [-limit], NaN being read as 0 by [slice] *)
  let start := match limit with Some n => - n | None => 0 end in
  {| logs := rev (sliceFrom start requestLogs);   (* Most recent first *)
     total := Z.of_nat (length requestLogs) |}.

(** What the handler reads of an uploaded [File]; [arrayBuffer] is how
    reading its bytes settles. *)
Record File := {
  name : jsstring;
  size : Z;
  type : jsstring;
  arrayBuffer : outcome Buffer
}.

Inductive FormDataEntryValue :=
| FileValue (file : File)
| TextValue (text : jsstring).

(** The two fields the handler reads of the form; the model field is read
    as the text the handler takes it for. *)
Record FormData := {
  image : option FormDataEntryValue;
  modelField : option jsstring
}.

(** The data of a successful answer. *)
Record OcrData := {
  extractedText : jsstring;
  confidence : number;
  language : jsstring;
  dataModel : jsstring;
  processingTime : Z;
  _id : jsstring
}.

(** What [Date.now()] and [new Date()] read at each place of the handler,
    in the order of the source. *)
Record Clock := {
  startTime : Z;          (* const startTime = Date.now() *)
  logTime : Z;            (* timestamp: new Date() *)
  limiterNow : Z;         (* inside checkRateLimit *)
  retryNow : Z;           (* in the Retry-After header *)
  openaiStartTime : Z;    (* const openaiStartTime = Date.now() *)
  openaiEndTime : Z;      (* Date.now() - openaiStartTime *)
  filenameNow : Z;        (* in the default file name *)
  savedAt : Z;            (* createdAt: new Date(), in saveScreenshot *)
  endTime : Z             (* Date.now() - startTime *)
}.

(** Formatting left to the runtime: [new Date(t).toISOString()] and
    [x.toFixed(2)]. *)
Class Formats := {
  toISOString : Z -> jsstring;
  toFixed2 : Q -> jsstring
}.

Definition withError (log : RequestLog) (message : jsstring) : RequestLog :=
  {| timestamp := timestamp log; ip := ip log; imageSize := imageSize log;
     imageFormat := imageFormat log; model := model log;
     openaiResponseTime := openaiResponseTime log; tokensUsed := tokensUsed log;
     success := success log; error := Some message |}.

Definition withFile (log : RequestLog) (file : File) (chosen : jsstring) : RequestLog :=
  {| timestamp := timestamp log; ip := ip log; imageSize := size file;
     imageFormat := type file; model := chosen;
     openaiResponseTime := openaiResponseTime log; tokensUsed := tokensUsed log;
     success := success log; error := error log |}.

Definition withResponseTime (log : RequestLog) (ms : Z) : RequestLog :=
  {| timestamp := timestamp log; ip := ip log; imageSize := imageSize log;
     imageFormat := imageFormat log; model := model log;
     openaiResponseTime := Some ms; tokensUsed := tokensUsed log;
     success := success log; error := error log |}.

Definition withTokens (log : RequestLog) (tokens : Z) : RequestLog :=
  {| timestamp := timestamp log; ip := ip log; imageSize := imageSize log;
     imageFormat := imageFormat log; model := model log;
     openaiResponseTime := openaiResponseTime log; tokensUsed := Some tokens;
     success := success log; error := error log |}.

Definition succeeded (log : RequestLog) : RequestLog :=
  {| timestamp := timestamp log; ip := ip log; imageSize := imageSize log;
     imageFormat := imageFormat log; model := model log;
     openaiResponseTime := openaiResponseTime log; tokensUsed := tokensUsed log;
     success := true; error := error log |}.

(** [ALLOWED_FORMATS.some((format) => file.type.toLowerCase() === format)] *)
Definition isValidFormat (type : jsstring) : bool :=
  existsb (fun format => strictEq (toLowerCase type) format) ALLOWED_FORMATS.

(** The status chosen for a failed extraction, from the thrown value. *)
Definition statusCode (error : thrown) : Z :=
  let statusCode := 500 in
  match error with
  | Other _ => statusCode
  | APIError _ _ errorMessage | Error errorMessage =>
      if includes errorMessage (str "Rate limit") then 429
      else if includes errorMessage (str "API key")
              || includes errorMessage (str "Invalid") then 401
      else if includes errorMessage (str "quota") then 402
      else if includes errorMessage (str "Unsupported") then 400
      else if includes errorMessage (str "timeout")
              || includes errorMessage (str "Timeout") then 504
      else statusCode
  end.

(** The module's state between requests: the limiter's map, the request
    logs, the database. *)
Record Server `{Store.Bson} := {
  rateLimitStore : gmap jsstring RateLimiter.Entry.t;
  requestLogs : list RequestLog;
  database : Store.Database
}.

(** The answer to a request, the state afterwards, and what the extraction
    asked of the image library and of the model. *)
Record Handled `{Store.Bson} := {
  response : Response OcrData;
  server : Server;
  events : list Event
}.

Section WithRuntime.
Context `{Platform} `{Documents.Driver} `{Formats}.
Variable upstream : nat -> Extraction.ChatRequest -> outcome Extraction.ChatCompletion.

(** export async function POST(request): the headers of the request, how
    [request.formData()] settles, the clock, the identifier the driver
    will give to a new document, and the state before.  Outside its four
    inner [try] blocks nothing that is modelled throws, so the handler's
    last [catch] is never entered. *)
Definition POST (requestHeaders : gmap jsstring jsstring) (formData : outcome FormData)
    (clock : Clock) (generated : Store.ObjectId) (state : Server) : Handled :=
  let clientIP := getClientIP requestHeaders in
  let requestLog :=
    {| timestamp := logTime clock; ip := clientIP; imageSize := 0; imageFormat := [];
       model := str "gpt-4o"; openaiResponseTime := None; tokensUsed := None;
       success := false; error := None |} in
  let finish (reply : Response OcrData) (log : RequestLog)
      (store : gmap jsstring RateLimiter.Entry.t) (db : Store.Database)
      (events : list Event) : Handled :=
    {| response := reply;
       server := {| rateLimitStore := store;
                    requestLogs := logRequest log (requestLogs state);
                    database := db |};
       events := events |} in
  (* Rate limiting check *)
  let '(rateLimit, store) :=
    RateLimiter.checkRateLimit (limiterNow clock) clientIP (rateLimitStore state) in
  if negb (RateLimiter.allowed rateLimit) then
    let errorMessage :=
      str "Rate limit exceeded. Maximum "
      ++ numberToString (RateLimiter.remaining rateLimit)
      ++ str " requests per minute. Try again after "
      ++ toISOString (RateLimiter.resetTime rateLimit) in
    finish
      {| status := 429;
         headers :=
           [(str "X-RateLimit-Limit", str "10");
            (str "X-RateLimit-Remaining", str "0");
            (str "X-RateLimit-Reset", numberToString (RateLimiter.resetTime rateLimit));
            (str "Retry-After",
             numberToString
               (Tokens.ceil
                  (inject_Z (RateLimiter.resetTime rateLimit - retryNow clock) / 1000)))];
         body := {| Web.success := false; data := None; Web.error := Some errorMessage;
                    message := None |} |}
      (withError requestLog (str "Rate limit exceeded")) store (database state) []
  else
  (* Parse form data *)
  match formData with
  | Threw _ =>
      finish
        (failure 400 (str "Invalid request format. Expected multipart/form-data."))
        (withError requestLog (str "Invalid form data")) store (database state) []
  | Returned formData =>
  let chosen :=
    match modelField formData with
    | Some text => if truthy text then text else str "gpt-4o"
    | None => str "gpt-4o"
    end in
  (* Validate file exists *)
  match image formData with
  | None | Some (TextValue _) =>
      finish (failure 400 (str "No image file provided"))
        (withError requestLog (str "No image file provided")) store (database state) []
  | Some (FileValue file) =>
  let requestLog := withFile requestLog file chosen in
  (* Validate file size (10MB limit) *)
  if MAX_FILE_SIZE <? size file then
    let megabytes := toFixed2 (inject_Z (size file) / 1024 / 1024) in
    finish
      (failure 400
         (str "File size exceeds limit of "
          ++ numberToString (MAX_FILE_SIZE / 1024 / 1024) ++ str "MB. Received: "
          ++ megabytes ++ str "MB"))
      (withError requestLog (str "File too large: " ++ megabytes ++ str "MB"))
      store (database state) []
  (* Validate image format *)
  else if negb (isValidFormat (type file)) then
    finish
      (failure 400
         (str "Unsupported image format: " ++ type file
          ++ str ". Supported formats: PNG, JPEG, WebP"))
      (withError requestLog (str "Unsupported format: " ++ type file))
      store (database state) []
  (* Additional validation using OpenAI utility *)
  else if negb (validateImageFormat (type file)) then
    finish (failure 400 (str "Invalid image format: " ++ type file))
      (withError requestLog (str "Invalid image format: " ++ type file))
      store (database state) []
  else
  (* Convert file to buffer *)
  match arrayBuffer file with
  | Threw _ =>
      finish (failure 500 (str "Failed to read uploaded file"))
        (withError requestLog (str "Failed to read file")) store (database state) []
  | Returned buffer =>
  (* Estimate tokens before processing *)
  let estimatedTokens := Tokens.estimateTokens (byteLength buffer) None None in
  (* Extract text using OpenAI Vision API *)
  let '(extraction, events) :=
    Extraction.extractTextFromImage upstream (inl buffer) (type file) chosen
      {| maxSize := Some MAX_FILE_SIZE; maxDimension := Some 2048; quality := Some 85 |} in
  let openaiResponseTime := openaiEndTime clock - openaiStartTime clock in
  let requestLog := withResponseTime requestLog openaiResponseTime in
  match extraction with
  | Threw error =>
      finish
        (failure (statusCode error)
           (messageOr (str "Failed to extract text from image") error))
        (withError requestLog (messageOr (str "OpenAI API error") error))
        store (database state) events
  | Returned extractionResult =>
  let requestLog :=
    withTokens requestLog
      (Extraction.promptTokens extractionResult
       + Extraction.completionTokens extractionResult) in
  (* Save to database *)
  let extension :=
    match split (cu "/") (type file) !! 1%nat with
    | Some sub => if truthy sub then sub else str "png"
    | None => str "png"
    end in
  let saved :=
    Documents.create
      {| Documents.Draft.filename :=
           if truthy (name file) then name file
           else str "screenshot-" ++ numberToString (filenameNow clock)
                ++ str "." ++ extension;
         Documents.Draft.extractedText := Extraction.text extractionResult;
         Documents.Draft.language := Extraction.language extractionResult;
         Documents.Draft.confidence := Extraction.confidence extractionResult;
         Documents.Draft.model := Extraction.model extractionResult;
         Documents.Draft.promptTokens := Extraction.promptTokens extractionResult;
         Documents.Draft.completionTokens := Extraction.completionTokens extractionResult;
         Documents.Draft.imageSize := size file;
         Documents.Draft.mimeType := type file;
         Documents.Draft.userId := None |}
      (savedAt clock) generated (database state) in
  match saved with
  | (Threw error, db) =>
      finish (failure 500 (str "Failed to save result to database"))
        (withError requestLog (messageOr (str "Database save failed") error))
        store db events
  | (Returned screenshot, db) =>
      (* Success response *)
      finish
        {| status := 200;
           headers :=
             [(str "X-RateLimit-Limit", str "10");
              (str "X-RateLimit-Remaining",
               numberToString (RateLimiter.remaining rateLimit));
              (str "X-RateLimit-Reset",
               numberToString (RateLimiter.resetTime rateLimit))];
           body :=
             {| Web.success := true;
                data :=
                  Some {| extractedText := Extraction.text extractionResult;
                          confidence := Extraction.confidence extractionResult;
                          language := Extraction.language extractionResult;
                          dataModel := Extraction.model extractionResult;
                          processingTime := endTime clock - startTime clock;
                          _id := Documents.toHexString (Store._id screenshot) |};
                Web.error := None; message := None |} |}
        (succeeded requestLog) store db events
  end end end end end.

End WithRuntime.

End OcrRoute.

(** *** A driver, a request and a server to run the store and the routes against *)

Module Examples.
Import Store Documents.

(** Identifiers print as themselves; a string is valid when [ObjectId]
    accepts it. *)
Definition hexDriver : @Driver hexObjectId :=
  @Build_Driver hexObjectId
    (fun objectId => objectId)
    (fun id => (length id =? 24)%nat && forallb isHexDigit id)
    (fun _ => Error (str "E11000 duplicate key error collection: screenshots index: _id_")).

Definition sampleDraft : Draft.t :=
  {| Draft.filename := str "receipt.png";
     Draft.extractedText := str "TOTAL 12.50";
     Draft.language := str "en";
     Draft.confidence := ofZ 93;
     Draft.model := str "gpt-4o";
     Draft.promptTokens := 870;
     Draft.completionTokens := 9;
     Draft.imageSize := 20480;
     Draft.mimeType := str "image/png";
     Draft.userId := None |}.

(** A log entry of a request that went well. *)
Definition sampleLog : OcrRoute.RequestLog :=
  {| OcrRoute.timestamp := 1700000000000; OcrRoute.ip := str "203.0.113.7";
     OcrRoute.imageSize := 51200; OcrRoute.imageFormat := str "image/png";
     OcrRoute.model := str "gpt-4o"; OcrRoute.openaiResponseTime := Some 1840;
     OcrRoute.tokensUsed := Some 912; OcrRoute.success := true;
     OcrRoute.error := None |}.

(** Stand-ins for the runtime's formatting: the instant in digits, the
    integral part of the number. *)
Definition plainFormats : OcrRoute.Formats :=
  {| OcrRoute.toISOString t := Web.numberToString t;
     OcrRoute.toFixed2 q := Web.numberToString (Qfloor q) |}.

(** A request with a three-byte PNG, from a client known by its
    [x-real-ip], to a server that has seen no request yet. *)
Definition sampleFile : OcrRoute.File :=
  {| OcrRoute.name := str "invoice.png"; OcrRoute.size := 3;
     OcrRoute.type := str "image/png";
     OcrRoute.arrayBuffer := Returned threeBytes |}.

Definition sampleForm : OcrRoute.FormData :=
  {| OcrRoute.image := Some (OcrRoute.FileValue sampleFile);
     OcrRoute.modelField := None |}.

Definition sampleClock : OcrRoute.Clock :=
  {| OcrRoute.startTime := 1700000000000; OcrRoute.logTime := 1700000000000;
     OcrRoute.limiterNow := 1700000000001; OcrRoute.retryNow := 1700000000001;
     OcrRoute.openaiStartTime := 1700000000002;
     OcrRoute.openaiEndTime := 1700000001842;
     OcrRoute.filenameNow := 1700000001843; OcrRoute.savedAt := 1700000001843;
     OcrRoute.endTime := 1700000001850 |}.

Definition sampleHeaders : gmap jsstring jsstring :=
  {[ str "x-real-ip" := str "203.0.113.7" ]}.

Definition sampleServer : @OcrRoute.Server hexObjectId :=
  {| OcrRoute.rateLimitStore := ∅; OcrRoute.requestLogs := [];
     OcrRoute.database := sampleDatabase |}.

(** The same server after ten requests of that client in a window that
    is still open. *)
Definition busyServer : @OcrRoute.Server hexObjectId :=
  {| OcrRoute.rateLimitStore :=
       {[ str "203.0.113.7" :=
            {| RateLimiter.Entry.count := 10;
               RateLimiter.Entry.resetTime := 1700000030000 |} ]};
     OcrRoute.requestLogs := [];
     OcrRoute.database := sampleDatabase |}.

Definition sampleHandled : @OcrRoute.Handled hexObjectId :=
  @OcrRoute.POST (stubPlatform true) hexObjectId hexDriver plainFormats flakyUpstream
    sampleHeaders (Returned sampleForm) sampleClock (str "aaaaaaaaaaaaaaaaaaaaaaaa")
    sampleServer.

End Examples.

(* ================================================================== *)
(** ** Part II. Properties                                             *)
(* ================================================================== *)

(** *** Regular expressions of one character class *)

Lemma execFrom_class (i : bool) (cs : charset) (idx : nat) (s : jsstring) :
  match execFrom {| source := Chr cs; ignoreCase := i |} idx s with
  | Some _ => true
  | None => false
  end = existsb (charsetMatches i cs) s.
Proof.
  revert idx. induction s as [|c s IH]; intros idx; [reflexivity|].
  cbn [execFrom existsb]. unfold matchAt; cbn [matcher source ignoreCase].
  destruct (charsetMatches i cs c); [reflexivity|]. cbn. apply IH.
Qed.

Lemma test_class (i : bool) (cs : charset) (s : jsstring) :
  test {| source := Chr cs; ignoreCase := i |} s = existsb (charsetMatches i cs) s.
Proof. unfold test, exec. apply execFrom_class. Qed.

Lemma existsb_ext_eq {A} (f g : A -> bool) (l : list A) :
  (forall x, f x = g x) -> existsb f l = existsb g l.
Proof. intros E. induction l as [|x l IH]; cbn; [reflexivity|]. by rewrite E, IH. Qed.

Lemma atomMatches_exact (a : atom) (c : Z) : atomMatches false a c = atomMember a c.
Proof. unfold atomMatches. cbn. apply orb_false_r. Qed.

Ltac split_case c :=
  unfold canonicalize, swapCase, isLower, isUpper; cbn [andb];
  destruct (Z.leb_spec 97 c), (Z.leb_spec c 122), (Z.leb_spec 65 c), (Z.leb_spec c 90);
  cbn [andb];
  repeat match goal with
         | |- context [?x <=? ?y] => destruct (Z.leb_spec x y); cbn [andb]
         end.

(** Under ignoreCase a character matches an atom exactly when some member
    of the atom has the same canonical form. *)
Lemma atomMatches_canonical (a : atom) (c : Z) :
  atomMatches true a c = true <->
  exists m, atomMember a m = true /\ canonicalize true m = canonicalize true c.
Proof.
  unfold atomMatches. cbn [andb]. split.
  - intros Hc. apply orb_prop in Hc as [Hc|Hc]; [by exists c|].
    exists (swapCase c). split; [exact Hc|]. split_case c; lia.
  - intros (m & Hm & Hcanon).
    assert (Hcases : m = c \/ m = swapCase c).
    { revert Hcanon. split_case c; lia. }
    destruct Hcases as [->| ->]; rewrite Hm; [reflexivity | apply orb_true_r].
Qed.

Lemma test_ranges (items : list atom) (s : jsstring) :
  test (classTest items) s = existsb (fun c => existsb (fun a => atomMember a c) items) s.
Proof.
  unfold classTest. rewrite test_class. apply existsb_ext_eq. intros c. cbn.
  apply existsb_ext_eq. intros a. apply atomMatches_exact.
Qed.

(** *** Language detection *)

Lemma test_range (lo hi : Z) (s : jsstring) :
  test (classTest [Range lo hi]) s = existsb (between lo hi) s.
Proof.
  rewrite test_ranges. apply existsb_ext_eq. intros c. cbn. apply orb_false_r.
Qed.

Lemma test_range2 (lo hi lo' hi' : Z) (s : jsstring) :
  test (classTest [Range lo hi; Range lo' hi']) s
  = existsb (fun c => between lo hi c || between lo' hi' c) s.
Proof.
  rewrite test_ranges. apply existsb_ext_eq. intros c. cbn. by rewrite orb_false_r.
Qed.

Lemma detectLanguageFromText_firstScript (text : jsstring) :
  detectLanguageFromText text = firstScript text.
Proof.
  unfold detectLanguageFromText, firstScript, scriptOrder.
  rewrite !test_range, test_range2. cbn [find fst snd].
  change (existsb (between 19968 40959) text) with (existsb isCJK text).
  change (existsb (fun c => between 12352 12447 c || between 12448 12543 c) text)
    with (existsb isKana text).
  change (existsb (between 44032 55203) text) with (existsb isHangul text).
  change (existsb (between 1536 1791) text) with (existsb isArabic text).
  change (existsb (between 1024 1279) text) with (existsb isCyrillic text).
  change (existsb (between 3584 3711) text) with (existsb isThai text).
  change (existsb (between 1424 1535) text) with (existsb isHebrew text).
  destruct (existsb isCJK text); [reflexivity|].
  destruct (existsb isKana text); [reflexivity|].
  destruct (existsb isHangul text); [reflexivity|].
  destruct (existsb isArabic text); [reflexivity|].
  destruct (existsb isCyrillic text); [reflexivity|].
  destruct (existsb isThai text); [reflexivity|].
  destruct (existsb isHebrew text); reflexivity.
Qed.

(** C7. The detector returns the code of the first script, in the order CJK,
    Hiragana/Katakana, Hangul, Arabic, Cyrillic, Thai, Hebrew, that has a
    character in the text; a text with a CJK ideograph and a Cyrillic
    letter gives zh; a text with no character of these scripts gives en. *)
Theorem detectLanguage_precedence (text : jsstring) :
  detectLanguageFromText text = firstScript text
  /\ (existsb isCJK text = true -> existsb isCyrillic text = true ->
      detectLanguageFromText text = str "zh")
  /\ ((forall c, c ∈ text ->
         isCJK c || isKana c || isHangul c || isArabic c || isCyrillic c
         || isThai c || isHebrew c = false) ->
      detectLanguageFromText text = str "en").
Proof.
  rewrite detectLanguageFromText_firstScript. split; [reflexivity|]. split.
  - intros Hcjk _. unfold firstScript, scriptOrder. cbn [find fst snd].
    by rewrite Hcjk.
  - intros Hnone. unfold firstScript, scriptOrder. cbn [find fst snd].
    assert (N : forall p : Z -> bool,
              (forall c, c ∈ text -> p c = false) -> existsb p text = false).
    { intros p Hp. destruct (existsb p text) eqn:E; [|reflexivity].
      apply existsb_exists in E as (c & Hin & Hc).
      rewrite Hp in Hc; [discriminate|]. by apply list_elem_of_In. }
    rewrite !N; [reflexivity|..]; intros c Hc; specialize (Hnone c Hc);
      repeat (apply orb_false_elim in Hnone as [Hnone ?]); assumption.
Qed.

Lemma detectLanguage_precedence_witness :
  detectLanguageFromText [0x4e2d; 0x0416] = str "zh"
  /\ detectLanguageFromText (str "plain text") = str "en".
Proof.
  split.
  - apply (proj1 (proj2 (detectLanguage_precedence [0x4e2d; 0x0416])));
      reflexivity.
  - apply (proj2 (proj2 (detectLanguage_precedence (str "plain text")))).
    intros c Hc. apply list_elem_of_In in Hc. cbn in Hc.
    repeat (destruct Hc as [<-|Hc]; [reflexivity|]). destruct Hc.
Defined.

(** *** Confidence estimation *)

Lemma if_points_add (b : bool) (x n : Z) :
  (if b then x + n else x) = x + points b n.
Proof. destruct b; cbn; lia. Qed.

Lemma if_points_sub (b : bool) (x n : Z) :
  (if b then x - n else x) = x - points b n.
Proof. destruct b; cbn; lia. Qed.

Lemma test_letters (s : jsstring) :
  test (classTest [Range (cu "a") (cu "z"); Range (cu "A") (cu "Z")]) s
  = existsb isLetter s.
Proof.
  rewrite test_ranges. apply existsb_ext_eq. intros c. cbn.
  rewrite orb_false_r. apply orb_comm.
Qed.

Lemma test_digit (s : jsstring) :
  test {| source := Chr (Atom Digit); ignoreCase := false |} s = existsb isDigit s.
Proof.
  rewrite test_class. apply existsb_ext_eq. intros c. apply atomMatches_exact.
Qed.

Lemma test_space (s : jsstring) :
  test {| source := Chr (Atom Space); ignoreCase := false |} s = existsb isWhiteSpace s.
Proof.
  rewrite test_class. apply existsb_ext_eq. intros c. apply atomMatches_exact.
Qed.

Lemma test_punctuation (s : jsstring) :
  test (classTest [Single (cu "."); Single (cu ","); Single (cu "!");
                   Single (cu "?"); Single (cu ";"); Single (cu ":")]) s
  = existsb isPunctuation s.
Proof. rewrite test_ranges. apply existsb_ext_eq. intros c. reflexivity. Qed.

Lemma garbled_not_plausible (c : Z) :
  charsetMatches false garbledSet c = negb (isPlausible c).
Proof.
  unfold garbledSet. cbn [charsetMatches]. f_equal.
  rewrite (existsb_ext_eq _ (fun a => atomMember a c))
    by (intros a; apply atomMatches_exact).
  unfold isPlausible. cbn. unfold between. rewrite !orb_assoc. reflexivity.
Qed.

Lemma test_garbled (s : jsstring) :
  test garbledClass s = existsb (fun c => negb (isPlausible c)) s.
Proof.
  unfold garbledClass. rewrite test_class. apply existsb_ext_eq. intros c.
  apply garbled_not_plausible.
Qed.

Lemma estimateConfidence_nonempty (text : jsstring) :
  text <> [] -> estimateConfidence text = Z.min 100 (Z.max 0 (score text)).
Proof.
  intros Hne. unfold estimateConfidence.
  destruct text as [|c text]; [congruence|].
  cbn [truthy negb orb].
  replace (Z.of_nat (length (c :: text)) =? 0) with false
    by (symmetry; apply Z.eqb_neq; cbn [length]; lia).
  cbv zeta. rewrite test_letters, test_digit, test_space, test_punctuation, test_garbled.
  rewrite !if_points_add, if_points_sub. unfold score.
  rewrite (andb_comm (Z.of_nat (length (c :: text)) <? 20)). reflexivity.
Qed.

Lemma estimateConfidence_bounds (text : jsstring) :
  0 <= estimateConfidence text <= 100.
Proof.
  destruct text as [|c text]; [cbn; lia|].
  rewrite estimateConfidence_nonempty by discriminate. lia.
Qed.



(** *** Format validation *)

Lemma subtypes_supported :
  map subtype SUPPORTED_MIME_TYPES
  = [str "png"; str "jpeg"; str "jpg"; str "webp"; str "heic"; str "heif"].
Proof. reflexivity. Qed.

(** C10. The format check accepts a MIME type exactly when its lower-cased
    form contains png, jpeg, jpg, webp, heic or heif somewhere; so it
    accepts application/fake-png and text/webpage, which are not among
    the supported types. *)
Theorem validateImageFormat_substring :
  (forall mimeType,
     validateImageFormat mimeType = true <->
     exists sub,
       sub ∈ [str "png"; str "jpeg"; str "jpg"; str "webp"; str "heic"; str "heif"]
       /\ includes (toLowerCase mimeType) sub = true)
  /\ validateImageFormat (str "application/fake-png") = true
  /\ validateImageFormat (str "text/webpage") = true
  /\ (str "application/fake-png" ∉ SUPPORTED_MIME_TYPES)
  /\ (str "text/webpage" ∉ SUPPORTED_MIME_TYPES).
Proof.
  split; [|repeat split; try reflexivity;
            intros Hin; apply list_elem_of_In in Hin; cbn in Hin;
            repeat (destruct Hin as [Hin|Hin]; [discriminate Hin|]);
            destruct Hin].
  intros mimeType. rewrite <- subtypes_supported. unfold validateImageFormat.
  rewrite existsb_exists. split.
  - intros (type & Hin & Hinc). exists (subtype type). split; [|assumption].
    apply list_elem_of_In, in_map, Hin.
  - intros (sub & Hin & Hinc). apply list_elem_of_In, in_map_iff in Hin.
    destruct Hin as (type & <- & Hin). exists type. by split.
Qed.

(** *** The confidence of a parsed response *)

Lemma parse_confidence_estimated (text : jsstring) :
  exec confidencePattern text = None ->
  isPercentage (Parser.confidence (parseExtractionResponse text)).
Proof.
  intros Hno. unfold parseExtractionResponse. rewrite Hno.
  destruct (exec languagePattern text); cbn [Parser.confidence];
    match goal with |- isPercentage (ofZ (estimateConfidence ?t)) =>
      pose proof (estimateConfidence_bounds t) as [Hlo Hhi] end;
    unfold isPercentage, ofZ; split.
  all: try (change 0%Q with (inject_Z 0); rewrite <- Zle_Qle; assumption).
  all: change 100%Q with (inject_Z 100); rewrite <- Zle_Qle; assumption.
Qed.

(** C1. A response whose CONFIDENCE marker carries 150 is parsed to the
    confidence 150: the number after the marker is taken as it is, and the
    result is outside 0..100. *)
Theorem parse_confidence_unclamped :
  Parser.confidence
    (parseExtractionResponse
       (str "ok" ++ [LF] ++ str "LANGUAGE: en" ++ [LF] ++ str "CONFIDENCE: 150"))
  = Num 150
  /\ ~ isPercentage
         (Parser.confidence
            (parseExtractionResponse
               (str "ok" ++ [LF] ++ str "LANGUAGE: en" ++ [LF] ++ str "CONFIDENCE: 150"))).
Proof.
  split; [reflexivity|]. intros [_ Hhi]. vm_compute in Hhi. apply Hhi. reflexivity.
Qed.

(** *** The rate limiter *)

Section RateLimiterFacts.
Import RateLimiter.

Lemma checkRateLimit_fresh (now : Z) (ip : jsstring) (store : gmap jsstring Entry.t) :
  store !! ip = None ->
  checkRateLimit now ip store
  = ({| allowed := true; remaining := 9; resetTime := now + RATE_LIMIT_WINDOW_MS |},
     <[ip := {| Entry.count := 1; Entry.resetTime := now + RATE_LIMIT_WINDOW_MS |}]> store).
Proof. intros Hnone. unfold checkRateLimit. by rewrite Hnone. Qed.

Lemma checkRateLimit_expired (now : Z) (ip : jsstring)
    (store : gmap jsstring Entry.t) (e : Entry.t) :
  store !! ip = Some e -> Entry.resetTime e < now ->
  checkRateLimit now ip store
  = ({| allowed := true; remaining := 9; resetTime := now + RATE_LIMIT_WINDOW_MS |},
     <[ip := {| Entry.count := 1; Entry.resetTime := now + RATE_LIMIT_WINDOW_MS |}]> store).
Proof.
  intros He Hlt. unfold checkRateLimit. rewrite He.
  destruct (Z.ltb_spec (Entry.resetTime e) now); [reflexivity | lia].
Qed.

Lemma checkRateLimit_admit (now : Z) (ip : jsstring)
    (store : gmap jsstring Entry.t) (k r : Z) :
  store !! ip = Some {| Entry.count := k; Entry.resetTime := r |} ->
  now <= r -> k < RATE_LIMIT_MAX_REQUESTS ->
  checkRateLimit now ip store
  = ({| allowed := true; remaining := RATE_LIMIT_MAX_REQUESTS - (k + 1); resetTime := r |},
     <[ip := {| Entry.count := k + 1; Entry.resetTime := r |}]> store).
Proof.
  intros He Hle Hk. unfold checkRateLimit. rewrite He. cbn [Entry.resetTime Entry.count].
  destruct (Z.ltb_spec r now); [lia|].
  destruct (Z.leb_spec RATE_LIMIT_MAX_REQUESTS k); [lia | reflexivity].
Qed.

Lemma checkRateLimit_reject (now : Z) (ip : jsstring)
    (store : gmap jsstring Entry.t) (k r : Z) :
  store !! ip = Some {| Entry.count := k; Entry.resetTime := r |} ->
  now <= r -> RATE_LIMIT_MAX_REQUESTS <= k ->
  checkRateLimit now ip store
  = ({| allowed := false; remaining := 0; resetTime := r |}, store).
Proof.
  intros He Hle Hk. unfold checkRateLimit. rewrite He. cbn [Entry.resetTime Entry.count].
  destruct (Z.ltb_spec r now); [lia|].
  destruct (Z.leb_spec RATE_LIMIT_MAX_REQUESTS k); [reflexivity | lia].
Qed.

Lemma calls_active (ip : jsstring) (times : list Z) :
  forall (store : gmap jsstring Entry.t) (k r : Z),
    store !! ip = Some {| Entry.count := k; Entry.resetTime := r |} ->
    Forall (fun now => now <= r) times ->
    k + Z.of_nat (length times) <= RATE_LIMIT_MAX_REQUESTS ->
    exists store',
      calls ip times store = (admissions r k (length times), store')
      /\ store' !! ip
         = Some {| Entry.count := k + Z.of_nat (length times); Entry.resetTime := r |}.
Proof.
  induction times as [|now later IH]; intros store k r He Hall Hk.
  - exists store. cbn. split; [reflexivity|]. rewrite He. do 2 f_equal. lia.
  - inversion Hall as [|? ? Hnow Hlater]; subst. cbn [length] in Hk.
    cbn [calls]. rewrite (checkRateLimit_admit now ip store k r) by (assumption || lia).
    destruct (IH (<[ip := {| Entry.count := k + 1; Entry.resetTime := r |}]> store)
                (k + 1) r) as (store' & Hcalls & Hstore');
      [apply lookup_insert_eq | assumption | lia |].
    exists store'. rewrite Hcalls. split; [reflexivity|].
    rewrite Hstore'. do 2 f_equal. cbn [length]. lia.
Qed.

(** A request of another identity leaves this identity's entry alone. *)
Lemma checkRateLimit_other (now : Z) (ip other : jsstring)
    (store : gmap jsstring Entry.t) :
  other <> ip -> (checkRateLimit now other store).2 !! ip = store !! ip.
Proof.
  intros Hne. unfold checkRateLimit.
  destruct (store !! other) as [e|]; cbn;
    repeat (match goal with |- context [if ?b then _ else _] => destruct b end; cbn);
    rewrite ?lookup_insert_ne by assumption; reflexivity.
Qed.

(** At the very instant of the reset the window still counts as open. *)
Lemma checkRateLimit_at_reset (ip : jsstring) (store : gmap jsstring Entry.t) (r : Z) :
  store !! ip = Some {| Entry.count := RATE_LIMIT_MAX_REQUESTS; Entry.resetTime := r |} ->
  checkRateLimit r ip store
  = ({| allowed := false; remaining := 0; resetTime := r |}, store).
Proof. intros He. apply (checkRateLimit_reject r ip store _ r He); lia. Qed.

(** C4. Window 60 s, at most 10 requests.  From no entry, a first call at
    [t1] and nine more before [t1 + 60000] are all allowed with remaining
    9, 8, ..., 0; an eleventh call before [t1 + 60000] is refused with
    remaining 0 and a reset time [t1 + 60000] still ahead, and changes
    nothing; a call after [t1 + 60000] is allowed afresh with remaining 9. *)
Theorem checkRateLimit_fixed_window (ip : jsstring) (store : gmap jsstring Entry.t)
    (t1 : Z) (ts : list Z) (t11 tlate : Z) :
  store !! ip = None ->
  length ts = 9%nat ->
  Forall (fun now => now < t1 + RATE_LIMIT_WINDOW_MS) ts ->
  t11 < t1 + RATE_LIMIT_WINDOW_MS ->
  t1 + RATE_LIMIT_WINDOW_MS < tlate ->
  exists verdicts store10,
    calls ip (t1 :: ts) store = (verdicts, store10)
    /\ map allowed verdicts = repeat true 10
    /\ map remaining verdicts = [9; 8; 7; 6; 5; 4; 3; 2; 1; 0]
    /\ checkRateLimit t11 ip store10
       = ({| allowed := false; remaining := 0;
             resetTime := t1 + RATE_LIMIT_WINDOW_MS |}, store10)
    /\ t11 < resetTime (checkRateLimit t11 ip store10).1
    /\ (checkRateLimit tlate ip store10).1
       = {| allowed := true; remaining := 9;
            resetTime := tlate + RATE_LIMIT_WINDOW_MS |}.
Proof.
  intros Hnone Hlen Hts H11 Hlate.
  set (r := t1 + RATE_LIMIT_WINDOW_MS) in *.
  destruct (calls_active ip ts
              (<[ip := {| Entry.count := 1; Entry.resetTime := r |}]> store) 1 r)
    as (store10 & Hcalls & Hstore10).
  { apply lookup_insert_eq. }
  { eapply Forall_impl; [exact Hts|]. cbn. intros; lia. }
  { rewrite Hlen. unfold RATE_LIMIT_MAX_REQUESTS. lia. }
  rewrite Hlen in Hcalls, Hstore10.
  exists ({| allowed := true; remaining := 9; resetTime := r |} :: admissions r 1 9),
    store10.
  assert (Hrej : checkRateLimit t11 ip store10
                 = ({| allowed := false; remaining := 0; resetTime := r |}, store10)).
  { apply (checkRateLimit_reject t11 ip store10 (1 + Z.of_nat 9) r);
      [assumption | lia | unfold RATE_LIMIT_MAX_REQUESTS; lia]. }
  split; [|split; [|split; [|split; [|split]]]].
  - cbn [calls]. rewrite (checkRateLimit_fresh t1 ip store Hnone). fold r.
    by rewrite Hcalls.
  - reflexivity.
  - reflexivity.
  - exact Hrej.
  - rewrite Hrej. cbn. lia.
  - erewrite checkRateLimit_expired; [reflexivity | exact Hstore10 | cbn; lia].
Qed.

Lemma checkRateLimit_fixed_window_witness :
  exists verdicts store10,
    calls (str "10.0.0.1") [0; 1; 2; 3; 4; 5; 6; 7; 8; 9] ∅ = (verdicts, store10)
    /\ map remaining verdicts = [9; 8; 7; 6; 5; 4; 3; 2; 1; 0]
    /\ (checkRateLimit 59999 (str "10.0.0.1") store10).1
       = {| allowed := false; remaining := 0; resetTime := 60000 |}
    /\ (checkRateLimit 60001 (str "10.0.0.1") store10).1
       = {| allowed := true; remaining := 9; resetTime := 120001 |}.
Proof.
  destruct (checkRateLimit_fixed_window (str "10.0.0.1") ∅ 0
              [1; 2; 3; 4; 5; 6; 7; 8; 9] 59999 60001)
    as (verdicts & store10 & Hcalls & _ & Hrem & Hrej & _ & Hlate).
  - apply lookup_empty.
  - reflexivity.
  - repeat constructor.
  - reflexivity.
  - reflexivity.
  - exists verdicts, store10. rewrite Hrej. repeat split; assumption.
Defined.

End RateLimiterFacts.

(** *** The store adapter *)

Section StoreFacts.
Import Store.
Context `{Bson}.

Lemma deleteOne_absent (objectId : ObjectId) (docs : list Screenshot) :
  (forall d, d ∈ docs -> _id d <> objectId) ->
  deleteOne objectId docs = (0, docs).
Proof.
  induction docs as [|d docs IH]; intros Habsent; [reflexivity|].
  cbn [deleteOne]. destruct (decide (_id d = objectId)) as [Heq|_].
  - exfalso. apply (Habsent d); [left | assumption].
  - rewrite IH; [reflexivity|]. intros d' Hin. apply Habsent. by right.
Qed.

(** C9. With the collection at hand, deleting by an identifier string that
    [ObjectId] rejects, or by a well-formed one that no stored document
    carries, returns false without throwing and leaves the collection as
    it was; [deleteById] of the model is the same call. *)
Theorem deleteScreenshot_not_found (id : jsstring) (db : Database) :
  connection db = Returned tt ->
  (forall e, newObjectId id = Threw e ->
     deleteScreenshot id db = (Returned false, db))
  /\ (forall objectId,
        newObjectId id = Returned objectId ->
        (forall d, d ∈ screenshots db -> _id d <> objectId) ->
        deleteScreenshot id db = (Returned false, db))
  /\ deleteById id db = deleteScreenshot id db.
Proof.
  intros Hconn. split; [|split; [|reflexivity]].
  - intros e He. unfold deleteScreenshot, getCollection. by rewrite Hconn, He.
  - intros objectId Hid Habsent. destruct db as [conn docs].
    cbn [connection screenshots] in Hconn, Habsent. subst conn.
    unfold deleteScreenshot, getCollection. cbn [connection screenshots].
    by rewrite Hid, (deleteOne_absent objectId _ Habsent).
Qed.

End StoreFacts.

Lemma deleteScreenshot_not_found_witness :
  @Store.deleteScreenshot Store.hexObjectId (str "not-an-object-id") sampleDatabase
  = (Returned false, sampleDatabase)
  /\ @Store.deleteScreenshot Store.hexObjectId (str "ffffffffffffffffffffffff") sampleDatabase
     = (Returned false, sampleDatabase).
Proof.
  split.
  - eapply (proj1 (@deleteScreenshot_not_found Store.hexObjectId
                     (str "not-an-object-id") sampleDatabase eq_refl)).
    reflexivity.
  - eapply (proj1 (proj2 (@deleteScreenshot_not_found Store.hexObjectId
                            (str "ffffffffffffffffffffffff") sampleDatabase eq_refl))).
    + reflexivity.
    + intros d Hd. apply list_elem_of_In in Hd. cbn in Hd.
      destruct Hd as [<-|[]]. discriminate.
Defined.

(** *** Runs: what is logged and what is thrown *)

Ltac unmonad := unfold mbind, run_bind, mret, run_ret in *.

Lemma faithful_ret {A} (a : A) : faithful (ret a).
Proof. reflexivity. Qed.

Lemma faithful_perform {A} (c : sharpCall) (o : outcome A) : faithful (perform c o).
Proof. unfold faithful, perform. cbn. by rewrite orb_false_r. Qed.

Lemma faithful_bind {A B} (m : Run A) (f : A -> Run B) :
  faithful m -> (forall a, faithful (f a)) -> faithful (bind m f).
Proof.
  unfold faithful. destruct m as [[a|e] l1]; cbn; intros Hm Hf.
  - specialize (Hf a). destruct (f a) as [r l2]. cbn in *.
    rewrite existsb_app, <- Hm. exact Hf.
  - exact Hm.
Qed.

Lemma quiet_ret {A} (a : A) : quiet (ret a).
Proof. reflexivity. Qed.

Lemma quiet_perform {A} (c : sharpCall) (o : outcome A) : quiet (perform c o).
Proof. reflexivity. Qed.

Lemma quiet_bind {A B} (m : Run A) (f : A -> Run B) :
  quiet m -> (forall a, quiet (f a)) -> quiet (bind m f).
Proof.
  unfold quiet. destruct m as [[a|e] l1]; cbn; intros Hm Hf; [|exact Hm].
  specialize (Hf a). destruct (f a) as [r l2]. cbn in *.
  rewrite forallb_app. by rewrite Hm, Hf.
Qed.

Lemma quiet_tryCatch {A} (m : Run A) (h : thrown -> Run A) :
  quiet m -> (forall e, quiet (h e)) -> quiet (tryCatch m h).
Proof.
  unfold quiet. destruct m as [[a|e] l1]; cbn; intros Hm Hh; [exact Hm|].
  specialize (Hh e). destruct (h e) as [r l2]. cbn in *.
  rewrite forallb_app. by rewrite Hm, Hh.
Qed.

Lemma network_quiet {A} (m : Run A) : quiet m -> network m.2 = [].
Proof.
  unfold quiet, network. induction (m.2) as [|ev l IH]; cbn; [reflexivity|].
  intros Hq. apply andb_prop in Hq as [Hev Hl].
  destruct (isNetworkEvent ev); [discriminate|]. by apply IH.
Qed.

Ltac structural lemma_ret lemma_perform lemma_bind :=
  repeat first
    [ apply lemma_ret
    | apply lemma_perform
    | apply lemma_bind; [|intros ?]
    | match goal with
      | |- _ (if ?c then _ else _) => destruct c
      | |- _ (let '(_, _) := ?p in _) => destruct p
      end
    | progress unfold sharp, configure, readMetadata, toBuffer
    | progress cbv zeta ].

(** *** The image normalizer *)

Section NormalizerFacts.
Context `{Platform}.

Lemma compressImageIfNeeded_quiet (buffer : Buffer) (mimeType : jsstring)
    (options : ImageProcessingOptions) :
  quiet (compressImageIfNeeded buffer mimeType options).
Proof.
  unfold compressImageIfNeeded. unmonad. cbv zeta.
  apply quiet_bind.
  - destruct (_ <=? _); [|apply quiet_ret].
    apply quiet_tryCatch; [|intros; apply quiet_ret].
    structural (@quiet_ret) (@quiet_perform) (@quiet_bind).
  - intros [result|]; [apply quiet_ret|].
    apply quiet_tryCatch; [|intros; apply quiet_ret].
    structural (@quiet_ret) (@quiet_perform) (@quiet_bind).
Qed.

Lemma tryCatch_returns {A} (m : Run A) (fallback : A) :
  exists a, (tryCatch m (fun _ => ret fallback)).1 = Returned a.
Proof. destruct m as [[a|e] l]; cbn; eauto. Qed.

Lemma compressImageIfNeeded_returns (buffer : Buffer) (mimeType : jsstring)
    (options : ImageProcessingOptions) :
  exists result, (compressImageIfNeeded buffer mimeType options).1 = Returned result.
Proof.
  unfold compressImageIfNeeded. unmonad. cbv zeta.
  match goal with
  | |- context [bind ?first ?next] =>
      assert (Hfirst : exists early, first.1 = Returned early);
      [|destruct Hfirst as [early Hfirst]; destruct first as [r l];
        cbn [fst] in Hfirst; subst r; cbn [bind]]
  end.
  - destruct (_ <=? _); [apply tryCatch_returns | by eexists].
  - destruct early as [result|]; [by eexists|].
    match goal with
    | |- context [tryCatch ?body (fun _ => ret ?x)] =>
        destruct (tryCatch_returns body x) as [a Ha];
        destruct (tryCatch body (fun _ => ret x)) as [r' l']
    end.
    cbn [fst] in Ha. subst r'. by eexists.
Qed.

(** C5. [compressImageIfNeeded] always returns, and whenever a call of the
    image library threw during the run it returns the buffer and the MIME
    type it was given, with no dimensions. *)
Theorem compressImageIfNeeded_fallback (buffer : Buffer) (mimeType : jsstring)
    (options : ImageProcessingOptions) :
  (exists result, (compressImageIfNeeded buffer mimeType options).1 = Returned result)
  /\ (existsb threwEvent (compressImageIfNeeded buffer mimeType options).2 = true ->
      (compressImageIfNeeded buffer mimeType options).1
      = Returned {| Images.buffer := buffer; Images.mimeType := mimeType;
                    outWidth := None; outHeight := None |}).
Proof.
  unfold compressImageIfNeeded. unmonad. cbv zeta.
  match goal with
  | |- context [bind (if ?c then tryCatch ?b1 ?h1 else _)
                  (fun early => match early with
                                | Some _ => _
                                | None => tryCatch ?b2 ?h2
                                end)] =>
      assert (F1 : faithful b1)
        by structural (@faithful_ret) (@faithful_perform) (@faithful_bind);
      assert (F2 : faithful b2)
        by structural (@faithful_ret) (@faithful_perform) (@faithful_bind);
      destruct c; destruct b1 as [[[r1|]|e1] l1]; destruct b2 as [[r2|e2] l2]
  end;
    unfold faithful in F1, F2; cbn in F1, F2 |- *;
    rewrite ?app_nil_r, ?existsb_app, <- ?F1, <- ?F2; cbn;
    (split; [eexists; reflexivity | intros Hthrew; (discriminate || reflexivity)]).
Qed.

End NormalizerFacts.

(** *** The retry loop *)

Section OrchestratorFacts.
Import Extraction.
Context `{Platform}.
Variable upstream : nat -> ChatRequest -> outcome ChatCompletion.

Lemma handleApiError_terminal (error : thrown) :
  (hasStatus error 401 = true ->
   handleApiError error 0 = str "Invalid OpenAI API key. Please check your configuration.")
  /\ (hasStatus error 402 = true ->
      handleApiError error 0 = str "Insufficient OpenAI API quota. Please check your account.")
  /\ (hasStatus error 404 = true ->
      handleApiError error 0 = str "OpenAI model not found. Please check the model name.").
Proof.
  destruct error as [[s|] h m|m|r]; unfold hasStatus, handleApiError; cbn [statusOf];
    repeat split; intros Hs; try discriminate Hs;
    apply Z.eqb_eq in Hs; subst s; reflexivity.
Qed.

Lemma attemptLoop_terminal (request : ChatRequest) (remaining attempt : nat)
    (lastError : option thrown) (e : thrown) :
  upstream attempt request = Threw e -> isTerminal e = true ->
  attemptLoop upstream request (S remaining) attempt lastError
  = (Threw (Error (handleApiError e 0)), [ApiCall attempt]).
Proof.
  intros Hup Hterm. cbn [attemptLoop]. unmonad. rewrite Hup.
  unfold isTerminal in Hterm. rewrite Hterm. reflexivity.
Qed.

Lemma attemptLoop_success (request : ChatRequest) (remaining attempt : nat)
    (lastError : option thrown) (response : ChatCompletion) :
  upstream attempt request = Returned response ->
  attemptLoop upstream request (S remaining) attempt lastError
  = (Returned (resultOf response), [ApiCall attempt]).
Proof. intros Hup. cbn [attemptLoop]. unmonad. by rewrite Hup. Qed.

Lemma attemptLoop_retry (request : ChatRequest) (remaining attempt : nat)
    (lastError : option thrown) (e : thrown) :
  upstream attempt request = Threw e -> isTerminal e = false ->
  (attempt < maxRetries - 1)%nat ->
  attemptLoop upstream request (S remaining) attempt lastError
  = bind (Returned tt, [ApiCall attempt; Sleep (backoff attempt e)])
      (fun _ => attemptLoop upstream request remaining (S attempt) (Some (asError e))).
Proof.
  intros Hup Hterm Hlt. cbn [attemptLoop]. unmonad. rewrite Hup.
  unfold isTerminal in Hterm. rewrite Hterm. unfold backoff.
  replace (attempt <? maxRetries - 1)%nat with true
    by (symmetry; apply Nat.ltb_lt; exact Hlt).
  replace (attempt =? maxRetries - 1)%nat with false
    by (symmetry; apply Nat.eqb_neq; lia).
  rewrite andb_true_r.
  destruct (hasStatus e 429); cbn [andb];
    [destruct (truthy (retryAfterOf e))|];
    unfold bind, emit;
    destruct (attemptLoop upstream request remaining (S attempt) (Some (asError e)));
    reflexivity.
Qed.

Lemma extractTextFromImage_loop (imageBuffer : Buffer + jsstring)
    (mimeType model : jsstring) (options : ImageProcessingOptions) :
  validateImageFormat mimeType = true ->
  exists request before,
    network before = []
    /\ extractTextFromImage upstream imageBuffer mimeType model options
       = ((attemptLoop upstream request maxRetries 0 None).1,
          before ++ (attemptLoop upstream request maxRetries 0 None).2).
Proof.
  intros Hvalid. unfold extractTextFromImage. rewrite Hvalid. cbn [negb]. unmonad.
  set (buffer := match imageBuffer with inl b => b | inr s => bufferFromBase64 s end).
  pose proof (compressImageIfNeeded_quiet buffer mimeType options) as Hq.
  destruct (compressImageIfNeeded_returns buffer mimeType options) as [res Hres].
  destruct (compressImageIfNeeded buffer mimeType options) as [r l]. cbn in Hres. subst r.
  cbn [tryCatch bind].
  match goal with
  | |- context [attemptLoop upstream ?request _ _ _] => exists request, l
  end.
  split; [exact (network_quiet _ Hq)|].
  destruct (attemptLoop _ _ _ _ _). reflexivity.
Qed.

Lemma network_app (l1 l2 : list Event) : network (l1 ++ l2) = network l1 ++ network l2.
Proof. unfold network. induction l1 as [|[] l1 IH]; cbn; by rewrite ?IH. Qed.

(** C3. An extraction of an image of a supported type.  If the first call
    to the model fails with status 401, 402 or 404, that call is the only
    one, nothing is waited for, and the extraction fails with the message of
    [handleApiError] for that error (the text about the key, the quota or
    the model).  If the first two calls fail with other errors and the
    third succeeds, the result of the third is returned after three calls
    with one delay after each failure. *)
Theorem extractTextFromImage_retry_policy (imageBuffer : Buffer + jsstring)
    (mimeType model : jsstring) (options : ImageProcessingOptions) :
  validateImageFormat mimeType = true ->
  (forall e,
     (forall request, upstream 0 request = Threw e) -> isTerminal e = true ->
     (extractTextFromImage upstream imageBuffer mimeType model options).1
     = Threw (Error (handleApiError e 0))
     /\ network (extractTextFromImage upstream imageBuffer mimeType model options).2
        = [ApiCall 0]
     /\ (hasStatus e 401 = true -> handleApiError e 0
           = str "Invalid OpenAI API key. Please check your configuration.")
     /\ (hasStatus e 402 = true -> handleApiError e 0
           = str "Insufficient OpenAI API quota. Please check your account.")
     /\ (hasStatus e 404 = true -> handleApiError e 0
           = str "OpenAI model not found. Please check the model name."))
  /\ (forall e0 e1 response,
        (forall request, upstream 0 request = Threw e0) ->
        (forall request, upstream 1 request = Threw e1) ->
        (forall request, upstream 2 request = Returned response) ->
        isTerminal e0 = false -> isTerminal e1 = false ->
        (extractTextFromImage upstream imageBuffer mimeType model options).1
        = Returned (resultOf response)
        /\ network (extractTextFromImage upstream imageBuffer mimeType model options).2
           = [ApiCall 0; Sleep (backoff 0 e0); ApiCall 1; Sleep (backoff 1 e1);
              ApiCall 2]).
Proof.
  intros Hvalid.
  destruct (extractTextFromImage_loop imageBuffer mimeType model options Hvalid)
    as (request & before & Hbefore & ->).
  cbn [fst snd]. rewrite network_app, Hbefore. cbn [app]. unfold maxRetries. split.
  - intros e Hup Hterm.
    rewrite (attemptLoop_terminal request _ 0 None e (Hup request) Hterm).
    split; [reflexivity|]. split; [reflexivity|]. apply handleApiError_terminal.
  - intros e0 e1 response Hup0 Hup1 Hup2 Ht0 Ht1.
    rewrite (attemptLoop_retry request _ 0 None e0 (Hup0 request) Ht0)
      by (unfold maxRetries; lia).
    rewrite (attemptLoop_retry request _ 1 _ e1 (Hup1 request) Ht1)
      by (unfold maxRetries; lia).
    rewrite (attemptLoop_success request _ 2 _ response (Hup2 request)).
    split; reflexivity.
Qed.

End OrchestratorFacts.

Lemma extractTextFromImage_retry_policy_witness :
  ((@Extraction.extractTextFromImage (stubPlatform true) unauthorizedUpstream
      (inl threeBytes) (str "image/png") (str "gpt-4o") noOptions).1
   = Threw (Error (str "Invalid OpenAI API key. Please check your configuration."))
   /\ network (@Extraction.extractTextFromImage (stubPlatform true) unauthorizedUpstream
                 (inl threeBytes) (str "image/png") (str "gpt-4o") noOptions).2
      = [ApiCall 0])
  /\ ((@Extraction.extractTextFromImage (stubPlatform true) flakyUpstream
         (inl threeBytes) (str "image/png") (str "gpt-4o") noOptions).1
      = Returned (Extraction.resultOf invoiceResponse)
      /\ network (@Extraction.extractTextFromImage (stubPlatform true) flakyUpstream
                    (inl threeBytes) (str "image/png") (str "gpt-4o") noOptions).2
         = [ApiCall 0; Sleep (ofZ 1000); ApiCall 1; Sleep (ofZ 2000); ApiCall 2]).
Proof.
  split.
  - destruct (proj1 (@extractTextFromImage_retry_policy (stubPlatform true)
                       unauthorizedUpstream (inl threeBytes) (str "image/png")
                       (str "gpt-4o") noOptions eq_refl)
                (APIError (Some 401) None (str "Incorrect API key provided"))
                (fun _ => eq_refl) eq_refl) as (Hres & Hlog & _).
    split; [exact Hres | exact Hlog].
  - exact (proj2 (@extractTextFromImage_retry_policy (stubPlatform true)
                    flakyUpstream (inl threeBytes) (str "image/png")
                    (str "gpt-4o") noOptions eq_refl)
             (APIError (Some 503) None (str "Service Unavailable"))
             (APIError (Some 503) None (str "Service Unavailable"))
             invoiceResponse (fun _ => eq_refl) (fun _ => eq_refl)
             (fun _ => eq_refl) eq_refl eq_refl).
Defined.

Lemma compressImageIfNeeded_fallback_witness :
  @compressImageIfNeeded (stubPlatform false) threeBytes (str "image/png") noOptions
  = (Returned {| Images.buffer := threeBytes; Images.mimeType := str "image/png";
                 outWidth := None; outHeight := None |},
     [SharpCall (Construct threeBytes) false;
      SharpCall (ReadMetadata {| input := threeBytes; ops := [] |}) true]).
Proof.
  pose proof (proj2 (@compressImageIfNeeded_fallback (stubPlatform false)
                       threeBytes (str "image/png") noOptions) eq_refl) as Hres.
  destruct (@compressImageIfNeeded (stubPlatform false) threeBytes
              (str "image/png") noOptions) as [r l] eqn:Hrun.
  cbn [fst] in Hres. subst r. f_equal.
  apply (f_equal snd) in Hrun. cbn [snd] in Hrun. rewrite <- Hrun. reflexivity.
Defined.

(** *** The second compression pass *)

Lemma strictEq_refl (s : jsstring) : strictEq s s = true.
Proof. unfold strictEq. by apply bool_decide_eq_true_2. Qed.

(** What the evaluation of a run waits for: the outcome of a library call
    or a condition. *)
Ltac scrutinee t :=
  lazymatch t with
  | (_, _) => fail "settled"
  | match ?m with (_, _) => _ end => scrutinee m
  | match ?m with Returned _ => _ | Threw _ => _ end => scrutinee m
  | match ?m with Some _ => _ | None => _ end => scrutinee m
  | if ?c then _ else _ => scrutinee c
  | _ => t
  end.

Ltac exec_in H :=
  repeat (
    cbv beta iota zeta delta
      [bind tryCatch perform ret emit throw sharp configure readMetadata toBuffer
       isThrow mbind run_bind mret run_ret app input ops] in H;
    rewrite ?strictEq_refl, ?orb_true_l, ?andb_false_r in H;
    lazymatch type of H with
    | ?lhs = _ => let s := scrutinee lhs in destruct s eqn:?
    end).

Section SecondPass.
Context `{Platform}.

(** C6. On a run in which no call of the image library throws: when the
    first encoding gives a buffer longer than [maxSize] and the quality is
    above 50, exactly one more encoding follows, of the given buffer
    resized to [maxDimension] at quality [max 50 (quality - 20)] (JPEG or
    WebP), and its output is the buffer returned.  On every run: with a
    quality of 50 or less there is at most one encoding. *)
Theorem compressImageIfNeeded_second_pass (buffer : Buffer) (mimeType : jsstring)
    (options : ImageProcessingOptions) :
  let maxSize := orElse (maxSize options) MAX_IMAGE_SIZE in
  let maxDimension := orElse (maxDimension options) MAX_IMAGE_DIMENSION in
  let quality := orElse (quality options) 85 in
  let run := compressImageIfNeeded buffer mimeType options in
  (forall first later b1,
     existsb threwEvent run.2 = false ->
     encodings run.2 = first :: later ->
     sharpToBuffer first = Returned b1 ->
     maxSize < byteLength b1 -> 50 < quality ->
     exists encoder b2 result,
       (encoder = Jpeg \/ encoder = Webp)
       /\ later = [{| input := buffer;
                      ops := [Resize maxDimension maxDimension;
                              encoder (Z.max 50 (quality - 20))] |}]
       /\ sharpToBuffer {| input := buffer;
                           ops := [Resize maxDimension maxDimension;
                                   encoder (Z.max 50 (quality - 20))] |}
          = Returned b2
       /\ run.1 = Returned result
       /\ Images.buffer result = b2)
  /\ (quality <= 50 -> (length (encodings run.2) <= 1)%nat).
Proof.
  unfold compressImageIfNeeded. unmonad. cbv zeta.
  generalize (orElse (maxSize options) MAX_IMAGE_SIZE) as ms.
  generalize (orElse (maxDimension options) MAX_IMAGE_DIMENSION) as md.
  generalize (orElse (quality options) 85) as q.
  intros q md ms. split.
  - intros first later b1 Hclean Henc Hb1 Hsize Hq.
    match type of Hclean with
    | existsb threwEvent (?m).2 = false => destruct m as [r log] eqn:Hrun
    end.
    cbn [fst snd] in *.
    exec_in Hrun.
    all: injection Hrun as <- <-.
    all: cbn in Hclean; try discriminate Hclean.
    all: cbn in Henc; try discriminate Henc.
    all: injection Henc as <- <-.
    all: match goal with
         | E : sharpToBuffer ?i = Returned ?x |- _ =>
             rewrite Hb1 in E; injection E as <-
         end.
    all: try match goal with
             | E : _ && _ = false |- _ =>
                 apply andb_false_iff in E as [E|E]; apply Z.ltb_ge in E; lia
             end.
    all: first
           [ exists Jpeg; do 2 eexists; split; [left; reflexivity|];
             split; [reflexivity|]; split; [eassumption|]; split; reflexivity
           | exists Webp; do 2 eexists; split; [right; reflexivity|];
             split; [reflexivity|]; split; [eassumption|]; split; reflexivity ].
  - intros Hq.
    assert (Hq' : (50 <? q) = false) by (apply Z.ltb_ge; exact Hq).
    rewrite Hq'.
    match goal with
    | |- (length (encodings (?m).2) <= 1)%nat => destruct m as [r log] eqn:Hrun
    end.
    cbn [fst snd] in *.
    exec_in Hrun.
    all: try discriminate.
    all: injection Hrun as <- <-; cbn; lia.
Qed.

End SecondPass.

Lemma compressImageIfNeeded_second_pass_witness :
  exists result,
    (@compressImageIfNeeded (stubPlatform true) threeBytes (str "image/jpeg")
       tightOptions).1 = Returned result
    /\ Images.buffer result = [Byte.x00]
    /\ encodings (@compressImageIfNeeded (stubPlatform true) threeBytes
                    (str "image/jpeg") tightOptions).2
       = [{| input := threeBytes; ops := [Resize 2048 2048; Jpeg 85] |};
          {| input := threeBytes; ops := [Resize 2048 2048; Jpeg 65] |}].
Proof.
  destruct (proj1 (@compressImageIfNeeded_second_pass (stubPlatform true)
                     threeBytes (str "image/jpeg") tightOptions)
              {| input := threeBytes; ops := [Resize 2048 2048; Jpeg 85] |}
              [{| input := threeBytes; ops := [Resize 2048 2048; Jpeg 65] |}]
              threeBytes eq_refl eq_refl eq_refl eq_refl eq_refl)
    as (encoder & b2 & result & Hencoder & Hlater & Hb2 & Hres & Hbuf).
  exists result. split; [exact Hres|]. split; [|reflexivity].
  rewrite Hbuf. destruct Hencoder as [-> | ->]; [|discriminate Hlater].
  vm_compute in Hb2. congruence.
Defined.

(** *** Matching a label and the run of characters after it *)

Lemma lit_litOf (s : string) : lit s = litOf (str s).
Proof. reflexivity. Qed.

Lemma matcher_litOf {R} (l s : jsstring) (cap : option jsstring)
    (k : jsstring -> option jsstring -> option R) :
  matcher true (litOf l) s cap k
  = if startsWithI l s then k (drop (length l) s) cap else None.
Proof.
  revert s. induction l as [|a l IH]; intros s; [reflexivity|].
  cbn [litOf fold_right matcher]. destruct s as [|c s]; [reflexivity|].
  cbn [startsWithI length drop]. fold (sameIgnoringCase a c).
  destruct (sameIgnoringCase a c); [|reflexivity]. apply IH.
Qed.

Lemma startsWithI_length (l s : jsstring) :
  startsWithI l s = true -> (length l <= length s)%nat.
Proof.
  revert s. induction l as [|a l IH]; intros [|c s] Hs; cbn in *; try lia; try discriminate.
  apply andb_prop in Hs as [_ Hs]. apply IH in Hs. lia.
Qed.

Lemma startsWithI_app (l s t : jsstring) :
  startsWithI l s = true -> startsWithI l (s ++ t) = true.
Proof.
  revert s. induction l as [|a l IH]; intros [|c s] Hs; cbn in *; try reflexivity;
    try discriminate.
  apply andb_prop in Hs as [Hc Hs]. by rewrite Hc, (IH s Hs).
Qed.

Lemma startsWithI_before (l b : jsstring) (c0 : Z) (rest : jsstring) :
  foreignTo l c0 ->
  startsWithI l (b ++ c0 :: rest) = true -> startsWithI l b = true.
Proof.
  unfold foreignTo. revert b. induction l as [|a l IH]; intros b Hf Hs; [reflexivity|].
  cbn in Hf. apply andb_prop in Hf as [Ha Hf].
  destruct b as [|c b]; cbn in Hs |- *.
  - apply negb_true_iff in Ha. rewrite Ha in Hs. discriminate.
  - apply andb_prop in Hs as [Hc Hs]. rewrite Hc. cbn. by apply IH.
Qed.

Lemma occursI_app_l (l s t : jsstring) :
  occursI l (s ++ t) = false -> occursI l s = false.
Proof.
  induction s as [|c s IH]; cbn [app]; intros Hs.
  - destruct l; [destruct t; discriminate Hs | reflexivity].
  - cbn [occursI] in Hs |- *. apply orb_false_elim in Hs as [Hhead Htail].
    rewrite (IH Htail), orb_false_r.
    destruct (startsWithI l (c :: s)) eqn:E; [|reflexivity].
    apply (startsWithI_app _ _ t) in E. cbn [app] in E. congruence.
Qed.

Lemma occursI_drop (l s : jsstring) (n : nat) :
  occursI l s = false -> occursI l (drop n s) = false.
Proof.
  revert s. induction n as [|n IH]; intros s Hs; [by rewrite drop_0|].
  destruct s as [|c s]; [exact Hs|]. cbn [drop]. apply IH.
  cbn in Hs. by apply orb_false_elim in Hs as [_ Hs].
Qed.

Lemma occursI_sep (l b : jsstring) (c0 : Z) (rest : jsstring) :
  l <> [] -> foreignTo l c0 ->
  occursI l (b ++ c0 :: rest) = occursI l b || occursI l rest.
Proof.
  intros Hl Hf. induction b as [|c b IH].
  - cbn [app occursI].
    replace (startsWithI l []) with false by (destruct l; [congruence | reflexivity]).
    destruct (startsWithI l (c0 :: rest)) eqn:E; [|reflexivity].
    apply (startsWithI_before l [] c0 rest Hf) in E.
    destruct l; [congruence | discriminate E].
  - cbn [app occursI]. rewrite IH, orb_assoc. f_equal. f_equal.
    destruct (startsWithI l (c :: b ++ c0 :: rest)) eqn:E.
    + symmetry. exact (startsWithI_before l (c :: b) c0 rest Hf E).
    + destruct (startsWithI l (c :: b)) eqn:E'; [|reflexivity].
      apply (startsWithI_app _ _ (c0 :: rest)) in E'. cbn [app] in E'. congruence.
Qed.

(** The maximal run of characters of a class, followed by what the
    continuation accepts. *)
Lemma repeatMatcher_run {R} (ok : Z -> bool) (k : jsstring -> option R) (r : R)
    (run rest : jsstring) :
  forall (lo : nat) (hi : option nat),
    forallb ok run = true ->
    (lo <= length run)%nat ->
    match hi with Some h => (length run <= h)%nat | None => True end ->
    hi = Some (length run) \/ match rest with [] => True | c :: _ => ok c = false end ->
    k rest = Some r ->
    repeatMatcher ok lo hi (run ++ rest) k = Some r.
Proof.
  induction run as [|c run IH]; intros lo hi Hrun Hlo Hhi Hmax Hk.
  - cbn [app]. cbn [length] in Hlo. assert (lo = 0%nat) as -> by lia.
    destruct Hmax as [-> | Hmax].
    + cbn. destruct rest; exact Hk.
    + destruct rest as [|c rest]; cbn; destruct hi as [[|h]|]; rewrite ?Hmax; exact Hk.
  - cbn [forallb] in Hrun. apply andb_prop in Hrun as [Hc Hrun].
    cbn [length] in Hlo, Hhi, Hmax. rewrite <- app_comm_cons.
    destruct hi as [[|h]|]; [lia| |]; cbn [repeatMatcher fmap option_fmap option_map];
      rewrite Hc.
    + rewrite (IH (Nat.pred lo) (Some (Nat.pred (S h)))); [reflexivity|assumption|lia|cbn; lia| |exact Hk].
      destruct Hmax as [Hmax|Hmax]; [left; cbn; f_equal; injection Hmax; lia | by right].
    + rewrite (IH (Nat.pred lo) None); [reflexivity|assumption|lia|exact I| |exact Hk].
      destruct Hmax as [Hmax|Hmax]; [discriminate | by right].
Qed.

Lemma take_matched (whole rest : jsstring) :
  take (length (whole ++ rest) - length rest) (whole ++ rest) = whole.
Proof.
  rewrite length_app, Nat.add_sub. by rewrite take_app_length.
Qed.

(** *** Character classes under ignoreCase *)

Lemma isWhiteSpace_range (c : Z) :
  isWhiteSpace c = true -> 9 <= c <= 32 \/ 160 <= c.
Proof.
  unfold isWhiteSpace. intros Hc.
  repeat (apply orb_prop in Hc as [Hc|Hc]);
    repeat match goal with
           | E : _ && _ = true |- _ => apply andb_prop in E as [? ?]
           | E : (_ <=? _) = true |- _ => apply Z.leb_le in E
           | E : (_ =? _) = true |- _ => apply Z.eqb_eq in E
           end; lia.
Qed.

Lemma letter_not_space (c : Z) : isLetter c = true -> isWhiteSpace c = false.
Proof.
  intros Hc. destruct (isWhiteSpace c) eqn:E; [|reflexivity].
  apply isWhiteSpace_range in E. unfold isLetter, isUpper, isLower in Hc.
  apply orb_prop in Hc as [Hc|Hc]; apply andb_prop in Hc as [H1 H2];
    apply Z.leb_le in H1, H2; lia.
Qed.

Lemma space_not_letter (c : Z) : isWhiteSpace c = true -> isLetter c = false.
Proof.
  intros Hc. destruct (isLetter c) eqn:E; [|reflexivity].
  apply letter_not_space in E. congruence.
Qed.

Lemma space_not_digit (c : Z) : isWhiteSpace c = true -> isDigit c = false.
Proof.
  intros Hc. apply isWhiteSpace_range in Hc. unfold isDigit.
  destruct (Z.leb_spec 48 c), (Z.leb_spec c 57); cbn; try reflexivity; lia.
Qed.

Lemma digit_not_space (c : Z) : isDigit c = true -> isWhiteSpace c = false.
Proof.
  intros Hc. destruct (isWhiteSpace c) eqn:E; [|reflexivity].
  apply space_not_digit in E. congruence.
Qed.

Lemma swapCase_letter (c : Z) :
  (isLetter c = true /\ isLetter (swapCase c) = true /\ 65 <= swapCase c <= 122)
  \/ (isLetter c = false /\ swapCase c = c).
Proof.
  unfold isLetter, swapCase, isUpper, isLower.
  destruct (Z.leb_spec 97 c), (Z.leb_spec c 122), (Z.leb_spec 65 c), (Z.leb_spec c 90);
    cbn; try lia; try (right; split; [reflexivity | lia || reflexivity]);
    left; (split; [reflexivity|]);
    repeat match goal with
           | |- context [?a <=? ?b] => destruct (Z.leb_spec a b)
           end; cbn; try lia; (split; [reflexivity | lia]).
Qed.

Lemma class_space (c : Z) : charsetMatches true (Atom Space) c = isWhiteSpace c.
Proof.
  cbn. unfold atomMatches. cbn.
  destruct (swapCase_letter c) as [(Hc & _ & Hs)|[_ ->]]; [|apply orb_diag].
  rewrite (letter_not_space c Hc). cbn.
  destruct (isWhiteSpace (swapCase c)) eqn:E; [|reflexivity].
  apply isWhiteSpace_range in E. lia.
Qed.

Lemma class_letters (c : Z) :
  charsetMatches true (OneOf [Range (cu "a") (cu "z")]) c = isLetter c.
Proof.
  change (cu "a") with 97. change (cu "z") with 122.
  cbn. unfold atomMatches. cbn. rewrite orb_false_r.
  unfold isLetter, swapCase, isUpper, isLower.
  destruct (Z.leb_spec 97 c), (Z.leb_spec c 122), (Z.leb_spec 65 c), (Z.leb_spec c 90);
    cbn; try lia;
    repeat match goal with
           | |- context [?a <=? ?b] => destruct (Z.leb_spec a b)
           end; cbn; try lia; reflexivity.
Qed.

Lemma class_digit (c : Z) : charsetMatches true (Atom Digit) c = isDigit c.
Proof.
  cbn. unfold atomMatches. cbn.
  destruct (swapCase_letter c) as [(Hc & _ & Hs)|[_ ->]]; [|apply orb_diag].
  replace (isDigit (swapCase c)) with false; [apply orb_false_r|].
  unfold isDigit. destruct (Z.leb_spec 48 (swapCase c)), (Z.leb_spec (swapCase c) 57);
    cbn; try reflexivity; lia.
Qed.

Lemma class_dot (c : Z) :
  charsetMatches true (Atom (Single (cu "."))) c = (c =? 46).
Proof.
  change (cu ".") with 46. cbn. unfold atomMatches. cbn.
  destruct (swapCase_letter c) as [(Hc & _ & Hs)|[_ ->]]; [|apply orb_diag].
  replace (swapCase c =? 46) with false by (symmetry; apply Z.eqb_neq; lia).
  apply orb_false_r.
Qed.

Lemma forallb_class (f g : Z -> bool) (s : jsstring) :
  (forall c, f c = g c) -> forallb g s = true -> forallb f s = true.
Proof.
  intros E. induction s as [|c s IH]; cbn; [reflexivity|].
  intros Hs. apply andb_prop in Hs as [Hc Hs]. by rewrite E, Hc, IH.
Qed.

(** A whitespace character is foreign to both labels. *)
Lemma space_foreign (l : jsstring) (c0 : Z) :
  forallb (fun a => isLetter a || (a =? 58)) l = true ->
  isWhiteSpace c0 = true -> foreignTo l c0.
Proof.
  unfold foreignTo. intros Hl Hc0. pose proof (isWhiteSpace_range c0 Hc0) as Hr.
  pose proof (space_not_letter c0 Hc0) as Hnl.
  induction l as [|a l IH]; [reflexivity|]. cbn [forallb] in Hl |- *.
  apply andb_prop in Hl as [Ha Hl]. rewrite (IH Hl), andb_true_r.
  apply negb_true_iff. unfold sameIgnoringCase. cbn. unfold atomMatches. cbn.
  destruct (swapCase_letter c0) as [(Hc & _)|[_ ->]]; [congruence|].
  rewrite orb_diag. apply Z.eqb_neq. intros ->.
  apply orb_prop in Ha as [Ha|Ha]; [congruence|]. apply Z.eqb_eq in Ha. lia.
Qed.

(** *** Leftmost search for an expression that begins with a label *)

Lemma forallb_drop (p : Z -> bool) (s : jsstring) (n : nat) :
  forallb p s = true -> forallb p (drop n s) = true.
Proof.
  revert s. induction n as [|n IH]; intros [|c s] Hs; cbn [drop]; try exact Hs.
  cbn [forallb] in Hs. apply andb_prop in Hs as [_ Hs]. by apply IH.
Qed.

Section LabelCharacters.
Variable l : jsstring.
Hypothesis Hlabel : forallb (fun a => isLetter a || (a =? 58)) l = true.
Hypothesis Hnonempty : l <> [].

Lemma startsWithI_space (w : Z) (t : jsstring) :
  isWhiteSpace w = true -> startsWithI l (w :: t) = false.
Proof.
  intros Hw. pose proof (space_foreign l w Hlabel Hw) as Hf. unfold foreignTo in Hf.
  destruct l as [|a l']; [congruence|]. cbn [forallb] in Hf. cbn [startsWithI].
  apply andb_prop in Hf as [Hf _]. apply negb_true_iff in Hf. by rewrite Hf.
Qed.

Lemma occursI_spaces (ws t : jsstring) :
  forallb isWhiteSpace ws = true -> occursI l t = false -> occursI l (ws ++ t) = false.
Proof.
  intros Hws Ht. induction ws as [|w ws IH]; [exact Ht|].
  cbn [forallb] in Hws. apply andb_prop in Hws as [Hw Hws].
  cbn [app occursI]. by rewrite startsWithI_space, IH.
Qed.

End LabelCharacters.

Section LabelSearch.
Variables (re : regexp) (l : jsstring) (tail : pattern).
Hypothesis Hsource : source re = Seq (litOf l) tail.
Hypothesis Hflag : ignoreCase re = true.

Lemma matchAt_label (idx : nat) (s : jsstring) :
  matchAt re idx s
  = if startsWithI l s
    then matcher true tail (drop (length l) s) None
           (fun rest cap =>
              Some {| index := idx;
                      matched := take (length s - length rest) s;
                      group1 := cap |})
    else None.
Proof.
  unfold matchAt. rewrite Hsource, Hflag. cbn [matcher]. apply matcher_litOf.
Qed.

Lemma execFrom_absent (idx : nat) (s : jsstring) :
  l <> [] -> occursI l s = false -> execFrom re idx s = None.
Proof.
  intros Hl. revert idx. induction s as [|c s IH]; intros idx Hs; cbn [occursI] in Hs;
    apply orb_false_elim in Hs as [Hhead Htail]; cbn [execFrom];
    rewrite matchAt_label, Hhead; [reflexivity | by apply IH].
Qed.

Lemma execFrom_skip (pre rest : jsstring) (idx : nat) :
  (forall p, (p < length pre)%nat -> startsWithI l (drop p (pre ++ rest)) = false) ->
  execFrom re idx (pre ++ rest) = execFrom re (idx + length pre) rest.
Proof.
  revert idx. induction pre as [|c pre IH]; intros idx Hpre.
  - cbn. by rewrite Nat.add_0_r.
  - cbn [app length]. pose proof (Hpre 0%nat ltac:(cbn; lia)) as H0. cbn in H0.
    destruct (pre ++ rest) as [|c' s'] eqn:E.
    + destruct pre; [|discriminate E]. cbn in E. subst rest.
      cbn [execFrom]. rewrite matchAt_label, H0. cbn [length].
      replace (idx + 1)%nat with (S idx) by lia. reflexivity.
    + rewrite <- E in *. cbn [execFrom]. rewrite matchAt_label, H0.
      rewrite IH; [f_equal; lia|]. intros p Hp.
      apply (Hpre (S p)). cbn. lia.
Qed.

(** The first place the expression can match is after a character foreign
    to the label that follows a text without the label. *)
Lemma execFrom_after (body : jsstring) (c0 : Z) (rest : jsstring) (idx : nat) :
  l <> [] -> foreignTo l c0 -> occursI l body = false ->
  execFrom re idx (body ++ c0 :: rest) = execFrom re (idx + length body + 1) rest.
Proof.
  intros Hl Hf Hbody.
  replace (body ++ c0 :: rest) with ((body ++ [c0]) ++ rest) by (by rewrite <- app_assoc).
  rewrite execFrom_skip; [f_equal; rewrite length_app; cbn; lia|].
  intros p Hp. rewrite length_app in Hp. cbn in Hp. rewrite <- app_assoc. cbn [app].
  rewrite drop_app_le by lia.
  destruct (startsWithI l (drop p body ++ c0 :: rest)) eqn:E; [|reflexivity].
  apply (startsWithI_before l _ c0 rest Hf) in E.
  pose proof (occursI_drop l body p Hbody) as Hd.
  destruct (drop p body); cbn in Hd; rewrite E in Hd; discriminate Hd.
Qed.

Hypothesis Hlabel : forallb (fun a => isLetter a || (a =? 58)) l = true.
Hypothesis Hnonempty : l <> [].

(** White space after a text without the label: the search moves on to
    what follows the white space. *)
Lemma execFrom_after_space (body ws rest : jsstring) (idx : nat) :
  occursI l body = false -> forallb isWhiteSpace ws = true -> ws <> [] ->
  execFrom re idx (body ++ ws ++ rest) = execFrom re (idx + length (body ++ ws)) rest.
Proof.
  intros Hbody Hws Hne. destruct ws as [|w ws]; [congruence|].
  cbn [forallb] in Hws. apply andb_prop in Hws as [Hw Hws]. cbn [app].
  rewrite execFrom_after; [|assumption | by apply space_foreign | assumption].
  rewrite execFrom_skip.
  - f_equal. rewrite length_app. cbn [length]. lia.
  - intros p Hp. rewrite drop_app_le by lia.
    destruct (drop p ws) as [|w' t] eqn:E.
    + apply (f_equal length) in E. rewrite length_drop in E. cbn in E. lia.
    + cbn [app]. apply startsWithI_space; [assumption | assumption |].
      pose proof (forallb_drop isWhiteSpace ws p Hws) as Hd. rewrite E in Hd.
      cbn [forallb] in Hd. by apply andb_prop in Hd as [Hd _].
Qed.

End LabelSearch.

Lemma remove_at (re : regexp) (pre m rest : jsstring) (g : option jsstring) :
  exec re (pre ++ m ++ rest)
  = Some {| index := length pre; matched := m; group1 := g |} ->
  remove re (pre ++ m ++ rest) = pre ++ rest.
Proof.
  intros He. unfold remove. rewrite He. cbn [index matched].
  rewrite take_app_length. f_equal.
  rewrite app_assoc, <- length_app. apply drop_app_length.
Qed.

Lemma execFrom_here (re : regexp) (idx : nat) (s : jsstring) (m : MatchResult) :
  matchAt re idx s = Some m -> execFrom re idx s = Some m.
Proof. intros Hm. destruct s; cbn [execFrom]; by rewrite Hm. Qed.

Lemma occursI_short (l s : jsstring) :
  (length s < length l)%nat -> occursI l s = false.
Proof.
  induction s as [|c s IH]; intros Hlen; cbn [occursI].
  - destruct l; [cbn in Hlen; lia | reflexivity].
  - rewrite IH by (cbn in Hlen; lia). rewrite orb_false_r.
    destruct (startsWithI l (c :: s)) eqn:E; [|reflexivity].
    apply startsWithI_length in E. lia.
Qed.

(** *** Labels in any letter case *)

Lemma sameIgnoringCase_cases (a c : Z) :
  sameIgnoringCase a c = true -> c = a \/ c = a + 32 \/ c = a - 32.
Proof.
  unfold sameIgnoringCase. cbn. unfold atomMatches. cbn. intros Hc.
  apply orb_prop in Hc as [Hc|Hc]; apply Z.eqb_eq in Hc; [by left|].
  unfold swapCase in Hc. destruct (isLower c), (isUpper c); lia.
Qed.

Lemma spells_prefix (label : string) (l rest : jsstring) :
  spells label l = true ->
  startsWithI (str label) (l ++ rest) = true
  /\ drop (length (str label)) (l ++ rest) = rest.
Proof.
  unfold spells. intros Hl. apply andb_prop in Hl as [Hlen Hl].
  apply Nat.eqb_eq in Hlen. split; [by apply startsWithI_app|].
  rewrite <- Hlen. apply drop_app_length.
Qed.

(** No character of a LANGUAGE: label, in any case, is a C or a c. *)
Lemma language_label_no_c (l : jsstring) :
  spells "LANGUAGE:" l = true ->
  forallb (fun c => negb (sameIgnoringCase 67 c)) l = true.
Proof.
  unfold spells. intros Hl. apply andb_prop in Hl as [Hlen Hl].
  apply Nat.eqb_eq in Hlen.
  do 9 (destruct l as [|? l]; [discriminate Hlen|]).
  destruct l; [|discriminate Hlen]. clear Hlen.
  change (str "LANGUAGE:") with [76; 65; 78; 71; 85; 65; 71; 69; 58] in Hl.
  cbn [startsWithI] in Hl.
  repeat match goal with
         | E : _ && _ = true |- _ => apply andb_prop in E as [? ?]
         end.
  cbn [forallb].
  repeat match goal with
         | E : sameIgnoringCase ?a ?c = true |- context [sameIgnoringCase 67 ?c] =>
             replace (sameIgnoringCase 67 c) with false;
             [clear E
             |symmetry; destruct (sameIgnoringCase 67 c) eqn:E'; [|reflexivity];
              apply sameIgnoringCase_cases in E, E'; lia]
         end.
  reflexivity.
Qed.

(** A CONFIDENCE: label, in any case, begins with a character that is
    neither white space nor a letter run's end. *)
Lemma confidence_label_head (l rest : jsstring) :
  spells "CONFIDENCE:" l = true -> endsRun isWhiteSpace (l ++ rest).
Proof.
  unfold spells. intros Hl. apply andb_prop in Hl as [Hlen Hl].
  destruct l as [|c l]; [discriminate Hlen|].
  change (str "CONFIDENCE:") with [67; 79; 78; 70; 73; 68; 69; 78; 67; 69; 58] in Hl.
  cbn [startsWithI] in Hl. apply andb_prop in Hl as [Hc _].
  apply sameIgnoringCase_cases in Hc. cbn [app endsRun].
  destruct (isWhiteSpace c) eqn:E; [|reflexivity].
  apply isWhiteSpace_range in E. lia.
Qed.

Lemma occursI_mismatches (a : Z) (l' pre t : jsstring) :
  forallb (fun c => negb (sameIgnoringCase a c)) pre = true ->
  occursI (a :: l') t = false -> occursI (a :: l') (pre ++ t) = false.
Proof.
  intros Hpre Ht. induction pre as [|c pre IH]; [exact Ht|].
  cbn [forallb] in Hpre. apply andb_prop in Hpre as [Hc Hpre].
  apply negb_true_iff in Hc. cbn [app occursI startsWithI]. rewrite Hc.
  cbn [andb orb]. by apply IH.
Qed.

Lemma confidence_label_letters :
  forallb (fun a => isLetter a || (a =? 58)) (str "CONFIDENCE:") = true.
Proof. reflexivity. Qed.

Lemma language_label_letters :
  forallb (fun a => isLetter a || (a =? 58)) (str "LANGUAGE:") = true.
Proof. reflexivity. Qed.

(** The CONFIDENCE: label does not occur in a LANGUAGE: marker. *)
Lemma confidence_not_in_language_marker (ws0 l ws code : jsstring) :
  forallb isWhiteSpace ws0 = true -> spells "LANGUAGE:" l = true ->
  forallb isWhiteSpace ws = true -> (length code <= 3)%nat ->
  occursI (str "CONFIDENCE:") (ws0 ++ l ++ ws ++ code) = false.
Proof.
  intros Hws0 Hl Hws Hcode.
  apply (occursI_spaces (str "CONFIDENCE:") confidence_label_letters);
    [discriminate | assumption |].
  change (str "CONFIDENCE:") with (67 :: [79; 78; 70; 73; 68; 69; 78; 67; 69; 58]).
  apply occursI_mismatches; [by apply language_label_no_c|].
  change (67 :: [79; 78; 70; 73; 68; 69; 78; 67; 69; 58]) with (str "CONFIDENCE:").
  apply (occursI_spaces (str "CONFIDENCE:") confidence_label_letters);
    [discriminate | assumption |].
  apply occursI_short. cbn. lia.
Qed.

(** *** The four marker expressions at a marker *)

Ltac class_run :=
  first [ eapply forallb_class; [exact class_space | eassumption]
        | eapply forallb_class; [exact class_letters | eassumption]
        | eapply forallb_class; [exact class_digit | eassumption] ].

Lemma matchAt_languagePattern (idx : nat) (l ws code rest : jsstring) :
  spells "LANGUAGE:" l = true ->
  forallb isWhiteSpace ws = true ->
  forallb isLetter code = true ->
  (2 <= length code <= 3)%nat ->
  length code = 3%nat \/ endsRun isLetter rest ->
  matchAt languagePattern idx (l ++ ws ++ code ++ rest)
  = Some {| index := idx; matched := l ++ ws ++ code; group1 := Some code |}.
Proof.
  intros Hl Hws Hcode Hlen Hmax.
  rewrite (matchAt_label languagePattern (str "LANGUAGE:") _ eq_refl eq_refl).
  destruct (spells_prefix _ l (ws ++ code ++ rest) Hl) as [-> ->].
  cbn [matcher].
  apply repeatMatcher_run; [class_run | lia | exact I | right |].
  - destruct code as [|c code]; [cbn in Hlen; lia|]. cbn [app forallb] in *.
    apply andb_prop in Hcode as [Hc _]. rewrite class_space. by apply letter_not_space.
  - apply repeatMatcher_run; [class_run | lia | lia | |].
    + destruct Hmax as [->|Hmax]; [by left | right].
      destruct rest; [exact I|]. rewrite class_letters. exact Hmax.
    + do 2 f_equal; [|f_equal; apply take_matched].
      replace (l ++ ws ++ code ++ rest) with ((l ++ ws ++ code) ++ rest)
        by (by rewrite <- !app_assoc).
      apply take_matched.
Qed.

Lemma matchAt_languageLine (idx : nat) (l ws code ws2 rest : jsstring) :
  spells "LANGUAGE:" l = true ->
  forallb isWhiteSpace ws = true ->
  forallb isLetter code = true ->
  (2 <= length code <= 3)%nat ->
  forallb isWhiteSpace ws2 = true ->
  length code = 3%nat \/ endsRun isLetter (ws2 ++ rest) ->
  endsRun isWhiteSpace rest ->
  matchAt languageLine idx (l ++ ws ++ code ++ ws2 ++ rest)
  = Some {| index := idx; matched := l ++ ws ++ code ++ ws2; group1 := None |}.
Proof.
  intros Hl Hws Hcode Hlen Hws2 Hmax Hrest.
  rewrite (matchAt_label languageLine (str "LANGUAGE:") _ eq_refl eq_refl).
  destruct (spells_prefix _ l (ws ++ code ++ ws2 ++ rest) Hl) as [-> ->].
  cbn [matcher].
  apply repeatMatcher_run; [class_run | lia | exact I | right |].
  - destruct code as [|c code]; [cbn in Hlen; lia|]. cbn [app forallb] in *.
    apply andb_prop in Hcode as [Hc _]. rewrite class_space. by apply letter_not_space.
  - apply repeatMatcher_run; [class_run | lia | lia | |].
    + destruct Hmax as [->|Hmax]; [by left | right].
      destruct (ws2 ++ rest); [exact I|]. rewrite class_letters. exact Hmax.
    + apply repeatMatcher_run; [class_run | lia | exact I | right |].
      * destruct rest; [exact I|]. rewrite class_space. exact Hrest.
      * do 2 f_equal.
        replace (l ++ ws ++ code ++ ws2 ++ rest) with ((l ++ ws ++ code ++ ws2) ++ rest)
          by (by rewrite <- !app_assoc).
        apply take_matched.
Qed.

Lemma space_not_digit_head (ws4 : jsstring) :
  forallb isWhiteSpace ws4 = true -> endsRun (charsetMatches true (Atom Digit)) ws4.
Proof.
  intros Hws4. destruct ws4 as [|w ws4]; [exact I|]. cbn [forallb endsRun] in *.
  apply andb_prop in Hws4 as [Hw _]. rewrite class_digit. by apply space_not_digit.
Qed.

Lemma no_point_in_space {R} (ws4 : jsstring) (k : jsstring -> option R) :
  forallb isWhiteSpace ws4 = true ->
  match ws4 with
  | [] => None
  | c :: s' => if charsetMatches true (Atom (Single (cu "."))) c then k s' else None
  end = None.
Proof.
  intros Hws4. destruct ws4 as [|w ws4]; [reflexivity|]. cbn [forallb] in Hws4.
  apply andb_prop in Hws4 as [Hw _]. rewrite class_dot.
  apply isWhiteSpace_range in Hw.
  replace (w =? 46) with false by (symmetry; apply Z.eqb_neq; lia). reflexivity.
Qed.

Lemma matchAt_confidencePattern (idx : nat) (l ws ip : jsstring)
    (frac : option jsstring) (ws4 : jsstring) :
  spells "CONFIDENCE:" l = true ->
  forallb isWhiteSpace ws = true ->
  isDecimal ip frac ->
  forallb isWhiteSpace ws4 = true ->
  matchAt confidencePattern idx (l ++ ws ++ decimal ip frac ++ ws4)
  = Some {| index := idx; matched := l ++ ws ++ decimal ip frac;
            group1 := Some (decimal ip frac) |}.
Proof.
  intros Hl Hws (Hip & Hipd & Hfrac) Hws4.
  rewrite (matchAt_label confidencePattern (str "CONFIDENCE:") _ eq_refl eq_refl).
  destruct (spells_prefix _ l (ws ++ decimal ip frac ++ ws4) Hl) as [-> ->].
  pose proof (space_not_digit_head ws4 Hws4) as Hnd.
  assert (Hfinal :
            Some {| index := idx;
                    matched := take (length (l ++ ws ++ decimal ip frac ++ ws4)
                                     - length ws4)
                                 (l ++ ws ++ decimal ip frac ++ ws4);
                    group1 := Some (take (length (decimal ip frac ++ ws4) - length ws4)
                                      (decimal ip frac ++ ws4)) |}
            = Some {| index := idx; matched := l ++ ws ++ decimal ip frac;
                      group1 := Some (decimal ip frac) |}).
  { rewrite take_matched.
    replace (l ++ ws ++ decimal ip frac ++ ws4) with ((l ++ ws ++ decimal ip frac) ++ ws4)
      by (by rewrite <- !app_assoc).
    by rewrite take_matched. }
  cbn [matcher].
  apply repeatMatcher_run; [class_run | lia | exact I | right |].
  - destruct ip as [|c ip]; [congruence|]. cbn [decimal app forallb] in *.
    apply andb_prop in Hipd as [Hc _]. rewrite class_space. by apply digit_not_space.
  - revert Hfinal. unfold decimal. intros Hfinal. rewrite <- app_assoc.
    apply repeatMatcher_run;
      [class_run | destruct ip; [congruence | cbn; lia] | exact I | right |].
    + destruct frac as [fp|]; cbn [app]; [|exact Hnd].
      rewrite class_digit. reflexivity.
    + destruct frac as [fp|]; cbn [app] in *.
      * destruct Hfrac as [Hfp Hfpd]. rewrite class_dot. cbn.
        erewrite repeatMatcher_run;
          [reflexivity | class_run | destruct fp; [congruence | cbn; lia]
          | exact I | right; exact Hnd |].
        rewrite <- ?app_assoc in Hfinal. cbn [app] in Hfinal. exact Hfinal.
      * rewrite (no_point_in_space ws4 _ Hws4).
        rewrite !app_nil_r in Hfinal. rewrite ?app_nil_r. exact Hfinal.
Qed.

Lemma matchAt_confidenceLine (idx : nat) (l ws ip : jsstring)
    (frac : option jsstring) (ws4 : jsstring) :
  spells "CONFIDENCE:" l = true ->
  forallb isWhiteSpace ws = true ->
  isDecimal ip frac ->
  forallb isWhiteSpace ws4 = true ->
  matchAt confidenceLine idx (l ++ ws ++ decimal ip frac ++ ws4)
  = Some {| index := idx; matched := l ++ ws ++ decimal ip frac ++ ws4;
            group1 := None |}.
Proof.
  intros Hl Hws (Hip & Hipd & Hfrac) Hws4.
  rewrite (matchAt_label confidenceLine (str "CONFIDENCE:") _ eq_refl eq_refl).
  destruct (spells_prefix _ l (ws ++ decimal ip frac ++ ws4) Hl) as [-> ->].
  pose proof (space_not_digit_head ws4 Hws4) as Hnd.
  assert (Hend : repeatMatcher (charsetMatches true (Atom Space)) 0 None ws4
                   (fun s2 =>
                      Some {| index := idx;
                              matched := take (length (l ++ ws ++ decimal ip frac ++ ws4)
                                               - length s2)
                                           (l ++ ws ++ decimal ip frac ++ ws4);
                              group1 := None |})
                 = Some {| index := idx; matched := l ++ ws ++ decimal ip frac ++ ws4;
                           group1 := None |}).
  { rewrite <- (app_nil_r ws4) at 1.
    apply repeatMatcher_run; [class_run | lia | exact I | by right |].
    cbn [length]. by rewrite Nat.sub_0_r, firstn_all. }
  cbn [matcher].
  apply repeatMatcher_run; [class_run | lia | exact I | right |].
  - destruct ip as [|c ip]; [congruence|]. cbn [decimal app forallb] in *.
    apply andb_prop in Hipd as [Hc _]. rewrite class_space. by apply digit_not_space.
  - revert Hend. unfold decimal. intros Hend. rewrite <- app_assoc.
    apply repeatMatcher_run;
      [class_run | destruct ip; [congruence | cbn; lia] | exact I | right |].
    + destruct frac as [fp|]; cbn [app]; [|exact Hnd].
      rewrite class_digit. reflexivity.
    + destruct frac as [fp|]; cbn [app] in *.
      * destruct Hfrac as [Hfp Hfpd]. rewrite class_dot. cbn.
        erewrite repeatMatcher_run;
          [reflexivity | class_run | destruct fp; [congruence | cbn; lia]
          | exact I | right; exact Hnd |].
        rewrite <- ?app_assoc in Hend. cbn [app] in Hend. exact Hend.
      * rewrite (no_point_in_space ws4 _ Hws4).
        rewrite !app_nil_r in Hend. rewrite ?app_nil_r. exact Hend.
Qed.

(** *** Trimming *)

Lemma dropWhile_app_all (p : Z -> bool) (s ws : jsstring) :
  forallb p ws = true ->
  exists ws', forallb p ws' = true /\ dropWhile p (s ++ ws) = dropWhile p s ++ ws'.
Proof.
  intros Hws. induction s as [|c s IH]; cbn [app dropWhile].
  - exists []. split; [reflexivity|]. cbn.
    induction ws as [|w ws IHws]; [reflexivity|]. cbn [forallb dropWhile] in *.
    apply andb_prop in Hws as [-> Hws]. by apply IHws.
  - destruct (p c); [exact IH|]. exists ws. by split.
Qed.

Lemma dropWhile_all_prefix (p : Z -> bool) (ws s : jsstring) :
  forallb p ws = true -> dropWhile p (ws ++ s) = dropWhile p s.
Proof.
  induction ws as [|w ws IH]; [reflexivity|]. cbn [forallb app dropWhile].
  intros Hws. apply andb_prop in Hws as [-> Hws]. by apply IH.
Qed.

Lemma trim_app_space (s ws : jsstring) :
  forallb isWhiteSpace ws = true -> trim (s ++ ws) = trim s.
Proof.
  intros Hws. unfold trim, trimStart, trimEnd.
  destruct (dropWhile_app_all isWhiteSpace s ws Hws) as (ws' & Hws' & ->).
  rewrite rev_app_distr. rewrite dropWhile_all_prefix; [reflexivity|].
  rewrite forallb_forall in *. intros c Hc. apply Hws'. by apply in_rev.
Qed.

Lemma takeWhile_dropWhile (p : Z -> bool) (s : jsstring) :
  takeWhile p s ++ dropWhile p s = s.
Proof.
  induction s as [|c s IH]; [reflexivity|]. cbn. destruct (p c); [|reflexivity].
  cbn. by rewrite IH.
Qed.

Lemma occursI_trim (l s : jsstring) : occursI l s = false -> occursI l (trim s) = false.
Proof.
  intros Hs. unfold trim, trimEnd.
  assert (Hstart : occursI l (trimStart s) = false).
  { unfold trimStart. rewrite <- (takeWhile_dropWhile isWhiteSpace s) in Hs.
    revert Hs. generalize (dropWhile isWhiteSpace s) as t.
    induction (takeWhile isWhiteSpace s) as [|c pre IH]; intros t Hs; [exact Hs|].
    apply IH. cbn [app occursI] in Hs. by apply orb_false_elim in Hs as [_ Hs]. }
  revert Hstart. generalize (trimStart s) as t. intros t Ht.
  apply (occursI_app_l l _ (rev (takeWhile isWhiteSpace (rev t)))).
  rewrite <- rev_app_distr, takeWhile_dropWhile, rev_involutive. exact Ht.
Qed.

(** *** A response in the format the prompt asks for *)

Lemma mentions_occursI (label : string) (s : jsstring) :
  mentions label s = occursI (str label) s.
Proof.
  unfold mentions, test, exec. generalize 0%nat as idx.
  induction s as [|c s IH]; intros idx; cbn [execFrom occursI]; unfold matchAt;
    cbn [source ignoreCase]; rewrite lit_litOf, matcher_litOf;
    destruct (startsWithI (str label) _); try reflexivity.
  cbn [orb]. apply IH.
Qed.

Section PromptFormat.
Variables (body ws0 languageLabel ws1 code ws2 confidenceLabel ws3 ip : jsstring)
  (frac : option jsstring) (ws4 : jsstring).
Hypothesis Hlang : occursI (str "LANGUAGE:") body = false.
Hypothesis Hconf : occursI (str "CONFIDENCE:") body = false.
Hypothesis Hws0 : forallb isWhiteSpace ws0 = true.
Hypothesis Hne0 : ws0 <> [].
Hypothesis HlanguageLabel : spells "LANGUAGE:" languageLabel = true.
Hypothesis Hws1 : forallb isWhiteSpace ws1 = true.
Hypothesis Hcode : forallb isLetter code = true.
Hypothesis Hlen : (2 <= length code <= 3)%nat.
Hypothesis Hws2 : forallb isWhiteSpace ws2 = true.
Hypothesis Hne2 : ws2 <> [].
Hypothesis HconfidenceLabel : spells "CONFIDENCE:" confidenceLabel = true.
Hypothesis Hws3 : forallb isWhiteSpace ws3 = true.
Hypothesis Hnum : isDecimal ip frac.
Hypothesis Hws4 : forallb isWhiteSpace ws4 = true.

Let confidenceMarker : jsstring := confidenceLabel ++ ws3 ++ decimal ip frac ++ ws4.
Let languageMarker : jsstring := languageLabel ++ ws1 ++ code.
Let text : jsstring := body ++ ws0 ++ languageMarker ++ ws2 ++ confidenceMarker.

Lemma space_then_anything (rest : jsstring) : endsRun isLetter (ws2 ++ rest).
Proof.
  destruct ws2 as [|w ws]; [congruence|]. cbn [forallb app endsRun] in *.
  apply andb_prop in Hws2 as [Hw _]. by apply space_not_letter.
Qed.

Lemma exec_languagePattern_prompt :
  exec languagePattern text
  = Some {| index := length (body ++ ws0); matched := languageMarker;
            group1 := Some code |}.
Proof.
  unfold exec, text.
  rewrite (execFrom_after_space languagePattern (str "LANGUAGE:") _ eq_refl eq_refl
             language_label_letters); [|discriminate | assumption..].
  apply execFrom_here. unfold languageMarker. rewrite <- !app_assoc.
  apply matchAt_languagePattern; try assumption. right. apply space_then_anything.
Qed.

Lemma exec_languageLine_prompt :
  exec languageLine text
  = Some {| index := length (body ++ ws0); matched := languageMarker ++ ws2;
            group1 := None |}.
Proof.
  unfold exec, text.
  rewrite (execFrom_after_space languageLine (str "LANGUAGE:") _ eq_refl eq_refl
             language_label_letters); [|discriminate | assumption..].
  apply execFrom_here. unfold languageMarker. rewrite <- !app_assoc.
  apply matchAt_languageLine; try assumption.
  - right. apply space_then_anything.
  - by apply confidence_label_head.
Qed.

Lemma confidence_not_before_marker :
  occursI (str "CONFIDENCE:") (body ++ ws0 ++ languageMarker) = false.
Proof.
  destruct ws0 as [|w ws]; [congruence|]. cbn [forallb app] in *.
  apply andb_prop in Hws0 as [Hw Hws].
  rewrite occursI_sep;
    [|discriminate | by apply (space_foreign _ _ confidence_label_letters)].
  rewrite Hconf. cbn [orb]. apply confidence_not_in_language_marker; try assumption. lia.
Qed.

Lemma exec_confidencePattern_prompt :
  exec confidencePattern text
  = Some {| index := length ((body ++ ws0 ++ languageMarker) ++ ws2);
            matched := confidenceLabel ++ ws3 ++ decimal ip frac;
            group1 := Some (decimal ip frac) |}.
Proof.
  unfold exec, text.
  replace (body ++ ws0 ++ languageMarker ++ ws2 ++ confidenceMarker)
    with ((body ++ ws0 ++ languageMarker) ++ ws2 ++ confidenceMarker)
    by (by rewrite <- !app_assoc).
  rewrite (execFrom_after_space confidencePattern (str "CONFIDENCE:") _ eq_refl eq_refl
             confidence_label_letters);
    [|discriminate | exact confidence_not_before_marker | assumption..].
  apply execFrom_here. unfold confidenceMarker. by apply matchAt_confidencePattern.
Qed.

Lemma remove_languageLine_prompt :
  remove languageLine text = body ++ ws0 ++ confidenceMarker.
Proof.
  pose proof exec_languageLine_prompt as He. unfold text in *.
  replace (body ++ ws0 ++ languageMarker ++ ws2 ++ confidenceMarker)
    with ((body ++ ws0) ++ (languageMarker ++ ws2) ++ confidenceMarker) in *
    by (by rewrite <- !app_assoc).
  rewrite (remove_at _ _ _ _ _ He). by rewrite <- app_assoc.
Qed.

Lemma remove_confidenceLine_prompt :
  remove confidenceLine (body ++ ws0 ++ confidenceMarker) = body ++ ws0.
Proof.
  assert (He : exec confidenceLine ((body ++ ws0) ++ confidenceMarker ++ [])
               = Some {| index := length (body ++ ws0); matched := confidenceMarker;
                         group1 := None |}).
  { unfold exec. rewrite app_nil_r, <- app_assoc.
    rewrite (execFrom_after_space confidenceLine (str "CONFIDENCE:") _ eq_refl eq_refl
               confidence_label_letters); [|discriminate | assumption..].
    apply execFrom_here. unfold confidenceMarker. by apply matchAt_confidenceLine. }
  apply remove_at in He. rewrite app_nil_r in He.
  rewrite <- app_assoc in He. rewrite He. apply app_nil_r.
Qed.

Lemma parseExtractionResponse_prompt :
  parseExtractionResponse text
  = {| extractedText := trim body; language := toLowerCase code;
       confidence := parseFloat (decimal ip frac) |}.
Proof.
  unfold parseExtractionResponse.
  rewrite exec_languagePattern_prompt, exec_confidencePattern_prompt.
  cbn [group1 default]. rewrite remove_languageLine_prompt, remove_confidenceLine_prompt.
  by rewrite trim_app_space.
Qed.

End PromptFormat.


(** The marker line is cut after three letters: the rest of the word stays
    in the text and the language is [eng]. *)
Lemma parseExtractionResponse_cuts_word :
  parseExtractionResponse spelledOutResponse
  = {| extractedText := str "Hello" ++ [LF] ++ str "lish";
       language := str "eng";
       confidence := Num 95 |}.
Proof. reflexivity. Qed.



(* ================================================================== *)
(** ** Part III. More properties                                       *)
(* ================================================================== *)

(** *** Token estimation *)

Import Tokens.

Ltac euclid := Z.to_euclidean_division_equations; lia.

Lemma ceil_quotient (a : Z) (b : positive) :
  ceil (inject_Z a / (Z.pos b # 1)) = - ((- a) / Z.pos b).
Proof.
  unfold ceil, Qceiling, Qfloor, Qdiv, Qinv, Qmult, Qopp, inject_Z. cbn.
  rewrite Z.mul_1_r. reflexivity.
Qed.

Lemma ceil_overhead (c : Z) :
  ceil ((inject_Z c * 0.75) / 4) = - ((- (c * 75)) / 400).
Proof.
  unfold ceil, Qceiling, Qfloor, Qdiv, Qinv, Qmult, Qopp, inject_Z. cbn.
  rewrite Z.mul_1_r. reflexivity.
Qed.

(** The part of the estimate that depends on the dimensions only. *)
Lemma estimateTokens_split (imageSize : Z) (width height : option Z) :
  estimateTokens imageSize width height
  = estimateTokens 0 width height + (- ((- ((- ((- imageSize) / 3)) * 75)) / 400)).
Proof.
  unfold estimateTokens. cbv zeta.
  rewrite !ceil_overhead.
  rewrite !ceil_quotient.
  generalize (if present width && present height
   then
    if 512 <? Z.min (default 0 width) (default 0 height)
    then
     if 2048 <? Z.max (default 0 width) (default 0 height)
     then
      170 +
      ceil (inject_Z (Z.max (default 0 width) (default 0 height) - 2048) / 512) *
      85
     else 170
    else 85
   else 85) as tokens.
  intros tokens. Z.to_euclidean_division_equations; lia.
Qed.

Lemma estimateTokens_dimensions (width height : option Z) :
  estimateTokens 0 width height
  = if present width && present height then
      if 512 <? Z.min (default 0 width) (default 0 height) then
        if 2048 <? Z.max (default 0 width) (default 0 height)
        then 170 + (- ((- (Z.max (default 0 width) (default 0 height) - 2048)) / 512)) * 85
        else 170
      else 85
    else 85.
Proof.
  unfold estimateTokens. cbv zeta. rewrite ceil_overhead.
  rewrite !ceil_quotient. cbn.
  repeat match goal with |- context [if ?b then _ else _] => destruct b end; euclid.
Qed.

(** X1. The estimate is a part for the dimensions plus a part for the
    size; the part for the size is one token per 16 bytes, rounded up with
    at most 17 bytes of slack; the part for the dimensions is 85 when a
    dimension is absent or zero or the smaller one is at most 512, and at
    least 170 otherwise. *)
Theorem estimateTokens_size_and_dimensions (imageSize : Z) (width height : option Z) :
  let sizePart :=
    estimateTokens imageSize width height - estimateTokens 0 width height in
  imageSize <= 16 * sizePart <= imageSize + 17
  /\ (present width && present height = false
      \/ Z.min (default 0 width) (default 0 height) <= 512 ->
      estimateTokens 0 width height = 85)
  /\ (present width && present height = true ->
      512 < Z.min (default 0 width) (default 0 height) ->
      170 <= estimateTokens 0 width height)
  /\ estimateTokens imageSize None None = estimateTokens imageSize width None
  /\ estimateTokens imageSize None None = estimateTokens imageSize None height.
Proof.
  cbv zeta. rewrite (estimateTokens_split imageSize width height).
  split; [euclid|]. rewrite estimateTokens_dimensions. split; [|split; [|split]].
  - intros [-> | Hmin]; [reflexivity|].
    destruct (present width && present height); [|reflexivity].
    destruct (Z.ltb_spec 512 (Z.min (default 0 width) (default 0 height))); [lia|reflexivity].
  - intros -> Hmin.
    destruct (Z.ltb_spec 512 (Z.min (default 0 width) (default 0 height))); [|lia].
    destruct (Z.ltb_spec 2048 (Z.max (default 0 width) (default 0 height))); euclid.
  - unfold estimateTokens. cbn [present andb]. by rewrite andb_false_r.
  - reflexivity.
Qed.

Lemma estimateTokens_size_and_dimensions_witness :
  estimateTokens 0 (Some 800) (Some 0) = 85
  /\ 170 <= estimateTokens 0 (Some 4000) (Some 3000).
Proof.
  pose proof (estimateTokens_size_and_dimensions 0 (Some 800) (Some 0)) as (_ & Hlow & _).
  pose proof (estimateTokens_size_and_dimensions 0 (Some 4000) (Some 3000))
    as (_ & _ & Hhigh & _).
  split; [apply Hlow; left; reflexivity | apply Hhigh; [reflexivity | cbn; lia]].
Defined.

(** X2. A larger file or larger dimensions never lower the estimate, the
    two dimensions can be swapped, and leaving the dimensions out gives the
    lowest estimate for a size. *)
Theorem estimateTokens_monotone (imageSize imageSize' w h w' h' : Z) :
  imageSize <= imageSize' -> w <= w' -> h <= h' ->
  estimateTokens imageSize (Some w) (Some h)
  <= estimateTokens imageSize' (Some w') (Some h')
  /\ estimateTokens imageSize (Some w) (Some h)
     = estimateTokens imageSize (Some h) (Some w)
  /\ estimateTokens imageSize None None <= estimateTokens imageSize (Some w) (Some h).
Proof.
  intros Hn Hw Hh.
  rewrite !(estimateTokens_split imageSize), !(estimateTokens_split imageSize').
  rewrite !estimateTokens_dimensions. unfold present, default, from_option, id.
  rewrite (Z.min_comm h w), (Z.max_comm h w), (andb_comm (negb (h =? 0))).
  repeat match goal with
         | |- context [?a <? ?b] => destruct (Z.ltb_spec a b)
         | |- context [?a =? ?b] => destruct (Z.eqb_spec a b)
         end; cbn [negb andb]; euclid.
Qed.

Lemma estimateTokens_monotone_witness :
  estimateTokens 1000 (Some 1024) (Some 768) <= estimateTokens 2000 (Some 4000) (Some 3000)
  /\ estimateTokens 1000 None None <= estimateTokens 1000 (Some 1024) (Some 768).
Proof.
  destruct (estimateTokens_monotone 1000 2000 1024 768 4000 3000
              ltac:(lia) ltac:(lia) ltac:(lia)) as (Hle & _ & Hlt).
  split; assumption.
Defined.

(** *** The identity of a client *)

Import Http.

Lemma split_first (sep : Z) (s : jsstring) :
  exists first rest,
    split sep s = first :: rest
    /\ first = takeWhile (fun c => negb (c =? sep)) s.
Proof.
  induction s as [|c s (first & rest & IH & Hfirst)]; cbn [split takeWhile].
  - by exists [], [].
  - destruct (c =? sep); cbn [negb].
    + by exists [], (split sep s).
    + rewrite IH. exists (c :: first), rest. by rewrite Hfirst.
Qed.

Lemma takeWhile_forallb (p : Z -> bool) (s : jsstring) :
  forallb p (takeWhile p s) = true.
Proof.
  induction s as [|c s IH]; cbn; [reflexivity|].
  destruct (p c) eqn:E; cbn; [by rewrite E, IH | reflexivity].
Qed.

Lemma dropWhile_head (p : Z -> bool) (s : jsstring) :
  match dropWhile p s with
  | [] => True
  | c :: _ => p c = false
  end.
Proof.
  induction s as [|c s IH]; cbn; [exact I|].
  destruct (p c) eqn:E; [exact IH | exact E].
Qed.

Lemma dropWhile_fixed (p : Z -> bool) (s : jsstring) :
  match s with [] => True | c :: _ => p c = false end -> dropWhile p s = s.
Proof. destruct s as [|c s]; cbn; [reflexivity|]. by intros ->. Qed.

Lemma dropWhile_idem (p : Z -> bool) (s : jsstring) :
  dropWhile p (dropWhile p s) = dropWhile p s.
Proof. apply dropWhile_fixed, dropWhile_head. Qed.

Lemma forallb_dropWhile (p q : Z -> bool) (s : jsstring) :
  forallb q s = true -> forallb q (dropWhile p s) = true.
Proof.
  induction s as [|c s IH]; cbn; [reflexivity|]. intros Hs.
  destruct (p c); [apply IH; by apply andb_prop in Hs as [_ Hs] | exact Hs].
Qed.

(** What is left of a string that begins with a character to keep and has
    its trailing white space cut still begins with that character. *)
Lemma trimEnd_head (s : jsstring) :
  match s with [] => True | c :: _ => isWhiteSpace c = false end ->
  match trimEnd s with [] => True | c :: _ => isWhiteSpace c = false end.
Proof.
  unfold trimEnd. destruct s as [|c s]; [intros _; exact I|]. intros Hc.
  change (c :: s) with ([c] ++ s). rewrite rev_app_distr. cbn [rev app].
  induction (rev s) as [|d r IH]; cbn [app dropWhile].
  - rewrite Hc. cbn. exact Hc.
  - destruct (isWhiteSpace d); [exact IH|].
    cbn [rev]. rewrite rev_app_distr. cbn. exact Hc.
Qed.

Lemma trim_idem (s : jsstring) : trim (trim s) = trim s.
Proof.
  unfold trim at 1. unfold trimStart at 1.
  rewrite dropWhile_fixed.
  - unfold trim, trimEnd. rewrite rev_involutive, dropWhile_idem. reflexivity.
  - unfold trim. apply trimEnd_head. apply dropWhile_head.
Qed.

Lemma forallb_reversed (q : Z -> bool) (s : jsstring) :
  forallb q s = true -> forallb q (rev s) = true.
Proof.
  rewrite !forallb_forall. intros Hs c Hc. apply Hs. by apply in_rev.
Qed.

Lemma forallb_trim (q : Z -> bool) (s : jsstring) :
  forallb q s = true -> forallb q (trim s) = true.
Proof.
  intros Hs. unfold trim, trimEnd, trimStart.
  by apply forallb_reversed, forallb_dropWhile, forallb_reversed, forallb_dropWhile.
Qed.

(** X3. The identity of a request is the first element of a non-empty
    X-Forwarded-For header, trimmed: what stands before the first comma,
    with no comma in it and no white space at either end, whatever
    X-Real-IP says; without that header it is a non-empty X-Real-IP as it
    is; without both it is the word unknown. *)
Theorem getClientIP_identity (headers : Headers) :
  (forall forwarded,
     get headers "x-forwarded-for" = Some forwarded -> forwarded <> [] ->
     getClientIP headers
     = trim (takeWhile (fun c => negb (c =? cu ",")) forwarded)
     /\ forallb (fun c => negb (c =? cu ",")) (getClientIP headers) = true
     /\ trim (getClientIP headers) = getClientIP headers)
  /\ (given (get headers "x-forwarded-for") = false ->
      forall realIP,
        get headers "x-real-ip" = Some realIP -> realIP <> [] ->
        getClientIP headers = realIP)
  /\ (given (get headers "x-forwarded-for") = false ->
      given (get headers "x-real-ip") = false ->
      getClientIP headers = str "unknown").
Proof.
  unfold getClientIP. split; [|split].
  - intros forwarded -> Hne. cbn [given from_option id].
    replace (truthy forwarded) with true by (destruct forwarded; [congruence|reflexivity]).
    destruct (split_first (cu ",") forwarded) as (first & rest & -> & ->).
    split; [reflexivity|]. split; [|apply trim_idem].
    apply forallb_trim, takeWhile_forallb.
  - intros -> realIP -> Hne. cbn [given from_option id].
    by replace (truthy realIP) with true by (destruct realIP; [congruence|reflexivity]).
  - by intros -> ->.
Qed.

Lemma getClientIP_identity_witness :
  getClientIP (<[str "x-forwarded-for" := str " 203.0.113.7 , 10.0.0.1"]>
                 (<[str "x-real-ip" := str "10.0.0.2"]> ∅))
  = str "203.0.113.7"
  /\ getClientIP (<[str "x-real-ip" := str "10.0.0.2"]> ∅) = str "10.0.0.2"
  /\ getClientIP ∅ = str "unknown".
Proof.
  split; [|split].
  - destruct (proj1 (getClientIP_identity
                       (<[str "x-forwarded-for" := str " 203.0.113.7 , 10.0.0.1"]>
                          (<[str "x-real-ip" := str "10.0.0.2"]> ∅)))
                (str " 203.0.113.7 , 10.0.0.1")) as (Hid & _).
    + apply lookup_insert_eq.
    + discriminate.
    + rewrite Hid. reflexivity.
  - apply (proj1 (proj2 (getClientIP_identity (<[str "x-real-ip" := str "10.0.0.2"]> ∅)))).
    + unfold get. rewrite lookup_insert_ne by discriminate. by rewrite lookup_empty.
    + apply lookup_insert_eq.
    + discriminate.
  - apply (proj2 (proj2 (getClientIP_identity ∅))); unfold get; by rewrite lookup_empty.
Defined.

(** *** The rate limiter over time *)

Section TrafficFacts.
Import RateLimiter Traffic.

Lemma checkRateLimit_cases (now : Z) (ip : jsstring) (store : gmap jsstring Entry.t) :
  (exists e,
     (store !! ip = None \/ (store !! ip = Some e /\ Entry.resetTime e < now))
     /\ checkRateLimit now ip store
        = ({| allowed := true; remaining := 9; resetTime := now + RATE_LIMIT_WINDOW_MS |},
           <[ip := {| Entry.count := 1; Entry.resetTime := now + RATE_LIMIT_WINDOW_MS |}]> store))
  \/ (exists k r,
        store !! ip = Some {| Entry.count := k; Entry.resetTime := r |}
        /\ now <= r /\ k < RATE_LIMIT_MAX_REQUESTS
        /\ checkRateLimit now ip store
           = ({| allowed := true; remaining := RATE_LIMIT_MAX_REQUESTS - (k + 1);
                 resetTime := r |},
              <[ip := {| Entry.count := k + 1; Entry.resetTime := r |}]> store))
  \/ (exists k r,
        store !! ip = Some {| Entry.count := k; Entry.resetTime := r |}
        /\ now <= r /\ RATE_LIMIT_MAX_REQUESTS <= k
        /\ checkRateLimit now ip store
           = ({| allowed := false; remaining := 0; resetTime := r |}, store)).
Proof.
  destruct (store !! ip) as [[k r]|] eqn:He.
  - destruct (Z.lt_ge_cases r now) as [Hexp|Hact].
    + left. exists {| Entry.count := k; Entry.resetTime := r |}. split; [right; by split|].
      by apply (checkRateLimit_expired now ip store _ He).
    + destruct (Z.lt_ge_cases k RATE_LIMIT_MAX_REQUESTS) as [Hk|Hk].
      * right; left. exists k, r. repeat split; try assumption.
        by apply (checkRateLimit_admit now ip store k r).
      * right; right. exists k, r. repeat split; try assumption.
        by apply (checkRateLimit_reject now ip store k r).
  - left. exists {| Entry.count := 0; Entry.resetTime := 0 |}. split; [by left|].
    by apply checkRateLimit_fresh.
Qed.

(** X4. The periodic cleanup never changes an answer: a check made at or
    after the instant of a cleanup answers the same with and without that
    cleanup, and leaves the store the cleanup would have left. *)
Theorem cleanup_transparent (now now' : Z) (ip : jsstring)
    (store : gmap jsstring Entry.t) :
  now <= now' ->
  checkRateLimit now' ip (cleanup now store)
  = ((checkRateLimit now' ip store).1, cleanup now (checkRateLimit now' ip store).2).
Proof.
  intros Hle. unfold cleanup.
  set (P := fun kv : jsstring * Entry.t => negb (Entry.resetTime kv.2 <? now) = true).
  assert (Hfresh : P (ip, {| Entry.count := 1;
                             Entry.resetTime := now' + RATE_LIMIT_WINDOW_MS |})).
  { unfold P. cbn. apply negb_true_iff, Z.ltb_ge. unfold RATE_LIMIT_WINDOW_MS. lia. }
  destruct (checkRateLimit_cases now' ip store)
    as [(e & Hstate & ->) | [(k & r & He & Hact & Hk & ->) | (k & r & He & Hact & Hk & ->)]];
    cbn [fst snd].
  - rewrite (map_filter_insert_True P) by exact Hfresh.
    destruct (filter P store !! ip) as [e'|] eqn:Hf; [|by apply checkRateLimit_fresh].
    pose proof (map_lookup_filter_Some_1_1 P store ip e' Hf) as He'.
    destruct Hstate as [Hnone | [He Hexp]]; [congruence|].
    rewrite He in He'. injection He' as <-.
    by apply (checkRateLimit_expired now' ip _ e).
  - assert (Hkeep : P (ip, {| Entry.count := k + 1; Entry.resetTime := r |})).
    { unfold P. cbn. apply negb_true_iff, Z.ltb_ge. lia. }
    rewrite (map_filter_insert_True P) by exact Hkeep.
    apply (checkRateLimit_admit now' ip _ k r); [|assumption|assumption].
    apply map_lookup_filter_Some. split; [exact He | exact Hkeep].
  - apply (checkRateLimit_reject now' ip _ k r); [|assumption|assumption].
    apply map_lookup_filter_Some. split; [exact He|].
    unfold P. cbn. apply negb_true_iff, Z.ltb_ge. lia.
Qed.

Lemma cleanup_transparent_witness :
  checkRateLimit 61000 (str "10.0.0.1")
    (cleanup 60500 (<[str "10.0.0.1" := {| Entry.count := 10; Entry.resetTime := 60000 |}]> ∅))
  = ((checkRateLimit 61000 (str "10.0.0.1")
        (<[str "10.0.0.1" := {| Entry.count := 10; Entry.resetTime := 60000 |}]> ∅)).1,
     cleanup 60500
       (checkRateLimit 61000 (str "10.0.0.1")
          (<[str "10.0.0.1" := {| Entry.count := 10; Entry.resetTime := 60000 |}]> ∅)).2).
Proof. apply cleanup_transparent. lia. Defined.


Lemma cleanup_subset (P : Entry.t -> Prop) (now : Z) (store : gmap jsstring Entry.t) :
  map_Forall (fun _ e => P e) store -> map_Forall (fun _ e => P e) (cleanup now store).
Proof.
  intros Hall ip e He. apply map_lookup_filter_Some_1_1 in He. exact (Hall ip e He).
Qed.

Lemma checkRateLimit_counted (now : Z) (ip : jsstring) (store : gmap jsstring Entry.t) :
  counted store ->
  counted (checkRateLimit now ip store).2
  /\ 0 <= remaining (checkRateLimit now ip store).1 <= RATE_LIMIT_MAX_REQUESTS - 1
  /\ (allowed (checkRateLimit now ip store).1 = false ->
      remaining (checkRateLimit now ip store).1 = 0
      /\ (checkRateLimit now ip store).2 = store)
  /\ now <= resetTime (checkRateLimit now ip store).1.
Proof.
  intros Hc. unfold counted in *.
  destruct (checkRateLimit_cases now ip store)
    as [(e & Hstate & ->) | [(k & r & He & Hact & Hk & ->) | (k & r & He & Hact & Hk & ->)]];
    cbn [fst snd allowed remaining resetTime]; unfold RATE_LIMIT_MAX_REQUESTS, RATE_LIMIT_WINDOW_MS in *.
  - split; [|split; [lia|split; [discriminate|lia]]].
    apply map_Forall_insert_2; [cbn; lia | exact Hc].
  - pose proof (Hc ip _ He) as Hk'. cbn in Hk'.
    split; [|split; [lia|split; [discriminate|lia]]].
    apply map_Forall_insert_2; [cbn; lia | exact Hc].
  - split; [exact Hc|]. split; [lia|]. split; [by split | lia].
Qed.

(** X5. Whatever the order of requests and cleanups and whatever the clock
    reads, from a store whose counts lie between 1 and 10 (the empty one,
    for instance): the counts stay between 1 and 10; every answer has a
    remaining between 0 and 9; a refusal has remaining 0; and the reset
    time of an answer is never before the instant of its request. *)
Theorem serve_invariant (ticks : list Tick) (store : gmap jsstring Entry.t) :
  counted store ->
  counted (serve ticks store).2
  /\ Forall (fun s =>
               0 <= remaining (verdict s) <= 9
               /\ (allowed (verdict s) = false -> remaining (verdict s) = 0)
               /\ at_ s <= resetTime (verdict s))
       (serve ticks store).1.
Proof.
  revert store. induction ticks as [|[now ip|now] later IH]; intros store Hc.
  - split; [exact Hc | constructor].
  - cbn [serve].
    destruct (checkRateLimit_counted now ip store Hc) as (Hc1 & Hrem & Hrej & Hreset).
    destruct (checkRateLimit now ip store) as [v store1]. cbn [fst snd] in *.
    destruct (IH store1 Hc1) as [Hc2 Hall].
    destruct (serve later store1) as [served store2]. cbn [fst snd] in *.
    split; [exact Hc2|]. constructor; [|exact Hall]. cbn.
    unfold RATE_LIMIT_MAX_REQUESTS in Hrem. split; [lia|]. split; [|exact Hreset].
    intros Hv. by apply Hrej.
  - cbn [serve]. apply IH. by apply (cleanup_subset (fun e => 1 <= Entry.count e <= _)).
Qed.

Lemma serve_invariant_witness :
  counted (serve [Request 0 (str "10.0.0.1"); Sweep 300000;
                  Request 300001 (str "10.0.0.1")] ∅).2.
Proof.
  apply (serve_invariant [Request 0 (str "10.0.0.1"); Sweep 300000;
                          Request 300001 (str "10.0.0.1")] ∅).
  apply map_Forall_empty.
Defined.


Lemma admitted_cons (ip : jsstring) (r : Z) (s : Served) (served : list Served) :
  Z.of_nat (admitted ip r (s :: served))
  = (if bool_decide (who s = ip) && allowed (verdict s) && (resetTime (verdict s) =? r)
     then 1 else 0)
    + Z.of_nat (admitted ip r served).
Proof.
  unfold admitted. cbn [List.filter].
  destruct (bool_decide (who s = ip) && allowed (verdict s) && (resetTime (verdict s) =? r));
    cbn [length]; lia.
Qed.

Lemma cleanup_lookup (now : Z) (ip : jsstring) (store : gmap jsstring Entry.t) :
  cleanup now store !! ip
  = match store !! ip with
    | Some e => if Entry.resetTime e <? now then None else Some e
    | None => None
    end.
Proof.
  unfold cleanup. destruct (store !! ip) as [e|] eqn:He.
  - destruct (Z.ltb_spec (Entry.resetTime e) now) as [Hlt|Hge].
    + apply map_lookup_filter_None. right. intros x Hx. rewrite He in Hx.
      injection Hx as <-. cbn. apply Z.ltb_lt in Hlt. rewrite Hlt. discriminate.
    + apply map_lookup_filter_Some. split; [exact He|]. cbn.
      apply negb_true_iff, Z.ltb_ge. exact Hge.
  - apply map_lookup_filter_None. by left.
Qed.

(** How many more admissions the window that resets at [r] can still give
    to [ip]: none when it lies before the stored window (or before any
    window that can still open), the rest of the stored window, or ten. *)
Lemma admitted_bound (ip : jsstring) (r : Z) (ticks : list Tick) :
  forall (lo : Z) (store : gmap jsstring Entry.t),
    monotone lo ticks -> counted store ->
    match store !! ip with
    | Some e =>
        (r < Entry.resetTime e -> admitted ip r (serve ticks store).1 = 0%nat)
        /\ (r = Entry.resetTime e ->
            Z.of_nat (admitted ip r (serve ticks store).1)
            <= RATE_LIMIT_MAX_REQUESTS - Entry.count e)
    | None =>
        r < lo + RATE_LIMIT_WINDOW_MS -> admitted ip r (serve ticks store).1 = 0%nat
    end
    /\ Z.of_nat (admitted ip r (serve ticks store).1) <= RATE_LIMIT_MAX_REQUESTS.
Proof.
  induction ticks as [|[now ip'|now] later IH]; intros lo store Hmono Hc.
  - cbn. unfold RATE_LIMIT_MAX_REQUESTS.
    split; [|lia]. destruct (store !! ip) as [e|] eqn:He; [|reflexivity].
    pose proof (Hc ip e He) as Hk. cbn in Hk. unfold RATE_LIMIT_MAX_REQUESTS in Hk.
    split; [reflexivity | lia].
  - destruct Hmono as [Hlo Hmono]. cbn [instant] in Hlo, Hmono. cbn [serve].
    pose proof (checkRateLimit_counted now ip' store Hc) as (Hc1 & _).
    specialize (IH now (checkRateLimit now ip' store).2 Hmono Hc1).
    destruct (decide (ip' = ip)) as [->|Hne].
    + destruct (checkRateLimit_cases now ip store)
        as [(e & Hstate & Hrun) | [(k & r0 & He & Hact & Hk & Hrun)
                                  | (k & r0 & He & Hact & Hk & Hrun)]];
        rewrite Hrun in IH |- *; cbn [fst snd] in IH;
        destruct (serve later _) as [served store2]; cbn [fst snd] in IH |- *;
        rewrite ?lookup_insert_eq in IH; cbn [Entry.resetTime Entry.count] in IH;
        destruct IH as [IHe IHall];
        assert (Hz : forall n : nat, Z.of_nat n = 0 <-> n = 0%nat) by (intros; lia).
      * destruct IHe as [IHlt IHeq].
        assert (Hsum : Z.of_nat (admitted ip r ({| at_ := now; who := ip;
                   verdict := {| allowed := true; remaining := 9;
                                 resetTime := now + RATE_LIMIT_WINDOW_MS |} |} :: served))
                       = (if now + RATE_LIMIT_WINDOW_MS =? r then 1 else 0)
                         + Z.of_nat (admitted ip r served)).
        { rewrite admitted_cons. cbn [who verdict allowed resetTime].
          by rewrite bool_decide_eq_true_2. }
        unfold RATE_LIMIT_MAX_REQUESTS, RATE_LIMIT_WINDOW_MS in *.
        assert (Hearly : r < now + 60 * 1000 ->
                  admitted ip r ({| at_ := now; who := ip;
                     verdict := {| allowed := true; remaining := 9;
                                   resetTime := now + 60 * 1000 |} |} :: served) = 0%nat).
        { intros Hr. apply Hz. rewrite Hsum.
          destruct (Z.eqb_spec (now + 60 * 1000) r); [lia|].
          rewrite (IHlt Hr). reflexivity. }
        split.
        -- destruct Hstate as [Hnone | [He Hexp]].
           ++ rewrite Hnone. intros Hr. apply Hearly. lia.
           ++ pose proof (Hc ip e He) as Hke. rewrite He.
              cbn in Hke. unfold RATE_LIMIT_MAX_REQUESTS in Hke.
              split; intros Hr; rewrite Hearly by lia; [reflexivity | lia].
        -- rewrite Hsum. destruct (Z.eqb_spec (now + 60 * 1000) r) as [Heq|_]; [|lia].
           specialize (IHeq (eq_sym Heq)). lia.
      * destruct IHe as [IHlt IHeq]. rewrite He. cbn [Entry.resetTime Entry.count].
        pose proof (Hc ip _ He) as Hke. cbn in Hke.
        assert (Hsum : Z.of_nat (admitted ip r ({| at_ := now; who := ip;
                   verdict := {| allowed := true;
                                 remaining := RATE_LIMIT_MAX_REQUESTS - (k + 1);
                                 resetTime := r0 |} |} :: served))
                       = (if r0 =? r then 1 else 0) + Z.of_nat (admitted ip r served)).
        { rewrite admitted_cons. cbn [who verdict allowed resetTime].
          by rewrite bool_decide_eq_true_2. }
        unfold RATE_LIMIT_MAX_REQUESTS in *.
        split; [split|].
        -- intros Hr. apply Hz. rewrite Hsum.
           destruct (Z.eqb_spec r0 r); [lia|]. rewrite (IHlt Hr). reflexivity.
        -- intros Hr. rewrite Hsum. rewrite (proj2 (Z.eqb_eq r0 r)) by lia.
           specialize (IHeq Hr). lia.
        -- rewrite Hsum. destruct (Z.eqb_spec r0 r) as [Heq|_]; [|lia].
           specialize (IHeq (eq_sym Heq)). lia.
      * rewrite He in IHe |- *.
        assert (Hsum : admitted ip r ({| at_ := now; who := ip;
                   verdict := {| allowed := false; remaining := 0;
                                 resetTime := r0 |} |} :: served)
                       = admitted ip r served).
        { apply Nat2Z.inj. rewrite admitted_cons. cbn [who verdict allowed].
          by rewrite andb_false_r. }
        rewrite Hsum. split; assumption.
    + rewrite (checkRateLimit_other now ip ip' store Hne) in IH.
      destruct (checkRateLimit now ip' store) as [v store1]. cbn [fst snd] in IH |- *.
      destruct (serve later store1) as [served store2]. cbn [fst snd] in IH |- *.
      assert (Hsum : admitted ip r ({| at_ := now; who := ip'; verdict := v |} :: served)
                     = admitted ip r served).
      { apply Nat2Z.inj. rewrite admitted_cons. cbn [who].
        by rewrite bool_decide_eq_false_2. }
      rewrite Hsum. destruct IH as [IHe IHall]. split; [|exact IHall].
      destruct (store !! ip); [exact IHe|]. intros Hr. apply IHe. lia.
  - destruct Hmono as [Hlo Hmono]. cbn [instant] in Hlo, Hmono. cbn [serve].
    pose proof (cleanup_subset (fun e => 1 <= Entry.count e <= _) now store Hc) as Hc1.
    specialize (IH now (cleanup now store) Hmono Hc1).
    rewrite cleanup_lookup in IH. destruct IH as [IHe IHall]. split; [|exact IHall].
    destruct (store !! ip) as [e|] eqn:He.
    + pose proof (Hc ip e He) as Hke. cbn in Hke.
      destruct (Z.ltb_spec (Entry.resetTime e) now) as [Hexp|Hact]; [|exact IHe].
      unfold RATE_LIMIT_WINDOW_MS in IHe.
      split; intros Hr; rewrite IHe by lia; [reflexivity | lia].
    + intros Hr. apply IHe. lia.
Qed.

Lemma serve_timely (ticks : list Tick) :
  forall (lo : Z) (store : gmap jsstring Entry.t),
    monotone lo ticks -> timely lo store ->
    Forall (fun s => resetTime (verdict s) <= at_ s + RATE_LIMIT_WINDOW_MS)
      (serve ticks store).1.
Proof.
  induction ticks as [|[now ip|now] later IH]; intros lo store Hmono Ht.
  - constructor.
  - destruct Hmono as [Hlo Hmono]. cbn [instant] in Hlo, Hmono. cbn [serve].
    assert (Ht' : timely now store).
    { intros i e He. specialize (Ht i e He). cbn in Ht |- *. lia. }
    assert (Hstep : timely now (checkRateLimit now ip store).2
                    /\ resetTime (checkRateLimit now ip store).1
                       <= now + RATE_LIMIT_WINDOW_MS).
    { destruct (checkRateLimit_cases now ip store)
        as [(e & Hstate & ->) | [(k & r & He & Hact & Hk & ->) | (k & r & He & Hact & Hk & ->)]];
        cbn [fst snd resetTime].
      - split; [|lia]. apply map_Forall_insert_2; [cbn; lia | exact Ht'].
      - pose proof (Ht' ip _ He) as Hr. cbn in Hr. split; [|exact Hr].
        apply map_Forall_insert_2; [exact Hr | exact Ht'].
      - pose proof (Ht' ip _ He) as Hr. cbn in Hr. by split. }
    destruct Hstep as [Ht1 Hv].
    specialize (IH now (checkRateLimit now ip store).2 Hmono Ht1).
    destruct (checkRateLimit now ip store) as [v store1]. cbn [fst snd] in *.
    destruct (serve later store1) as [served store2]. cbn [fst snd] in *.
    constructor; [exact Hv | exact IH].
  - destruct Hmono as [Hlo Hmono]. cbn [instant] in Hlo, Hmono. cbn [serve].
    apply (IH now); [exact Hmono|].
    apply (cleanup_subset (fun e => Entry.resetTime e <= _)).
    intros i e He. specialize (Ht i e He). cbn in Ht |- *. lia.
Qed.

(** X6. On a clock that never goes back, whatever the order of requests of
    any identities and of cleanups, from a store with counts between 1 and
    10 and no window ending later than one window from now (the empty one,
    for instance): an identity is admitted at most ten times into one
    window, and no answer names a reset time later than one window after
    its request. *)
Theorem serve_quota (ticks : list Tick) (lo : Z) (store : gmap jsstring Entry.t)
    (ip : jsstring) (r : Z) :
  counted store -> timely lo store -> monotone lo ticks ->
  (admitted ip r (serve ticks store).1 <= 10)%nat
  /\ Forall (fun s => resetTime (verdict s) <= at_ s + 60000) (serve ticks store).1.
Proof.
  intros Hc Ht Hmono. split.
  - pose proof (admitted_bound ip r ticks lo store Hmono Hc) as [_ Hall].
    unfold RATE_LIMIT_MAX_REQUESTS in Hall. lia.
  - exact (serve_timely ticks lo store Hmono Ht).
Qed.

Lemma serve_quota_witness :
  (admitted (str "10.0.0.1") 60000
     (serve [Request 0 (str "10.0.0.1"); Request 5 (str "10.0.0.2"); Sweep 300000;
             Request 300001 (str "10.0.0.1")] ∅).1 <= 10)%nat.
Proof.
  apply (serve_quota [Request 0 (str "10.0.0.1"); Request 5 (str "10.0.0.2");
                      Sweep 300000; Request 300001 (str "10.0.0.1")] 0 ∅).
  - apply map_Forall_empty.
  - apply map_Forall_empty.
  - cbn. lia.
Defined.

End TrafficFacts.

(** *** What every parsed response looks like *)

(** A repetition that matched took some characters of the class, within
    its bounds, and handed the rest to the continuation. *)
Lemma repeatMatcher_inv {R} (ok : Z -> bool) (k : jsstring -> option R) (r : R)
    (s : jsstring) :
  forall (lo : nat) (hi : option nat),
    repeatMatcher ok lo hi s k = Some r ->
    exists n,
      (lo <= n <= length s)%nat
      /\ match hi with Some h => (n <= h)%nat | None => True end
      /\ forallb ok (take n s) = true
      /\ k (drop n s) = Some r.
Proof.
  induction s as [|c s IH]; intros lo hi Hm.
  - exists 0%nat. destruct lo as [|lo].
    + destruct hi as [[|h]|]; cbn in Hm |- *; repeat split; try lia; exact Hm.
    + destruct hi as [[|h]|]; cbn in Hm; discriminate Hm.
  - assert (Hstop : match lo with O => k (c :: s) | S _ => None end = Some r ->
              exists n, (lo <= n <= length (c :: s))%nat
                /\ match hi with Some h => (n <= h)%nat | None => True end
                /\ forallb ok (take n (c :: s)) = true
                /\ k (drop n (c :: s)) = Some r).
    { destruct lo; [|discriminate]. intros Hk. exists 0%nat.
      repeat split; [lia | cbn; lia | destruct hi; [lia | exact I] | exact Hk]. }
    assert (Hmore : forall hi',
              hi' = Nat.pred <$> hi ->
              match hi with Some O => False | _ => True end ->
              ok c = true ->
              repeatMatcher ok (Nat.pred lo) hi' s k = Some r ->
              exists n, (lo <= n <= length (c :: s))%nat
                /\ match hi with Some h => (n <= h)%nat | None => True end
                /\ forallb ok (take n (c :: s)) = true
                /\ k (drop n (c :: s)) = Some r).
    { intros hi' -> Hhi Hc Hrec. apply IH in Hrec as (n & Hn & Hh & Hok & Hk).
      exists (S n). cbn [length take drop forallb]. rewrite Hc, Hok.
      repeat split; try lia; [|exact Hk].
      destruct hi as [[|h]|]; cbn in Hh |- *; [destruct Hhi | lia | exact I]. }
    destruct hi as [[|h]|]; cbn [repeatMatcher] in Hm.
    + by apply Hstop.
    + destruct (ok c) eqn:Hc; [|by apply Hstop].
      destruct (repeatMatcher ok (Nat.pred lo) (Nat.pred <$> Some (S h)) s k) eqn:Hrec.
      * injection Hm as ->. by apply (Hmore _ eq_refl I eq_refl).
      * by apply Hstop.
    + destruct (ok c) eqn:Hc; [|by apply Hstop].
      destruct (repeatMatcher ok (Nat.pred lo) (Nat.pred <$> None) s k) eqn:Hrec.
      * injection Hm as ->. by apply (Hmore _ eq_refl I eq_refl).
      * by apply Hstop.
Qed.

(** A match found by the search is a match at some position. *)
Lemma execFrom_inv (re : regexp) (s : jsstring) :
  forall (idx : nat) (m : MatchResult),
    execFrom re idx s = Some m ->
    exists j, (j <= length s)%nat /\ matchAt re (idx + j) (drop j s) = Some m.
Proof.
  induction s as [|c s IH]; intros idx m Hm; cbn [execFrom] in Hm.
  - destruct (matchAt re idx []) eqn:E; [|discriminate]. injection Hm as ->.
    exists 0%nat. rewrite Nat.add_0_r. by split.
  - destruct (matchAt re idx (c :: s)) eqn:E.
    + injection Hm as ->. exists 0%nat. rewrite Nat.add_0_r. split; [cbn; lia | exact E].
    + apply IH in Hm as (j & Hj & Hm). exists (S j). cbn [length drop].
      split; [lia|]. by rewrite Nat.add_succ_r.
Qed.

Lemma take_taken (n : nat) (s : jsstring) :
  (n <= length s)%nat -> take (length s - length (drop n s)) s = take n s.
Proof. intros Hn. rewrite length_drop. f_equal. lia. Qed.

(** What the language expression captures: two or three letters. *)
Lemma languagePattern_group (text : jsstring) (m : MatchResult) :
  exec languagePattern text = Some m ->
  exists code,
    group1 m = Some code /\ forallb isLetter code = true
    /\ (2 <= length code <= 3)%nat.
Proof.
  intros Hm. apply execFrom_inv in Hm as (j & _ & Hm).
  rewrite (matchAt_label languagePattern (str "LANGUAGE:") _ eq_refl eq_refl) in Hm.
  destruct (startsWithI _ _); [|discriminate].
  cbn [matcher] in Hm. set (s0 := drop (length (str "LANGUAGE:")) _) in Hm.
  apply repeatMatcher_inv in Hm as (n0 & _ & _ & _ & Hm).
  apply repeatMatcher_inv in Hm as (n & Hn & Hh & Hok & Hm).
  injection Hm as <-. cbn [group1]. eexists. split; [reflexivity|].
  rewrite take_taken by lia. split.
  - apply (forallb_class _ (charsetMatches true (OneOf [Range (cu "a") (cu "z")])));
      [|exact Hok].
    intros c. symmetry. apply class_letters.
  - rewrite length_take. lia.
Qed.

(** What the confidence expression captures begins with a digit. *)
Lemma confidencePattern_group (text : jsstring) (m : MatchResult) :
  exec confidencePattern text = Some m ->
  exists c rest, group1 m = Some (c :: rest) /\ isDigit c = true.
Proof.
  intros Hm. apply execFrom_inv in Hm as (j & _ & Hm).
  rewrite (matchAt_label confidencePattern (str "CONFIDENCE:") _ eq_refl eq_refl) in Hm.
  destruct (startsWithI _ _); [|discriminate].
  cbn [matcher] in Hm. set (s0 := drop (length (str "CONFIDENCE:")) _) in Hm.
  apply repeatMatcher_inv in Hm as (n0 & _ & _ & _ & Hm).
  set (s := drop n0 _) in Hm.
  apply repeatMatcher_inv in Hm as (n & Hn & _ & Hok & Hm).
  assert (Hend : exists s1 : jsstring, (length s1 <= length (drop n s))%nat
            /\ group1 m = Some (take (length s - length s1) s)).
  { destruct (drop n s) as [|d t] eqn:Hd.
    - injection Hm as <-. exists []. split; [cbn; lia | reflexivity].
    - destruct (charsetMatches true (Atom (Single (cu "."))) d).
      + destruct (repeatMatcher _ _ _ t _) as [m'|] eqn:Hopt.
        * injection Hm as ->.
          apply repeatMatcher_inv in Hopt as (n2 & Hn2 & _ & _ & Hopt).
          injection Hopt as <-. exists (drop n2 t). split; [|reflexivity].
          rewrite length_drop. cbn. lia.
        * injection Hm as <-. exists (d :: t). split; [lia | reflexivity].
      + injection Hm as <-. exists (d :: t). split; [lia | reflexivity]. }
  destruct Hend as (s1 & Hs1 & ->).
  rewrite length_drop in Hs1.
  destruct s as [|c s']; [cbn in Hn; lia|].
  destruct n as [|n]; [lia|]. cbn [take forallb] in Hok.
  apply andb_prop in Hok as [Hc _]. rewrite class_digit in Hc.
  exists c. cbn [length] in *.
  destruct (S (length s') - length s1)%nat as [|p] eqn:Hp; [lia|].
  cbn [take]. eexists. split; [reflexivity | exact Hc].
Qed.

Lemma toLowerCase_letters (code : jsstring) :
  forallb isLetter code = true ->
  forallb isLower (toLowerCase code) = true
  /\ length (toLowerCase code) = length code.
Proof.
  induction code as [|c code IH]; [by split|]. cbn [forallb]. intros Hc.
  apply andb_prop in Hc as [Hc Hcode]. destruct (IH Hcode) as [IHl IHn].
  unfold toLowerCase in *. cbn [flat_map]. rewrite forallb_app, length_app, IHl, IHn.
  rewrite andb_true_r. unfold isLetter in Hc. unfold lowerUnit.
  destruct (isUpper c) eqn:Hu; cbn [forallb length].
  - split; [|reflexivity]. rewrite andb_true_r. unfold isUpper, isLower in *.
    apply andb_prop in Hu as [H1 H2]. apply Z.leb_le in H1, H2.
    apply andb_true_intro. split; apply Z.leb_le; lia.
  - cbn [orb] in Hc. pose proof Hc as Hl. unfold isLower in Hl.
    apply andb_prop in Hl as [H1 H2]. apply Z.leb_le in H1, H2.
    replace (c =? 0x130) with false by (symmetry; apply Z.eqb_neq; lia).
    replace (c =? 0x212A) with false by (symmetry; apply Z.eqb_neq; lia).
    cbn [forallb length]. by rewrite Hc.
Qed.

Lemma detectLanguageFromText_codes (text : jsstring) :
  detectLanguageFromText text
  ∈ [str "zh"; str "ja"; str "ko"; str "ar"; str "ru"; str "th"; str "he"; str "en"].
Proof.
  unfold detectLanguageFromText.
  repeat match goal with
         | |- context [if ?b then _ else _] => destruct b
         end; set_solver.
Qed.

(** X7. The language of every parsed response is two or three lower-case
    Basic Latin letters: the letters after the LANGUAGE: marker in lower
    case, or, without the marker, one of the eight codes of the detector. *)
Theorem parseExtractionResponse_language (text : jsstring) :
  forallb isLower (Parser.language (parseExtractionResponse text)) = true
  /\ (2 <= length (Parser.language (parseExtractionResponse text)) <= 3)%nat
  /\ (exec languagePattern text = None ->
      Parser.language (parseExtractionResponse text)
      ∈ [str "zh"; str "ja"; str "ko"; str "ar"; str "ru"; str "th"; str "he"; str "en"]).
Proof.
  unfold parseExtractionResponse.
  destruct (exec languagePattern text) as [m|] eqn:Hl.
  - destruct (languagePattern_group text m Hl) as (code & -> & Hcode & Hlen).
    destruct (toLowerCase_letters code Hcode) as [Hlow Hn].
    destruct (exec confidencePattern text); cbn [Parser.language default from_option id];
      rewrite Hlow, Hn; (split; [reflexivity|]); (split; [exact Hlen | discriminate]).
  - assert (Hcodes : forall t,
              forallb isLower (detectLanguageFromText t) = true
              /\ (2 <= length (detectLanguageFromText t) <= 3)%nat
              /\ detectLanguageFromText t
                 ∈ [str "zh"; str "ja"; str "ko"; str "ar"; str "ru"; str "th";
                    str "he"; str "en"]).
    { intros t. pose proof (detectLanguageFromText_codes t) as Hin.
      split; [|split; [|exact Hin]];
        repeat (apply elem_of_cons in Hin as [-> | Hin]; [cbn; first [reflexivity | lia]|]);
        by apply elem_of_nil in Hin. }
    destruct (exec confidencePattern text); cbn [Parser.language];
      (split; [apply Hcodes | split; [apply Hcodes | intros _; apply Hcodes]]).
Qed.

Lemma digitsValue_nonneg (ds : jsstring) :
  forall acc, 0 <= acc -> forallb isDigit ds = true -> 0 <= digitsValue acc ds.
Proof.
  induction ds as [|d ds IH]; intros acc Hacc Hds; [exact Hacc|].
  cbn [forallb] in Hds. apply andb_prop in Hds as [Hd Hds]. cbn [digitsValue].
  apply IH; [|exact Hds]. unfold isDigit in Hd. apply andb_prop in Hd as [H1 H2].
  apply Z.leb_le in H1, H2. lia.
Qed.

(** A text that begins with a digit reads as a number that is not
    negative. *)
Lemma parseFloat_digit_head (c : Z) (rest : jsstring) :
  isDigit c = true -> exists q, parseFloat (c :: rest) = Num q /\ (0 <= q)%Q.
Proof.
  intros Hc.
  assert (Hip : forallb isDigit (takeWhile isDigit rest) = true)
    by apply takeWhile_forallb.
  assert (Hfp : forallb isDigit
                  match dropWhile isDigit rest with
                  | 46 :: r => takeWhile isDigit r
                  | _ => []
                  end = true).
  { destruct (dropWhile isDigit rest) as [|d r]; [reflexivity|].
    repeat match goal with
           | |- context [match ?x with _ => _ end] => destruct x
           end; first [reflexivity | apply takeWhile_forallb]. }
  pose proof Hc as Hr. unfold isDigit in Hr. apply andb_prop in Hr as [H1 H2].
  apply Z.leb_le in H1, H2.
  assert (Hcases : c = 48 \/ c = 49 \/ c = 50 \/ c = 51 \/ c = 52 \/ c = 53
                   \/ c = 54 \/ c = 55 \/ c = 56 \/ c = 57) by lia.
  unfold parseFloat, trimStart.
  repeat (destruct Hcases as [-> | Hcases]); try subst c;
    cbn [dropWhile takeWhile isWhiteSpace isDigit Z.leb Z.eqb Z.compare Pos.compare
         Pos.compare_cont Pos.eqb andb orb].
  all: eexists; (split; [reflexivity|]).
  all: unfold Qle; cbn [Qnum Qden]; rewrite Z.mul_1_r.
  all: apply Z.add_nonneg_nonneg;
    [apply Z.mul_nonneg_nonneg; [|apply Z.pow_nonneg; lia]|];
    apply digitsValue_nonneg; try lia; try exact Hfp;
    cbn [forallb]; rewrite Hip; reflexivity.
Qed.

(** X8. The confidence of every parsed response is a number that is not
    negative (never NaN); without the CONFIDENCE: marker it is at most 100
    as well. *)
Theorem parseExtractionResponse_confidence (text : jsstring) :
  exists q,
    Parser.confidence (parseExtractionResponse text) = Num q
    /\ (0 <= q)%Q
    /\ (exec confidencePattern text = None -> (q <= 100)%Q).
Proof.
  destruct (exec confidencePattern text) as [m|] eqn:Hc.
  - destruct (confidencePattern_group text m Hc) as (c & rest & Hg & Hd).
    destruct (parseFloat_digit_head c rest Hd) as (q & Hq & Hpos).
    exists q. unfold parseExtractionResponse. rewrite Hc, Hg.
    destruct (exec languagePattern text);
      cbn [Parser.confidence default from_option id]; rewrite Hq;
      (split; [reflexivity | split; [exact Hpos | discriminate]]).
  - pose proof (parse_confidence_estimated text Hc) as Hp.
    destruct (Parser.confidence (parseExtractionResponse text)) as [q|]; [|destruct Hp].
    exists q. destruct Hp as [Hlo Hhi]. by repeat split.
Qed.

Lemma sublist_dropWhile (p : Z -> bool) (s : jsstring) : dropWhile p s `sublist_of` s.
Proof.
  induction s as [|c s IH]; cbn; [constructor|].
  destruct (p c); [by apply sublist_cons | reflexivity].
Qed.

Lemma sublist_rev (s t : jsstring) : s `sublist_of` t -> rev s `sublist_of` rev t.
Proof.
  induction 1 as [|x s t _ IH|x s t _ IH]; cbn [rev].
  - constructor.
  - by apply sublist_app.
  - by apply sublist_inserts_r.
Qed.

Lemma sublist_trim (s : jsstring) : trim s `sublist_of` s.
Proof.
  unfold trim, trimEnd, trimStart.
  transitivity (dropWhile isWhiteSpace s); [|apply sublist_dropWhile].
  rewrite <- (rev_involutive (dropWhile isWhiteSpace s)) at 2.
  apply sublist_rev, sublist_dropWhile.
Qed.

Lemma sublist_remove (re : regexp) (text : jsstring) : remove re text `sublist_of` text.
Proof.
  unfold remove. destruct (exec re text) as [m|]; [|reflexivity].
  rewrite <- (take_drop (index m) text) at 3.
  apply sublist_app; [reflexivity|].
  rewrite <- drop_drop. apply sublist_drop.
Qed.

Lemma last_rev (s : jsstring) : last (rev s) = head s.
Proof. destruct s as [|c s]; [reflexivity|]. cbn [rev head]. apply last_snoc. Qed.

Lemma trim_ends (s : jsstring) (c : Z) :
  head (trim s) = Some c \/ last (trim s) = Some c -> isWhiteSpace c = false.
Proof.
  intros [Hc|Hc].
  - pose proof (trimEnd_head (trimStart s) (dropWhile_head isWhiteSpace s)) as Hh.
    fold (trim s) in Hh. destruct (trim s); [discriminate|].
    injection Hc as <-. exact Hh.
  - unfold trim, trimEnd in Hc. rewrite last_rev in Hc.
    pose proof (dropWhile_head isWhiteSpace (rev (trimStart s))) as Hh.
    destruct (dropWhile isWhiteSpace (rev (trimStart s))); [discriminate|].
    injection Hc as <-. exact Hh.
Qed.

(** X9. The text of every parsed response is cut out of the response: its
    characters are characters of the response in their order, nothing is
    added or moved; and it neither begins nor ends with white space, so
    trimming it again changes nothing. *)
Theorem parseExtractionResponse_text (text : jsstring) :
  Parser.extractedText (parseExtractionResponse text) `sublist_of` text
  /\ (length (Parser.extractedText (parseExtractionResponse text)) <= length text)%nat
  /\ trim (Parser.extractedText (parseExtractionResponse text))
     = Parser.extractedText (parseExtractionResponse text)
  /\ (forall c,
        head (Parser.extractedText (parseExtractionResponse text)) = Some c
        \/ last (Parser.extractedText (parseExtractionResponse text)) = Some c ->
        isWhiteSpace c = false).
Proof.
  assert (Hsub : Parser.extractedText (parseExtractionResponse text) `sublist_of` text).
  { unfold parseExtractionResponse.
    destruct (exec languagePattern text), (exec confidencePattern text);
      cbn [Parser.extractedText]; (etransitivity; [apply sublist_trim|]);
      repeat (etransitivity; [apply sublist_remove|]); reflexivity. }
  split; [exact Hsub|]. split; [by apply sublist_length|].
  unfold parseExtractionResponse.
  destruct (exec languagePattern text), (exec confidencePattern text);
    cbn [Parser.extractedText]; (split; [apply trim_idem | apply trim_ends]).
Qed.

(** *** Every run of the retry loop *)

Section AttemptsFacts.
Import Extraction Attempts.
Context `{Platform}.
Variable upstream : nat -> ChatRequest -> outcome ChatCompletion.

Lemma attemptLoop_last (request : ChatRequest) (remaining : nat)
    (lastError : option thrown) (e : thrown) :
  upstream 2 request = Threw e -> isTerminal e = false ->
  attemptLoop upstream request (S remaining) 2 lastError
  = (Threw (Error (handleApiError e 2)), [ApiCall 2]).
Proof.
  intros Hup Hterm. cbn [attemptLoop]. unmonad. rewrite Hup.
  unfold isTerminal in Hterm. rewrite Hterm.
  change (2 <? maxRetries - 1)%nat with false. rewrite andb_false_r.
  reflexivity.
Qed.

Lemma extractTextFromImage_cases (imageBuffer : Buffer + jsstring)
    (mimeType model : jsstring) (options : ImageProcessingOptions) :
  (validateImageFormat mimeType = true ->
   exists request errors,
     (length errors <= 2)%nat
     /\ (forall j e, errors !! j = Some e ->
           upstream j request = Threw e /\ isTerminal e = false)
     /\ network (extractTextFromImage upstream imageBuffer mimeType model options).2
        = retried 0 errors ++ [ApiCall (length errors)]
     /\ match upstream (length errors) request with
        | Returned response =>
            (extractTextFromImage upstream imageBuffer mimeType model options).1
            = Returned (resultOf response)
        | Threw e =>
            (extractTextFromImage upstream imageBuffer mimeType model options).1
            = Threw (Error (handleApiError e (if isTerminal e then 0 else 2)))
            /\ (isTerminal e = false -> length errors = 2%nat)
        end)
  /\ (validateImageFormat mimeType = false ->
      extractTextFromImage upstream imageBuffer mimeType model options
      = (Threw (Error (str "Unsupported image format: " ++ mimeType
                       ++ str ". Supported formats: PNG, JPEG, WebP, HEIC")), [])).
Proof.
  split; [|by intros Hbad; unfold extractTextFromImage; rewrite Hbad].
  intros Hvalid.
  destruct (extractTextFromImage_loop upstream imageBuffer mimeType model options Hvalid)
    as (request & before & Hbefore & ->).
  cbn [fst snd]. exists request.
  assert (Hnet : forall l, network (before ++ l) = network l)
    by (intros l; by rewrite network_app, Hbefore).
  unfold maxRetries.
  assert (Hnone : forall j e, @nil thrown !! j = Some e ->
            upstream j request = Threw e /\ isTerminal e = false)
    by (intros j e Hj; discriminate Hj).
  destruct (upstream 0 request) as [r0|e0] eqn:H0.
  { exists []. rewrite (attemptLoop_success upstream request _ 0 None r0 H0), Hnet.
    cbn [length]. rewrite H0.
    split; [lia|]. split; [exact Hnone|]. by split. }
  destruct (isTerminal e0) eqn:T0.
  { exists []. rewrite (attemptLoop_terminal upstream request _ 0 None e0 H0 T0), Hnet.
    cbn [length]. rewrite H0, T0.
    split; [lia|]. split; [exact Hnone|]. by repeat split. }
  rewrite (attemptLoop_retry upstream request _ 0 None e0 H0 T0) by (unfold maxRetries; lia).
  assert (Hone : forall j e, [e0] !! j = Some e ->
            upstream j request = Threw e /\ isTerminal e = false).
  { intros [|j] e Hj; [injection Hj as <-; by split | discriminate Hj]. }
  destruct (upstream 1 request) as [r1|e1] eqn:H1.
  { exists [e0]. rewrite (attemptLoop_success upstream request _ 1 _ r1 H1). cbn [bind fst snd].
    rewrite Hnet. cbn [length]. rewrite H1.
    split; [lia|]. split; [exact Hone|]. by split. }
  destruct (isTerminal e1) eqn:T1.
  { exists [e0]. rewrite (attemptLoop_terminal upstream request _ 1 _ e1 H1 T1).
    cbn [bind fst snd]. rewrite Hnet. cbn [length]. rewrite H1, T1.
    split; [lia|]. split; [exact Hone|]. by repeat split. }
  rewrite (attemptLoop_retry upstream request _ 1 _ e1 H1 T1) by (unfold maxRetries; lia).
  assert (Herrors : forall j e, [e0; e1] !! j = Some e ->
            upstream j request = Threw e /\ isTerminal e = false).
  { intros [|[|j]] e Hj; try discriminate Hj; injection Hj as <-; by split. }
  exists [e0; e1]. cbn [length]. split; [lia|]. split; [exact Herrors|].
  destruct (upstream 2 request) as [r2|e2] eqn:H2.
  { rewrite (attemptLoop_success upstream request _ 2 _ r2 H2). cbn [bind fst snd].
    rewrite Hnet. by split. }
  destruct (isTerminal e2) eqn:T2.
  { rewrite (attemptLoop_terminal upstream request _ 2 _ e2 H2 T2). cbn [bind fst snd].
    rewrite Hnet. by repeat split. }
  rewrite (attemptLoop_last request _ _ e2 H2 T2). cbn [bind fst snd].
  rewrite Hnet. by repeat split.
Qed.


(** X10. Every extraction of an image of a supported type calls the model
    at least once and at most three times, each failed call that is tried
    again being followed by its delay; a call is tried again exactly when
    it failed with an error other than 401, 402 and 404 and was not the
    third; the answer of the last call decides: a response is parsed and
    returned, an error is thrown as an [Error] that carries the message of
    [handleApiError].  An image of another type fails at once, nothing
    having been called. *)
Theorem extractTextFromImage_attempts (imageBuffer : Buffer + jsstring)
    (mimeType model : jsstring) (options : ImageProcessingOptions) :
  (validateImageFormat mimeType = true ->
   exists request errors,
     (length errors <= 2)%nat
     /\ (forall j e, errors !! j = Some e ->
           upstream j request = Threw e /\ isTerminal e = false)
     /\ network (extractTextFromImage upstream imageBuffer mimeType model options).2
        = retried 0 errors ++ [ApiCall (length errors)]
     /\ match upstream (length errors) request with
        | Returned response =>
            (extractTextFromImage upstream imageBuffer mimeType model options).1
            = Returned (resultOf response)
        | Threw e =>
            (extractTextFromImage upstream imageBuffer mimeType model options).1
            = Threw (Error (handleApiError e (if isTerminal e then 0 else 2)))
            /\ (isTerminal e = false -> length errors = 2%nat)
        end)
  /\ (validateImageFormat mimeType = false ->
      extractTextFromImage upstream imageBuffer mimeType model options
      = (Threw (Error (str "Unsupported image format: " ++ mimeType
                       ++ str ". Supported formats: PNG, JPEG, WebP, HEIC")), [])).
Proof. apply extractTextFromImage_cases. Qed.

End AttemptsFacts.

Lemma extractTextFromImage_attempts_witness :
  exists request errors,
    (length errors <= 2)%nat
    /\ network (@Extraction.extractTextFromImage (stubPlatform true) flakyUpstream
                  (inl threeBytes) (str "image/png") (str "gpt-4o") noOptions).2
       = Attempts.retried 0 errors ++ [ApiCall (length errors)]
    /\ match flakyUpstream (length errors) request with
       | Returned response =>
           (@Extraction.extractTextFromImage (stubPlatform true) flakyUpstream
              (inl threeBytes) (str "image/png") (str "gpt-4o") noOptions).1
           = Returned (Extraction.resultOf response)
       | Threw e =>
           (@Extraction.extractTextFromImage (stubPlatform true) flakyUpstream
              (inl threeBytes) (str "image/png") (str "gpt-4o") noOptions).1
           = Threw (Error (Extraction.handleApiError e (if isTerminal e then 0 else 2)))
           /\ (isTerminal e = false -> length errors = 2%nat)
       end.
Proof.
  destruct (proj1 (@extractTextFromImage_attempts (stubPlatform true) flakyUpstream
                     (inl threeBytes) (str "image/png") (str "gpt-4o") noOptions)
              eq_refl) as (request & errors & Hlen & _ & Hnet & Hlast).
  exists request, errors. by repeat split.
Defined.

(** *** Where a normalized image comes from *)

Section Provenance.
Context `{Platform}.

(** X11. What [compressImageIfNeeded] returns is either the buffer it was
    given, under the MIME type it was given, with no dimensions or with
    those the library read from that buffer; or the output of the last
    encoding of the run, which is an encoding of the buffer it was given,
    under the MIME type it was given or image/jpeg (the latter for PNG and
    HEIC/HEIF input only), with the dimensions the library read from that
    output. *)
Theorem compressImageIfNeeded_provenance (buffer : Buffer) (mimeType : jsstring)
    (options : ImageProcessingOptions) (result : Compressed) :
  (compressImageIfNeeded buffer mimeType options).1 = Returned result ->
  (Images.buffer result = buffer /\ Images.mimeType result = mimeType
   /\ ((outWidth result = None /\ outHeight result = None)
       \/ sharpMetadata {| input := buffer; ops := [] |}
          = Returned {| width := outWidth result; height := outHeight result |}))
  \/ (exists image,
        last (encodings (compressImageIfNeeded buffer mimeType options).2) = Some image
        /\ input image = buffer
        /\ sharpToBuffer image = Returned (Images.buffer result)
        /\ (Images.mimeType result = mimeType
            \/ (Images.mimeType result = str "image/jpeg"
                /\ (mimeType = str "image/png"
                    \/ includes mimeType (str "heic") = true
                    \/ includes mimeType (str "heif") = true)))
        /\ sharpMetadata {| input := Images.buffer result; ops := [] |}
           = Returned {| width := outWidth result; height := outHeight result |}).
Proof.
  unfold compressImageIfNeeded. unmonad. cbv zeta.
  generalize (orElse (maxSize options) MAX_IMAGE_SIZE) as ms.
  generalize (orElse (maxDimension options) MAX_IMAGE_DIMENSION) as md.
  generalize (orElse (quality options) 85) as q.
  intros q md ms.
  match goal with
  | |- (?m).1 = _ -> _ => destruct m as [r log] eqn:Hrun
  end.
  cbn [fst snd]. intros ->.
  exec_in Hrun.
  all: injection Hrun as <- <-.
  all: cbn [Images.buffer Images.mimeType outWidth outHeight].
  all: repeat match goal with
       | m : Metadata |- _ => destruct m
       end; cbn [width height] in *.
  all: try (left; split; [reflexivity|]; split; [reflexivity|];
            first [left; split; reflexivity | right; first [reflexivity | assumption]]).
  all: right; eexists; (split; [cbn; reflexivity|]); (split; [reflexivity|]);
       (split; [first [eassumption | reflexivity]|]);
       (split; [|first [eassumption | reflexivity]]).
  all: try (left; reflexivity).
  all: right; (split; [reflexivity|]).
  all: repeat match goal with
       | E : _ && _ = true |- _ => apply andb_prop in E as [? ?]
       | E : _ || _ = true |- _ => apply orb_prop in E as [?|?]
       | E : strictEq _ _ = true |- _ => apply bool_decide_eq_true in E
       end.
  all: first [left; assumption | right; left; assumption | right; right; assumption].
Qed.
End Provenance.

Lemma compressImageIfNeeded_provenance_witness :
  exists image,
    last (encodings (@compressImageIfNeeded (stubPlatform true) threeBytes
                       (str "image/jpeg") tightOptions).2) = Some image
    /\ input image = threeBytes
    /\ @sharpToBuffer (stubPlatform true) image = Returned [Byte.x00].
Proof.
  destruct (@compressImageIfNeeded_provenance (stubPlatform true) threeBytes
              (str "image/jpeg") tightOptions
              {| Images.buffer := [Byte.x00]; Images.mimeType := str "image/jpeg";
                 outWidth := Some 4000; outHeight := Some 3000 |} eq_refl)
    as [(Hsame & _) | (image & Hlast & Hinput & Hout & _)].
  - discriminate Hsame.
  - exists image. by repeat split.
Defined.

Section PassThrough.
Context `{Platform}.

(** X12. With a library that accepts the buffer and reads its dimensions:
    an image that is within the size limit and whose dimensions are known
    and within the dimension limit is returned as it is after those two
    calls, with the dimensions read, and is never encoded; any other image
    is handed to the encoder, resized first exactly when a dimension
    exceeds the limit. *)
Theorem compressImageIfNeeded_passthrough (buffer : Buffer) (mimeType : jsstring)
    (options : ImageProcessingOptions) (w h : option Z) :
  let maxSize := orElse (maxSize options) MAX_IMAGE_SIZE in
  let maxDimension := orElse (maxDimension options) MAX_IMAGE_DIMENSION in
  let within :=
    (byteLength buffer <=? maxSize) && present w && present h
    && (default 0 w <=? maxDimension) && (default 0 h <=? maxDimension) in
  sharpConstruct buffer = Returned tt ->
  sharpMetadata {| input := buffer; ops := [] |}
  = Returned {| width := w; height := h |} ->
  (within = true ->
   compressImageIfNeeded buffer mimeType options
   = (Returned {| Images.buffer := buffer; Images.mimeType := mimeType;
                  outWidth := w; outHeight := h |},
      [SharpCall (Construct buffer) false;
       SharpCall (ReadMetadata {| input := buffer; ops := [] |}) false]))
  /\ (within = false ->
      existsb threwEvent (compressImageIfNeeded buffer mimeType options).2 = false ->
      exists first later,
        encodings (compressImageIfNeeded buffer mimeType options).2 = first :: later
        /\ input first = buffer
        /\ (Resize maxDimension maxDimension ∈ ops first
            <-> maxDimension < orElse w 0 \/ maxDimension < orElse h 0)).
Proof.
  cbv zeta. unfold compressImageIfNeeded. unmonad. cbv zeta.
  generalize (orElse (maxSize options) MAX_IMAGE_SIZE) as ms.
  generalize (orElse (maxDimension options) MAX_IMAGE_DIMENSION) as md.
  generalize (orElse (quality options) 85) as q.
  intros q md ms Hconstruct Hmeta. split.
  - intros Hwithin.
    apply andb_prop in Hwithin as [Hwithin Hh]. apply andb_prop in Hwithin as [Hwithin Hw].
    apply andb_prop in Hwithin as [Hwithin Hph]. apply andb_prop in Hwithin as [Hsize Hpw].
    rewrite Hsize.
    cbv beta iota zeta delta
      [bind tryCatch perform ret sharp readMetadata isThrow mbind run_bind mret run_ret app].
    rewrite Hconstruct. cbv beta iota. rewrite Hmeta. cbv beta iota.
    cbn [width height]. rewrite Hpw, Hph, Hw, Hh. reflexivity.
  - intros Hwithin Hclean.
    match type of Hclean with
    | existsb threwEvent (?m).2 = false => destruct m as [r log] eqn:Hrun
    end.
    cbn [fst snd] in *.
    exec_in Hrun.
    all: injection Hrun as <- <-.
    all: cbn in Hclean; try discriminate Hclean.
    all: repeat match goal with
         | E : @Returned _ _ = Returned _ |- _ => injection E as ?; subst
         end; cbn [width height] in *.
    all: try (cbn [andb] in Hwithin; congruence).
    all: do 2 eexists; (split; [cbn; reflexivity|]); (split; [reflexivity|]).
    all: cbn [ops].
    all: match goal with
         | E : (_ <? _) || (_ <? _) = true |- _ =>
             split; [intros _; apply orb_prop in E as [E|E]; apply Z.ltb_lt in E;
                     [left | right]; exact E
                    | intros _; apply elem_of_cons; left; reflexivity]
         | E : (_ <? _) || (_ <? _) = false |- _ =>
             apply orb_false_elim in E as [E1 E2]; apply Z.ltb_ge in E1, E2;
             split; [|lia]; intros Hin;
             repeat (apply elem_of_cons in Hin as [Hin|Hin]; [discriminate Hin|]);
             by apply elem_of_nil in Hin
         end.
Qed.

End PassThrough.

Lemma compressImageIfNeeded_passthrough_witness :
  @compressImageIfNeeded (stubPlatform true) threeBytes (str "image/png")
    {| maxSize := None; maxDimension := Some 4000; quality := None |}
  = (Returned {| Images.buffer := threeBytes; Images.mimeType := str "image/png";
                 outWidth := Some 4000; outHeight := Some 3000 |},
     [SharpCall (Construct threeBytes) false;
      SharpCall (ReadMetadata {| input := threeBytes; ops := [] |}) false]).
Proof.
  apply (proj1 (@compressImageIfNeeded_passthrough (stubPlatform true) threeBytes
                  (str "image/png")
                  {| maxSize := None; maxDimension := Some 4000; quality := None |}
                  (Some 4000) (Some 3000) eq_refl eq_refl)).
  reflexivity.
Defined.

Section SecondEncoder.
Context `{Platform}.

(** X13. On a run with a second compression pass in which no library call
    throws, the second encoder is chosen by the MIME type of the first
    pass and that type is what is returned: the JPEG encoder for
    image/jpeg and image/jpg; for every other type the WebP encoder, the
    type returned being the one that was given.  A PNG of at most 500 KB
    that needs a second pass is thus returned as image/png with bytes from
    the WebP encoder. *)
Theorem compressImageIfNeeded_second_encoder (buffer : Buffer) (mimeType : jsstring)
    (options : ImageProcessingOptions) (first second : Image) (result : Compressed) :
  let maxDimension := orElse (maxDimension options) MAX_IMAGE_DIMENSION in
  existsb threwEvent (compressImageIfNeeded buffer mimeType options).2 = false ->
  encodings (compressImageIfNeeded buffer mimeType options).2 = [first; second] ->
  (compressImageIfNeeded buffer mimeType options).1 = Returned result ->
  sharpToBuffer second = Returned (Images.buffer result)
  /\ ((exists reduced,
         ops second = [Resize maxDimension maxDimension; Jpeg reduced]
         /\ (Images.mimeType result = str "image/jpeg"
             \/ Images.mimeType result = str "image/jpg"))
      \/ (exists reduced,
            ops second = [Resize maxDimension maxDimension; Webp reduced]
            /\ Images.mimeType result = mimeType
            /\ mimeType <> str "image/jpeg" /\ mimeType <> str "image/jpg")).
Proof.
  cbv zeta. unfold compressImageIfNeeded. unmonad. cbv zeta.
  generalize (orElse (maxSize options) MAX_IMAGE_SIZE) as ms.
  generalize (orElse (maxDimension options) MAX_IMAGE_DIMENSION) as md.
  generalize (orElse (quality options) 85) as q.
  intros q md ms Hclean Henc Hres.
  match type of Hclean with
  | existsb threwEvent (?m).2 = false => destruct m as [r log] eqn:Hrun
  end.
  cbn [fst snd] in *. subst r.
  exec_in Hrun.
  all: injection Hrun as <- <-.
  all: cbn in Hclean; try discriminate Hclean.
  all: cbn in Henc; try discriminate Henc.
  all: injection Henc as <- <-.
  all: cbn [Images.buffer Images.mimeType ops].
  all: split; [assumption|].
  all: repeat match goal with
       | E : strictEq _ _ || strictEq _ _ = true |- _ =>
           apply orb_prop in E as [E|E]; apply bool_decide_eq_true in E
       | E : strictEq _ _ || strictEq _ _ = false |- _ =>
           apply orb_false_elim in E as [? ?]
       | E : strictEq _ _ = false |- _ => apply bool_decide_eq_false in E
       end.
  all: first
         [ left; eexists; split; [reflexivity|];
           first [left; first [reflexivity | assumption]
                 | right; first [reflexivity | assumption]]
         | right; eexists; split; [reflexivity|]; split; [reflexivity|];
           split; assumption ].
Qed.
End SecondEncoder.

Lemma compressImageIfNeeded_second_encoder_witness :
  exists result,
    (@compressImageIfNeeded (stubPlatform true) threeBytes (str "image/png")
       tightOptions).1 = Returned result
    /\ Images.mimeType result = str "image/png"
    /\ @sharpToBuffer (stubPlatform true)
         {| input := threeBytes; ops := [Resize 2048 2048; Webp 65] |}
       = Returned (Images.buffer result).
Proof.
  eexists. split; [reflexivity|].
  destruct (@compressImageIfNeeded_second_encoder (stubPlatform true) threeBytes
              (str "image/png") tightOptions
              {| input := threeBytes; ops := [Resize 2048 2048] |}
              {| input := threeBytes; ops := [Resize 2048 2048; Webp 65] |}
              _ eq_refl eq_refl eq_refl) as (Hout & Hcases).
  split; [|exact Hout].
  destruct Hcases as [(reduced & Hops & _) | (reduced & _ & Hmime & _)];
    [discriminate Hops | exact Hmime].
Defined.

(** *** Documents: saving, finding, deleting, listing *)

Section DocumentsFacts.
Import Store Documents.
Context `{Driver}.

Lemma deleteOne_findOne (objectId : ObjectId) (docs : list Screenshot) :
  match findOne objectId docs with
  | Some d =>
      exists before after,
        docs = before ++ d :: after
        /\ _id d = objectId
        /\ (forall x, x ∈ before -> _id x <> objectId)
        /\ deleteOne objectId docs = (1, before ++ after)
  | None =>
      (forall x, x ∈ docs -> _id x <> objectId)
      /\ deleteOne objectId docs = (0, docs)
  end.
Proof.
  unfold findOne. induction docs as [|x docs IH]; cbn [find deleteOne].
  - split; [|reflexivity]. intros x Hx. by apply elem_of_nil in Hx.
  - destruct (decide (_id x = objectId)) as [Heq|Hne].
    + rewrite bool_decide_eq_true_2 by exact Heq.
      exists [], docs. repeat split; try assumption.
      intros y Hy. by apply elem_of_nil in Hy.
    + rewrite bool_decide_eq_false_2 by exact Hne.
      destruct (find _ docs) as [d|].
      * destruct IH as (before & after & -> & Hid & Hbefore & ->).
        exists (x :: before), after. repeat split; try assumption.
        intros y Hy. apply elem_of_cons in Hy as [-> | Hy]; [exact Hne | by apply Hbefore].
      * destruct IH as [Hall ->]. split; [|reflexivity].
        intros y Hy. apply elem_of_cons in Hy as [-> | Hy]; [exact Hne | by apply Hall].
Qed.

Lemma findOne_absent (objectId : ObjectId) (docs : list Screenshot) :
  (forall x, x ∈ docs -> _id x <> objectId) -> findOne objectId docs = None.
Proof.
  intros Hall. pose proof (deleteOne_findOne objectId docs) as Hcase.
  destruct (findOne objectId docs) as [d|]; [|reflexivity].
  destruct Hcase as (before & after & -> & Hid & _).
  exfalso. apply (Hall d); [|exact Hid]. apply elem_of_app. right. by left.
Qed.

Lemma findOne_app (objectId : ObjectId) (docs more : list Screenshot) :
  findOne objectId (docs ++ more)
  = match findOne objectId docs with
    | Some d => Some d
    | None => findOne objectId more
    end.
Proof.
  unfold findOne. induction docs as [|x docs IH]; cbn [app find]; [reflexivity|].
  destruct (bool_decide (_id x = objectId)); [reflexivity | exact IH].
Qed.

(** X14. With the collection at hand, a deletion by an identifier answers
    true exactly when a lookup by that identifier finds a document; it then
    removes that one document and nothing else, and, identifiers being all
    different, a lookup afterwards finds nothing under the identifier and
    what it found before under every other. *)
Theorem deleteScreenshot_then_getScreenshotById (id : jsstring) (db : Database) :
  connection db = Returned tt ->
  ((deleteScreenshot id db).1 = Returned true
   <-> exists d, getScreenshotById id db = Returned (Some d))
  /\ (forall d,
        getScreenshotById id db = Returned (Some d) ->
        exists before after,
          screenshots db = before ++ d :: after
          /\ screenshots (deleteScreenshot id db).2 = before ++ after
          /\ (NoDup (map _id (screenshots db)) ->
              getScreenshotById id (deleteScreenshot id db).2 = Returned None
              /\ forall other objectId,
                   newObjectId other = Returned objectId -> objectId <> _id d ->
                   getScreenshotById other (deleteScreenshot id db).2
                   = getScreenshotById other db)).
Proof.
  intros Hconn. destruct db as [conn docs]. cbn [connection] in Hconn. subst conn.
  unfold deleteScreenshot, getScreenshotById, getCollection.
  cbn [connection screenshots].
  destruct (newObjectId id) as [objectId|e] eqn:Hid.
  2: { split; [split; [discriminate | intros [d Hd]; discriminate Hd]|].
       intros d Hd. discriminate Hd. }
  pose proof (deleteOne_findOne objectId docs) as Hcase.
  destruct (findOne objectId docs) as [d|] eqn:Hfind.
  - destruct Hcase as (before & after & -> & Hd & Hbefore & Hdel). rewrite Hdel.
    cbn [fst snd connection screenshots]. split; [split; [by exists d | reflexivity]|].
    intros d' Hd'. injection Hd' as <-. exists before, after.
    split; [reflexivity|]. split; [reflexivity|]. intros Hnodup.
    rewrite map_app in Hnodup. cbn [map] in Hnodup.
    apply NoDup_app in Hnodup as (_ & Hdisjoint & Hafter).
    apply NoDup_cons in Hafter as [Hnotin _].
    assert (Hgone : forall x, x ∈ before ++ after -> _id x <> objectId).
    { intros x Hx. apply elem_of_app in Hx as [Hx|Hx]; [by apply Hbefore|].
      intros Heq. apply Hnotin. rewrite Hd, <- Heq.
      by apply list_elem_of_In, in_map, list_elem_of_In. }
    split; [by rewrite (findOne_absent objectId _ Hgone)|].
    intros other objectId' -> Hne. f_equal.
    rewrite !findOne_app. destruct (findOne objectId' before); [reflexivity|].
    unfold findOne. cbn [find]. rewrite bool_decide_eq_false_2 by congruence.
    reflexivity.
  - destruct Hcase as [_ ->]. cbn [fst snd].
    split; [split; [discriminate | intros [d Hd]; discriminate Hd]|].
    intros d Hd. discriminate Hd.
Qed.

End DocumentsFacts.

Lemma deleteScreenshot_then_getScreenshotById_witness :
  (@Store.deleteScreenshot Store.hexObjectId (str "0123456789abcdef01234567")
     sampleDatabase).1 = Returned true
  <-> exists d,
        @Documents.getScreenshotById Store.hexObjectId
          (str "0123456789abcdef01234567") sampleDatabase = Returned (Some d).
Proof.
  exact (proj1 (@deleteScreenshot_then_getScreenshotById Store.hexObjectId
                  (str "0123456789abcdef01234567") sampleDatabase eq_refl)).
Defined.

Section SavingFacts.
Import Store Documents.
Context `{Driver}.

Lemma deleteOne_last (objectId : ObjectId) (docs : list Screenshot) (d : Screenshot) :
  (forall x, x ∈ docs -> _id x <> objectId) -> _id d = objectId ->
  deleteOne objectId (docs ++ [d]) = (1, docs).
Proof.
  intros Hfresh Hd. induction docs as [|x docs IH]; cbn [app deleteOne].
  - by rewrite decide_True.
  - rewrite decide_False by (apply Hfresh; by left).
    rewrite IH; [reflexivity|]. intros y Hy. apply Hfresh. by right.
Qed.

(** X15. With the collection at hand and an identifier from the driver
    that no stored document carries, saving stores exactly one more
    document, the given fields under that identifier and the date read,
    and returns it; a lookup by the identifier then finds it, what was
    stored before is found as before, and deleting it again gives back the
    collection there was.  Under an identifier already stored the save
    fails with the driver's error and stores nothing. *)
Theorem saveScreenshot_round_trip (data : Draft.t) (now : Z) (generated : ObjectId)
    (db : Database) :
  connection db = Returned tt ->
  (findOne generated (screenshots db) = None ->
   let created :=
     {| _id := generated;
        filename := Draft.filename data;
        extractedText := Draft.extractedText data;
        language := Draft.language data;
        confidence := Draft.confidence data;
        model := Draft.model data;
        promptTokens := Draft.promptTokens data;
        completionTokens := Draft.completionTokens data;
        imageSize := Draft.imageSize data;
        mimeType := Draft.mimeType data;
        createdAt := now;
        userId := Draft.userId data |} in
   let db' := {| connection := connection db;
                 screenshots := screenshots db ++ [created] |} in
   saveScreenshot data now generated db = (Returned created, db')
   /\ (forall id objectId,
         newObjectId id = Returned objectId ->
         getScreenshotById id db'
         = if decide (objectId = generated) then Returned (Some created)
           else getScreenshotById id db)
   /\ (forall id,
         newObjectId id = Returned generated ->
         deleteScreenshot id db' = (Returned true, db)))
  /\ (forall d,
        findOne generated (screenshots db) = Some d ->
        saveScreenshot data now generated db = (Threw (duplicateKey generated), db)).
Proof.
  intros Hconn. destruct db as [conn docs]. cbn [connection screenshots] in *. subst conn.
  unfold saveScreenshot, insertOne, getCollection. cbn [connection screenshots]. split.
  - intros Hfresh. cbv zeta. rewrite Hfresh.
    set (created := {| _id := generated; createdAt := now |}).
    assert (Hfound : findOne generated (docs ++ [created]) = Some created).
    { rewrite findOne_app, Hfresh. unfold findOne. cbn [find _id created].
      by rewrite bool_decide_eq_true_2. }
    rewrite Hfound. split; [reflexivity|]. split.
    + intros id objectId Hid. unfold getScreenshotById, getCollection.
      cbn [connection screenshots]. rewrite Hid.
      destruct (decide (objectId = generated)) as [->|Hne]; [by rewrite Hfound|].
      f_equal. rewrite findOne_app. destruct (findOne objectId docs); [reflexivity|].
      unfold findOne. cbn [find _id created].
      rewrite bool_decide_eq_false_2 by congruence. reflexivity.
    + intros id Hid. unfold deleteScreenshot, getCollection.
      cbn [connection screenshots]. rewrite Hid.
      assert (Hfreshdocs : forall x, x ∈ docs -> _id x <> generated).
      { pose proof (deleteOne_findOne generated docs) as Hd. rewrite Hfresh in Hd.
        apply Hd. }
      by rewrite (deleteOne_last generated docs created Hfreshdocs eq_refl).
  - intros d Hd. by rewrite Hd.
Qed.

End SavingFacts.

Lemma saveScreenshot_round_trip_witness :
  exists created,
    @Documents.saveScreenshot Store.hexObjectId Examples.hexDriver Examples.sampleDraft
      1700000001000 (str "aaaaaaaaaaaaaaaaaaaaaaaa") sampleDatabase
    = (Returned created,
       {| Store.connection := Returned tt;
          Store.screenshots := [sampleRecord; created] |})
    /\ @Store.deleteScreenshot Store.hexObjectId (str "AAAAAAAAAAAAAAAAAAAAAAAA")
         {| Store.connection := Returned tt;
            Store.screenshots := [sampleRecord; created] |}
       = (Returned true, sampleDatabase).
Proof.
  destruct (proj1 (@saveScreenshot_round_trip Store.hexObjectId Examples.hexDriver
                     Examples.sampleDraft 1700000001000 (str "aaaaaaaaaaaaaaaaaaaaaaaa")
                     sampleDatabase eq_refl) eq_refl) as (Hsave & _ & Hdelete).
  eexists. split; [exact Hsave|].
  apply (Hdelete (str "AAAAAAAAAAAAAAAAAAAAAAAA")). reflexivity.
Defined.

(** *** Listing the history *)

Section HistoryFacts.
Import Store Documents Http Web.
Context `{Driver}.

Lemma insertByDate_Permutation (d : Screenshot) (sorted : list Screenshot) :
  insertByDate d sorted ≡ₚ d :: sorted.
Proof.
  induction sorted as [|x rest IH]; cbn [insertByDate]; [reflexivity|].
  destruct (createdAt x <? createdAt d); [reflexivity|].
  rewrite IH. apply Permutation_swap.
Qed.

Lemma newestFirst_Permutation (docs : list Screenshot) : newestFirst docs ≡ₚ docs.
Proof.
  induction docs as [|d docs IH]; [reflexivity|]. unfold newestFirst in *. cbn [foldr].
  by rewrite insertByDate_Permutation, IH.
Qed.

Lemma insertByDate_descending (d : Screenshot) (sorted : list Screenshot) :
  datedDescending sorted -> datedDescending (insertByDate d sorted).
Proof.
  induction sorted as [|x rest IH]; cbn [insertByDate datedDescending].
  - intros _. by split.
  - intros [Hx Hrest]. destruct (Z.ltb_spec (createdAt x) (createdAt d)) as [Hlt|Hge].
    + cbn [datedDescending]. split; [|by split].
      constructor; [lia|]. eapply Forall_impl; [exact Hx|]. cbn. intros; lia.
    + cbn [datedDescending]. split; [|by apply IH].
      rewrite insertByDate_Permutation. by constructor.
Qed.

Lemma newestFirst_descending (docs : list Screenshot) : datedDescending (newestFirst docs).
Proof.
  induction docs as [|d docs IH]; [exact I|]. unfold newestFirst in *. cbn [foldr].
  by apply insertByDate_descending.
Qed.

Lemma datedDescending_take (n : nat) (docs : list Screenshot) :
  datedDescending docs -> datedDescending (take n docs).
Proof.
  revert n. induction docs as [|d docs IH]; intros [|n]; cbn; try done.
  intros [Hd Hdocs]. split; [|by apply IH]. by apply Forall_take.
Qed.

Lemma datedDescending_drop (n : nat) (docs : list Screenshot) :
  datedDescending docs -> datedDescending (drop n docs).
Proof.
  revert docs. induction n as [|n IH]; intros [|d docs]; cbn; try done.
  intros [_ Hdocs]. by apply IH.
Qed.

(** X16. With the collection at hand and a limit above zero, the history
    holds the newest documents: it is the beginning of a listing of the
    whole collection in which no document is followed by a newer one, as
    long as the limit or as the collection when that is shorter. *)
Theorem getScreenshotHistory_newest (limit : Z) (db : Database) :
  connection db = Returned tt -> 0 < limit ->
  exists page older,
    getScreenshotHistory limit db = Returned page
    /\ page ++ older ≡ₚ screenshots db
    /\ datedDescending (page ++ older)
    /\ length page = Nat.min (Z.to_nat limit) (length (screenshots db)).
Proof.
  intros Hconn Hlimit. unfold getScreenshotHistory, getCollection. rewrite Hconn.
  unfold cursorLimit. replace (limit =? 0) with false by (symmetry; apply Z.eqb_neq; lia).
  rewrite Z.abs_eq by lia.
  exists (take (Z.to_nat limit) (newestFirst (screenshots db))),
    (drop (Z.to_nat limit) (newestFirst (screenshots db))).
  split; [reflexivity|]. rewrite take_drop.
  split; [apply newestFirst_Permutation|]. split; [apply newestFirst_descending|].
  rewrite length_take. by rewrite (Permutation_length (newestFirst_Permutation _)).
Qed.

Lemma slice_segment {A} (start finish : Z) (array : list A) :
  0 <= start <= finish ->
  slice start finish array
  = take (Z.to_nat (finish - start)) (drop (Z.to_nat start) array).
Proof.
  intros Hse. unfold slice, clampIndex.
  replace (start <? 0) with false by (symmetry; apply Z.ltb_ge; lia).
  replace (finish <? 0) with false by (symmetry; apply Z.ltb_ge; lia).
  destruct (Z.le_gt_cases (Z.of_nat (length array)) start) as [Hout|Hin].
  - rewrite !drop_ge by lia. by rewrite !take_nil.
  - rewrite (Z.min_l start) by lia.
    destruct (Z.le_gt_cases finish (Z.of_nat (length array))) as [Hf|Hf].
    + by rewrite (Z.min_l finish) by lia.
    + rewrite (Z.min_r finish) by lia.
      rewrite !take_ge; [reflexivity| |]; rewrite length_drop; lia.
Qed.

(** X17. GET /api/history with the collection at hand answers 200 with one
    page of a listing of the whole collection, newest first: the page
    begins [skip] documents into the listing and holds at most [limit] of
    them, where [limit] is between 1 and 100 whatever the query says and
    [skip] is not negative; the page is in the order of the listing, no
    document followed by a newer one.  When the collection cannot be
    reached it answers 500 with the message of the error. *)
Theorem GET_history_page (searchParams : gmap jsstring jsstring) (db : Database) :
  (connection db = Returned tt ->
   exists limit skip,
     1 <= limit <= 100 /\ 0 <= skip
     /\ HistoryRoute.GET searchParams db
        = {| status := 200;
             headers := [];
             body :=
               {| success := true;
                  data :=
                    Some (map (fun screenshot =>
                                 {| HistoryRoute._id := toHexString (_id screenshot);
                                    HistoryRoute.filename := filename screenshot;
                                    HistoryRoute.extractedText := extractedText screenshot;
                                    HistoryRoute.createdAt := createdAt screenshot |})
                            (take (Z.to_nat limit)
                               (drop (Z.to_nat skip) (newestFirst (screenshots db)))));
                  error := None; message := None |} |}
     /\ datedDescending
          (take (Z.to_nat limit) (drop (Z.to_nat skip) (newestFirst (screenshots db))))
     /\ (get searchParams "limit" = None -> limit = 50)
     /\ (get searchParams "skip" = None -> skip = 0))
  /\ (forall e,
        connection db = Threw e ->
        HistoryRoute.GET searchParams db
        = failure 500 (messageOr (str "Failed to fetch history") e)).
Proof.
  unfold HistoryRoute.GET. cbv zeta.
  set (limit := if given (get searchParams "limit") then _ else 50).
  set (skip := if given (get searchParams "skip") then _ else 0).
  assert (Hlimit : 1 <= limit <= 100).
  { unfold limit. clear. destruct (given (get searchParams "limit")); [|lia].
    destruct (parseInteger _) as [n|]; [|lia].
    destruct (Z.ltb_spec 0 n); lia. }
  assert (Hskip : 0 <= skip).
  { unfold skip. clear. destruct (given (get searchParams "skip")); [|lia].
    destruct (parseInteger _) as [n|]; [|lia].
    destruct (Z.leb_spec 0 n); lia. }
  split.
  - intros Hconn. exists limit, skip. split; [exact Hlimit|]. split; [exact Hskip|].
    unfold findAll, getScreenshotHistory, getCollection. rewrite Hconn.
    unfold cursorLimit.
    replace (limit + skip =? 0) with false by (symmetry; apply Z.eqb_neq; lia).
    rewrite Z.abs_eq by lia. rewrite slice_segment by lia.
    replace (skip + limit - skip) with limit by lia.
    replace (Z.to_nat (limit + skip)) with (Z.to_nat skip + Z.to_nat limit)%nat by lia.
    rewrite <- take_drop_commute, take_take, Nat.min_id.
    split; [reflexivity|]. split.
    + apply datedDescending_take, datedDescending_drop, newestFirst_descending.
    + split; intros Hnone; [unfold limit | unfold skip]; by rewrite Hnone.
  - intros e He. unfold findAll, getScreenshotHistory, getCollection. by rewrite He.
Qed.

End HistoryFacts.

Lemma getScreenshotHistory_newest_witness :
  exists page older,
    @Documents.getScreenshotHistory Store.hexObjectId 50 sampleDatabase = Returned page
    /\ page ++ older ≡ₚ [sampleRecord].
Proof.
  destruct (@getScreenshotHistory_newest Store.hexObjectId 50 sampleDatabase eq_refl)
    as (page & older & Hpage & Hperm & _); [lia|].
  by exists page, older.
Defined.

Lemma GET_history_page_witness :
  Web.status (@HistoryRoute.GET Store.hexObjectId Examples.hexDriver ∅ sampleDatabase) = 200
  /\ Web.data (Web.body (@HistoryRoute.GET Store.hexObjectId Examples.hexDriver ∅
                           sampleDatabase))
     = Some [{| HistoryRoute._id := str "0123456789abcdef01234567";
                HistoryRoute.filename := str "invoice.png";
                HistoryRoute.extractedText := str "INVOICE #1023";
                HistoryRoute.createdAt := 1700000000000 |}].
Proof.
  destruct (proj1 (@GET_history_page Store.hexObjectId Examples.hexDriver ∅ sampleDatabase)
              eq_refl) as (limit & skip & _ & _ & -> & _ & Hlimit & Hskip).
  rewrite Hlimit, Hskip by apply lookup_empty. split; reflexivity.
Defined.

Section DeleteRouteFacts.
Import Store Documents Http Web.
Context `{Driver}.

Lemma deleteScreenshot_unchanged (id : jsstring) (db : Database) :
  (deleteScreenshot id db).1 <> Returned true -> (deleteScreenshot id db).2 = db.
Proof.
  unfold deleteScreenshot, getCollection. destruct db as [conn docs].
  cbn [connection screenshots]. destruct conn as [[]|e]; [|reflexivity].
  destruct (newObjectId id) as [objectId|e]; [|reflexivity].
  pose proof (deleteOne_findOne objectId docs) as Hcase.
  destruct (findOne objectId docs).
  - destruct Hcase as (before & after & _ & _ & _ & ->). cbn. congruence.
  - by destruct Hcase as [_ ->].
Qed.

(** X18. DELETE /api/history with an identifier in the query: an
    identifier that [ObjectId.isValid] rejects is answered 400 before the
    collection is touched; a valid one is answered 200 when the deletion
    found its document, which is then the one document removed, 404 when it
    found none, and 500 with the message of the error when the collection
    cannot be reached; unless the answer is 200 the collection is left as
    it was.  Without an identifier in the query or the body the answer is
    400. *)
Theorem DELETE_history_outcomes (searchParams : gmap jsstring jsstring)
    (json : outcome (option jsstring)) (db : Database) :
  (forall id,
     get searchParams "id" = Some id -> id <> [] ->
     (isValid id = false ->
      HistoryRoute.DELETE searchParams json db
      = (failure 400 (str "Invalid ID format. ID must be a valid MongoDB ObjectId"), db))
     /\ (isValid id = true ->
         match deleteScreenshot id db with
         | (Returned true, db') =>
             status (HistoryRoute.DELETE searchParams json db).1 = 200
             /\ (HistoryRoute.DELETE searchParams json db).2 = db'
         | (Returned false, _) =>
             HistoryRoute.DELETE searchParams json db
             = (failure 404 (str "Screenshot not found"), db)
         | (Threw e, _) =>
             HistoryRoute.DELETE searchParams json db
             = (failure 500 (messageOr (str "Failed to delete screenshot") e), db)
         end))
  /\ (given (get searchParams "id") = false ->
      (json = Returned None \/ json = Returned (Some []) \/ exists e, json = Threw e) ->
      status (HistoryRoute.DELETE searchParams json db).1 = 400
      /\ (HistoryRoute.DELETE searchParams json db).2 = db)
  /\ (status (HistoryRoute.DELETE searchParams json db).1 <> 200 ->
      (HistoryRoute.DELETE searchParams json db).2 = db).
Proof.
  split; [|split].
  - intros id Hid Hne. unfold HistoryRoute.DELETE. cbv zeta. rewrite Hid.
    assert (Hg : given (Some id) = true) by (destruct id; [congruence | reflexivity]).
    rewrite Hg. cbn [negb]. rewrite Hg. cbn [negb from_option Datatypes.id]. split.
    + by intros ->.
    + intros ->. cbn [negb]. unfold deleteById.
      pose proof (deleteScreenshot_unchanged id db) as Hsame.
      destruct (deleteScreenshot id db) as [[[|]|e] db'] eqn:Hdel; cbn [negb fst snd].
      * by split.
      * by rewrite <- Hsame.
      * by rewrite <- Hsame.
  - intros Hnoid Hjson. unfold HistoryRoute.DELETE. rewrite Hnoid. cbn [negb].
    destruct Hjson as [-> | [-> | [e ->]]]; cbn [truthy given negb]; rewrite ?Hnoid;
      cbn [negb]; by split.
  - unfold HistoryRoute.DELETE. cbv zeta.
    repeat match goal with
           | |- context [if negb ?b then _ else _] => destruct b; cbn [negb fst snd]
           end; try reflexivity.
    all: unfold deleteById.
    all: match goal with
         | |- context [deleteScreenshot ?i ?d] =>
             pose proof (deleteScreenshot_unchanged i d) as Hsame;
             destruct (deleteScreenshot i d) as [[[|]|e] db']
         end; cbn [negb fst snd status failure] in *.
    all: first [intros Hs; exfalso; by apply Hs | intros _; by apply Hsame].
Qed.

End DeleteRouteFacts.

Lemma DELETE_history_outcomes_witness :
  @HistoryRoute.DELETE Store.hexObjectId Examples.hexDriver
    (<[str "id" := str "not-an-object-id"]> ∅) (Returned None) sampleDatabase
  = (Web.failure 400 (str "Invalid ID format. ID must be a valid MongoDB ObjectId"),
     sampleDatabase).
Proof.
  apply (proj1 (proj1 (@DELETE_history_outcomes Store.hexObjectId Examples.hexDriver
                         (<[str "id" := str "not-an-object-id"]> ∅) (Returned None)
                         sampleDatabase)
                  (str "not-an-object-id") (lookup_insert_eq _ _ _) ltac:(discriminate))).
  reflexivity.
Defined.

(** *** Connecting to the database *)

Section ConnectionFacts.
Import Connection.
Context `{Mongo}.

Lemma ensureIndexes_quiet (client : Client) :
  waits (ensureIndexes client) = [] /\ attempts (ensureIndexes client) = [].
Proof.
  unfold ensureIndexes.
  destruct (createIndex client CreatedAtDescending);
    [destruct (createIndex client UserIdAscending)|]; by split.
Qed.

Lemma waits_step (step : Step) (steps : list Step) :
  waits (step :: steps)
  = match step with Wait ms => ms :: waits steps | _ => waits steps end.
Proof. by destruct step. Qed.

Lemma attempts_step (step : Step) (steps : list Step) :
  attempts (step :: steps)
  = match step with Attempt _ ok => ok :: attempts steps | _ => attempts steps end.
Proof. by destruct step. Qed.

Lemma connectLoop_outcomes :
  let run := connectLoop 2 0 None None in
  cached run = match settled run with Returned client => Some client | Threw _ => None end
  /\ match settled run with
     | Returned client =>
         (attempts (steps run) = [true] /\ waits (steps run) = [])
         \/ (attempts (steps run) = [false; true] /\ waits (steps run) = [3000])
     | Threw e =>
         attempts (steps run) = [false; false] /\ waits (steps run) = [3000]
         /\ exists message,
              e = Error (str "Failed to connect to MongoDB after retries: " ++ message)
     end.
Proof.
  cbv zeta. cbn [connectLoop].
  destruct (match getMongoUri with Returned uri => connect 0 uri | Threw e => Threw e end)
    as [c0|e0]; cbn [steps settled cached].
  { pose proof (ensureIndexes_quiet c0) as [Hw Ha]. split; [reflexivity|]. left.
    by rewrite waits_step, attempts_step, Hw, Ha. }
  destruct (match getMongoUri with Returned uri => connect 1 uri | Threw e => Threw e end)
    as [c1|e1]; cbn [steps settled cached Nat.ltb Nat.leb app].
  { pose proof (ensureIndexes_quiet c1) as [Hw Ha]. split; [reflexivity|]. right.
    by rewrite !waits_step, !attempts_step, Hw, Ha. }
  split; [reflexivity|]. split; [reflexivity|]. split; [reflexivity|]. by eexists.
Qed.

(** X19. A call of [connectToDatabase] returns the cached client after one
    successful ping and nothing else.  Otherwise it makes at most two
    passes of the connection loop, with one delay of 3000 ms after a
    first pass that fails and none after the second; it returns the client
    of the first pass that succeeds, whatever becomes of the indexes; when
    both passes fail it throws an error that begins with the words about
    the retries.  The cache afterwards holds the client returned, and
    nothing after a failure.  A missing MONGODB_URI fails both passes,
    delay included. *)
Theorem connectToDatabase_outcomes (cachedClient : option Client) :
  let run := connectToDatabase cachedClient in
  (forall client,
     cachedClient = Some client -> ping client = Returned tt ->
     run = {| settled := Returned client; cached := Some client; steps := [Ping true] |})
  /\ cached run
     = match settled run with Returned client => Some client | Threw _ => None end
  /\ match settled run with
     | Returned client =>
         steps run = [Ping true]
         \/ (attempts (steps run) = [true] /\ waits (steps run) = [])
         \/ (attempts (steps run) = [false; true] /\ waits (steps run) = [3000])
     | Threw e =>
         attempts (steps run) = [false; false] /\ waits (steps run) = [3000]
         /\ exists message,
              e = Error (str "Failed to connect to MongoDB after retries: " ++ message)
     end
  /\ (MONGODB_URI = None ->
      cachedClient = None ->
      run = {| settled :=
                 Threw (Error (str "Failed to connect to MongoDB after retries: "
                               ++ str "Please add your Mongo URI to .env.local"));
               cached := None;
               steps := [Attempt 0 false; Wait 3000; Attempt 1 false] |}).
Proof.
  cbv zeta. pose proof connectLoop_outcomes as [Hcache Hloop]. cbv zeta in Hcache, Hloop.
  split; [|split; [|split]].
  - intros client -> Hping. unfold connectToDatabase. by rewrite Hping.
  - unfold connectToDatabase. destruct cachedClient as [client|]; [|exact Hcache].
    destruct (ping client); [reflexivity | exact Hcache].
  - unfold connectToDatabase. destruct cachedClient as [client|].
    + destruct (ping client); cbn [settled steps]; [by left|].
      rewrite waits_step, attempts_step.
      destruct (settled (connectLoop 2 0 None None)); [right|]; exact Hloop.
    + destruct (settled (connectLoop 2 0 None None)); [right|]; exact Hloop.
  - intros Huri ->. unfold connectToDatabase. cbn [connectLoop]. unfold getMongoUri.
    rewrite Huri. reflexivity.
Qed.

End ConnectionFacts.

(** *** The request log *)

Section LogFacts.
Import Http Web OcrRoute.

Lemma logRequest_bounded (log : RequestLog) (requestLogs : list RequestLog) :
  (length requestLogs <= MAX_LOG_ENTRIES)%nat ->
  logRequest log requestLogs
  = drop (length (requestLogs ++ [log]) - MAX_LOG_ENTRIES) (requestLogs ++ [log])
  /\ (length (logRequest log requestLogs) <= MAX_LOG_ENTRIES)%nat.
Proof.
  intros Hlen. unfold logRequest. rewrite length_app. cbn [length].
  destruct (Nat.ltb_spec MAX_LOG_ENTRIES (length requestLogs + 1)) as [Hfull|Hroom].
  - replace (length requestLogs + 1 - MAX_LOG_ENTRIES)%nat with 1%nat by lia.
    split; [reflexivity|]. rewrite length_drop, length_app. cbn [length]. lia.
  - replace (length requestLogs + 1 - MAX_LOG_ENTRIES)%nat with 0%nat by lia.
    split; [reflexivity|]. rewrite length_app. cbn [length]. lia.
Qed.

(** X20. The request log is a window on the last thousand requests: from
    a log of at most 1000 entries (the empty one, for instance), logging
    any number of requests one after the other leaves the last 1000 of
    what was there and what was logged, in order, and never more than
    1000 entries. *)
Theorem logRequest_window (entries requestLogs : list RequestLog) :
  (length requestLogs <= MAX_LOG_ENTRIES)%nat ->
  foldl (fun kept log => logRequest log kept) requestLogs entries
  = drop (length (requestLogs ++ entries) - MAX_LOG_ENTRIES) (requestLogs ++ entries)
  /\ (length (foldl (fun kept log => logRequest log kept) requestLogs entries)
      <= MAX_LOG_ENTRIES)%nat.
Proof.
  revert requestLogs. induction entries as [|log entries IH]; intros requestLogs Hlen.
  - cbn [foldl]. rewrite app_nil_r.
    replace (length requestLogs - MAX_LOG_ENTRIES)%nat with 0%nat by lia.
    by rewrite drop_0.
  - cbn [foldl]. destruct (logRequest_bounded log requestLogs Hlen) as [Hone Hbound].
    destruct (IH (logRequest log requestLogs) Hbound) as [Hall Hlen'].
    split; [|exact Hlen']. rewrite Hall, Hone.
    set (k := (length (requestLogs ++ [log]) - MAX_LOG_ENTRIES)%nat).
    assert (Hk : (k <= length (requestLogs ++ [log]))%nat) by (unfold k; lia).
    rewrite <- (drop_app_le (requestLogs ++ [log]) entries k Hk).
    rewrite drop_drop, length_drop, <- app_assoc. cbn [app]. f_equal.
    unfold k in *. rewrite !length_app in *. cbn [length] in *. lia.
Qed.

Lemma logRequest_window_witness :
  foldl (fun kept log => logRequest log kept) [] [Examples.sampleLog; Examples.sampleLog]
  = [Examples.sampleLog; Examples.sampleLog].
Proof.
  rewrite (proj1 (logRequest_window [Examples.sampleLog; Examples.sampleLog] []
                    ltac:(cbn; lia))).
  reflexivity.
Defined.

Lemma sliceFrom_cases {A} (start : Z) (array : list A) :
  sliceFrom start array
  = if start <? 0
    then drop (length array - Z.to_nat (- start)) array
    else drop (Z.to_nat start) array.
Proof.
  unfold sliceFrom, slice, clampIndex.
  replace (Z.of_nat (length array) <? 0) with false by (symmetry; apply Z.ltb_ge; lia).
  rewrite (Z.min_id (Z.of_nat (length array))).
  destruct (Z.ltb_spec start 0) as [Hneg|Hpos].
  - destruct (Z.le_gt_cases 0 (Z.of_nat (length array) + start)) as [Hin|Hout].
    + rewrite Z.max_l by lia.
      replace (Z.to_nat (Z.of_nat (length array) + start))
        with (length array - Z.to_nat (- start))%nat by lia.
      apply take_ge. rewrite length_drop. lia.
    + rewrite Z.max_r by lia.
      replace (length array - Z.to_nat (- start))%nat with 0%nat by lia.
      rewrite Z.sub_0_r, Nat2Z.id. change (Z.to_nat 0) with 0%nat. by rewrite drop_0, firstn_all.
  - destruct (Z.le_gt_cases start (Z.of_nat (length array))) as [Hin|Hout].
    + rewrite Z.min_l by lia. apply take_ge. rewrite length_drop. lia.
    + rewrite Z.min_r by lia. rewrite Nat2Z.id, drop_all.
      rewrite drop_ge by lia. by rewrite take_nil.
Qed.

Lemma rev_drop_last {A} (n : nat) (l : list A) :
  rev (drop (length l - n) l) = take n (rev l).
Proof. symmetry. apply firstn_rev. Qed.

(** X21. GET /api/ocr/logs returns the count of all logs and, newest
    first: the last [limit] logs when the limit parameter reads as a
    number above zero, the last 100 when it is missing or empty, all of
    them when it reads as 0 or as no number, and all but the oldest [n]
    when it reads as [-n]. *)
Theorem GET_logs_limit (searchParams : gmap jsstring jsstring)
    (requestLogs : list RequestLog) :
  total (GET searchParams requestLogs) = Z.of_nat (length requestLogs)
  /\ (given (get searchParams "limit") = false ->
      logs (GET searchParams requestLogs) = take 100 (rev requestLogs))
  /\ (forall text,
        get searchParams "limit" = Some text -> text <> [] ->
        logs (GET searchParams requestLogs)
        = match parseInteger text with
          | Some n =>
              if 0 <? n then take (Z.to_nat n) (rev requestLogs)
              else rev (drop (Z.to_nat (- n)) requestLogs)
          | None => rev requestLogs
          end).
Proof.
  split; [reflexivity|]. split.
  - intros Hnone. unfold GET. rewrite Hnone. cbn [logs].
    change (parseInteger (str "100")) with (Some 100).
    rewrite sliceFrom_cases. cbn [Z.ltb Z.compare Z.opp].
    change (Z.to_nat (- -100)) with 100%nat. apply rev_drop_last.
  - intros text Htext Hne. unfold GET. rewrite Htext. cbn [given from_option logs].
    replace (truthy text) with true by (destruct text; [congruence | reflexivity]).
    unfold Datatypes.id. destruct (parseInteger text) as [n|].
    + rewrite sliceFrom_cases.
      destruct (Z.ltb_spec 0 n) as [Hpos|Hneg].
      * replace (- n <? 0) with true by (symmetry; apply Z.ltb_lt; lia).
        rewrite Z.opp_involutive. apply rev_drop_last.
      * replace (- n <? 0) with false by (symmetry; apply Z.ltb_ge; lia). reflexivity.
    + by rewrite sliceFrom_cases.
Qed.

Lemma GET_logs_limit_witness :
  logs (GET (<[str "limit" := str "0"]> ∅) [Examples.sampleLog; Examples.sampleLog])
  = [Examples.sampleLog; Examples.sampleLog].
Proof.
  rewrite (proj2 (proj2 (GET_logs_limit (<[str "limit" := str "0"]> ∅)
                           [Examples.sampleLog; Examples.sampleLog]))
             (str "0") (lookup_insert_eq _ _ _) ltac:(discriminate)).
  reflexivity.
Defined.

End LogFacts.

(** *** The checks of the OCR route *)

Section RouteChecks.
Import Extraction OcrRoute.

Lemma isValidFormat_allowed (type : jsstring) :
  isValidFormat type = true <-> toLowerCase type ∈ ALLOWED_FORMATS.
Proof.
  unfold isValidFormat. rewrite existsb_exists. split.
  - intros (format & Hin & Heq). apply bool_decide_eq_true in Heq. rewrite Heq.
    by apply list_elem_of_In.
  - intros Hin. exists (toLowerCase type). split; [by apply list_elem_of_In|].
    apply strictEq_refl.
Qed.

(** X22. The route's own format check passes exactly the types that
    lower-case to image/png, image/jpeg, image/jpg or image/webp; every
    one of them passes [validateImageFormat] as well, so the check that
    follows in the handler never refuses; and image/heic, which
    [validateImageFormat] accepts, does not pass the route. *)
Theorem isValidFormat_gate (type : jsstring) :
  (isValidFormat type = true <-> toLowerCase type ∈ ALLOWED_FORMATS)
  /\ (isValidFormat type = true -> validateImageFormat type = true)
  /\ isValidFormat (str "image/heic") = false
  /\ validateImageFormat (str "image/heic") = true.
Proof.
  pose proof (isValidFormat_allowed type) as Hiff.
  split; [exact Hiff|]. split; [|by split].
  intros Hvalid. apply Hiff in Hvalid. unfold validateImageFormat.
  unfold ALLOWED_FORMATS in Hvalid.
  repeat (apply elem_of_cons in Hvalid as [-> | Hvalid]; [reflexivity|]).
  by apply elem_of_nil in Hvalid.
Qed.

Lemma isValidFormat_gate_witness :
  validateImageFormat (str "IMAGE/PNG") = true.
Proof. apply (proj1 (proj2 (isValidFormat_gate (str "IMAGE/PNG")))). reflexivity. Defined.

Lemma includes_prefix (s rest : jsstring) : includes (s ++ rest) s = true.
Proof.
  assert (Hs : forall t, startsWith (s ++ t) s = true).
  { induction s as [|c s IH]; intros t; [by destruct t|].
    cbn [app startsWith]. by rewrite Z.eqb_refl, IH. }
  destruct s as [|c s]; [by destruct rest|]. cbn [app includes].
  change (c :: s ++ rest) with ((c :: s) ++ rest). by rewrite Hs.
Qed.

(** The status the route gives to the error message of each kind of
    failure of the model API. *)
Lemma statusCode_handleApiError (e : thrown) (retries : nat) :
  (retries <= 3)%nat ->
  statusCode (Error (handleApiError e retries))
  = if hasStatus e 429 then 429
    else if hasStatus e 401 then 401
    else if hasStatus e 402 then 402
    else if hasStatus e 404 then 500
    else match e with
         | APIError (Some s) _ message =>
             if 500 <=? s then 500
             else statusCode (Error (if truthy message then message
                                     else str "OpenAI API error occurred."))
         | APIError None _ message =>
             statusCode (Error (if truthy message then message
                                else str "OpenAI API error occurred."))
         | Error message => statusCode (Error message)
         | Other _ => 500
         end.
Proof.
  intros Hretries. destruct e as [[s|] retryAfter message|message|rendering];
    unfold handleApiError, hasStatus; cbn [statusOf]; try reflexivity.
  destruct (s =? 429) eqn:E429.
  { unfold statusCode.
    change (str "Rate limit exceeded. Please try again")
      with (str "Rate limit" ++ str " exceeded. Please try again").
    rewrite <- !app_assoc. by rewrite includes_prefix. }
  destruct (s =? 401); [reflexivity|].
  destruct (s =? 402); [reflexivity|].
  destruct (s =? 404); [reflexivity|].
  destruct (500 <=? s); [|reflexivity].
  destruct retries as [|[|[|[|n]]]]; try reflexivity. lia.
Qed.

End RouteChecks.

Section FailureStatus.
Import Extraction OcrRoute.
Context `{Platform}.
Variable upstream : nat -> ChatRequest -> outcome ChatCompletion.


End FailureStatus.


(** *** The OCR handler *)

Section HandlerFacts.
Import Http Web Store Documents OcrRoute.
Context `{Platform} `{Driver} `{Formats}.
Variable upstream : nat -> Extraction.ChatRequest -> outcome Extraction.ChatCompletion.

Lemma saveScreenshot_cases (data : Draft.t) (now : Z) (generated : ObjectId)
    (db : Database) :
  match saveScreenshot data now generated db with
  | (Returned created, db') =>
      connection db' = connection db
      /\ screenshots db' = screenshots db ++ [created]
      /\ Store._id created = generated
      /\ Store.createdAt created = now
      /\ Store.filename created = Draft.filename data
      /\ Store.extractedText created = Draft.extractedText data
      /\ Store.language created = Draft.language data
      /\ Store.confidence created = Draft.confidence data
      /\ Store.model created = Draft.model data
      /\ Store.imageSize created = Draft.imageSize data
      /\ Store.mimeType created = Draft.mimeType data
  | (Threw _, db') => db' = db
  end.
Proof.
  unfold saveScreenshot, insertOne, getCollection. destruct db as [conn docs].
  cbn [connection screenshots]. destruct conn as [[]|e]; [|reflexivity].
  destruct (findOne generated docs) eqn:Hfresh; [reflexivity|].
  rewrite findOne_app, Hfresh. unfold findOne at 1. cbn [find Store._id].
  rewrite bool_decide_eq_true_2 by reflexivity. cbn. by repeat split.
Qed.

Lemma statusCode_values (error : thrown) :
  statusCode error ∈ [200; 400; 401; 402; 429; 500; 504]
  /\ statusCode error <> 200.
Proof.
  unfold statusCode. destruct error as [s r message|message|rendering];
    repeat match goal with
           | |- context [if ?b then _ else _] => destruct b
           end; (split; [repeat first [apply list_elem_of_here | apply list_elem_of_further] | discriminate]).
Qed.

Ltac post_paths :=
  unfold POST; cbv zeta;
  repeat match goal with
         | |- context [let '(_, _) := ?p in _] => destruct p eqn:?
         | |- context [match ?o with Returned _ => _ | Threw _ => _ end] =>
             destruct o eqn:?
         | |- context [match ?o with Some _ => _ | None => _ end] =>
             lazymatch o with
             | image _ => destruct o as [[?|?]|] eqn:?
             end
         | |- context [if negb ?b then _ else _] => destruct b eqn:?; cbn [negb]
         | |- context [if MAX_FILE_SIZE <? ?s then _ else _] =>
             destruct (MAX_FILE_SIZE <? s) eqn:?
         end;
  cbn [response server events requestLogs rateLimitStore database status body headers
       failure Web.success].

Lemma saveScreenshot_found (data : Draft.t) (now : Z) (generated : ObjectId)
    (db db' : Database) (created : Screenshot) :
  saveScreenshot data now generated db = (Returned created, db') ->
  getCollection db' = Returned (screenshots db')
  /\ findOne generated (screenshots db') = Some created.
Proof.
  unfold saveScreenshot, insertOne, getCollection. destruct db as [conn docs].
  cbn [connection screenshots]. destruct conn as [[]|e]; [|discriminate].
  destruct (findOne generated docs) eqn:Hfresh; [discriminate|].
  destruct (findOne generated (docs ++ _)) eqn:Hfound; [|discriminate].
  intros [= <- <-]. by cbn [connection screenshots].
Qed.

(** X25. The handler turns to the image library and to the model only
    for a request that the limiter admitted, whose form could be read and
    carries under [image] a file of at most 10 MB, of a type that
    lower-cases to one of the four allowed ones, and whose bytes could be
    read: a request that fails any of these checks costs no call. *)
Theorem POST_gate (requestHeaders : gmap jsstring jsstring)
    (formData : outcome FormData) (clock : Clock) (generated : ObjectId)
    (state : Server) :
  events (POST upstream requestHeaders formData clock generated state) <> [] ->
  RateLimiter.allowed
    (RateLimiter.checkRateLimit (limiterNow clock) (getClientIP requestHeaders)
       (rateLimitStore state)).1 = true
  /\ exists form file buffer,
       formData = Returned form
       /\ image form = Some (FileValue file)
       /\ size file <= MAX_FILE_SIZE
       /\ toLowerCase (type file) ∈ ALLOWED_FORMATS
       /\ arrayBuffer file = Returned buffer.
Proof.
  post_paths; intros Hevents; try (by exfalso).
  all: cbn [fst]; (split; [assumption|]).
  all: do 3 eexists; split; [reflexivity|]; split; [eassumption|].
  all: split; [by apply Z.ltb_ge|]; split; [|eassumption].
  all: by apply isValidFormat_allowed.
Qed.


(** X26. When the handler answers 200, the data of the answer are those
    of the one document it has just stored: its text, confidence,
    language and model, with the identifier the driver generated in its
    printed form and the time between the first and the last reading of
    the clock; the document carries the size and the type of the uploaded
    file and the date read at saving; and, where the driver reads the
    printed identifier back, a lookup by the identifier of the answer
    finds that document. *)
Theorem POST_success (requestHeaders : gmap jsstring jsstring)
    (formData : outcome FormData) (clock : Clock) (generated : ObjectId)
    (state : Server) :
  let handled := POST upstream requestHeaders formData clock generated state in
  status (response handled) = 200 ->
  exists form file created,
    formData = Returned form
    /\ image form = Some (FileValue file)
    /\ screenshots (database (server handled))
       = screenshots (database state) ++ [created]
    /\ data (body (response handled))
       = Some {| extractedText := Store.extractedText created;
                 confidence := Store.confidence created;
                 language := Store.language created;
                 dataModel := Store.model created;
                 processingTime := endTime clock - startTime clock;
                 _id := toHexString generated |}
    /\ Store.imageSize created = size file
    /\ Store.mimeType created = type file
    /\ Store.createdAt created = savedAt clock
    /\ (newObjectId (toHexString generated) = Returned generated ->
        getScreenshotById (toHexString generated) (database (server handled))
        = Returned (Some created)).
Proof.
  cbv zeta. post_paths; intros Hstatus; try discriminate Hstatus.
  all: try match goal with
       | _ : context [statusCode ?e] |- _ =>
           by destruct (statusCode_values e) as [_ Hnot200]
       end.
  all: match goal with
       | E : create ?data ?now ?g ?db = (_, _) |- _ =>
           pose proof (saveScreenshot_cases data now g db) as Hsaved;
           unfold create in E; rewrite E in Hsaved;
           apply saveScreenshot_found in E as [Hcollection Hfound]
       end.
  all: destruct Hsaved
         as (_ & Hdocs & Hid & Hdate & _ & Htext & Hlanguage & Hconfidence & Hmodel
             & Hsize & Htype);
       cbn [Draft.extractedText Draft.language Draft.confidence Draft.model
            Draft.imageSize Draft.mimeType] in *.
  all: do 3 eexists; split; [reflexivity|]; split; [eassumption|].
  all: split; [exact Hdocs|].
  all: split; [cbn [data]; by rewrite Hid, Htext, Hlanguage, Hconfidence, Hmodel|].
  all: split; [exact Hsize|]; split; [exact Htype|]; split; [exact Hdate|].
  all: intros Hback; unfold getScreenshotById; by rewrite Hcollection, Hback, Hfound.
Qed.

(** X27. A request of an identity whose window is still open and full is
    answered 429 and nothing else happens: no call to the image library or
    the model, the limiter and the database as they were.  The answer
    names the reset time of the window, a Retry-After of the whole seconds
    until then, rounded up, from the second reading of the clock, and a
    message that gives the maximum as 0. *)
Theorem POST_refused (requestHeaders : gmap jsstring jsstring)
    (formData : outcome FormData) (clock : Clock) (generated : ObjectId)
    (state : Server) (k r : Z) :
  rateLimitStore state !! getClientIP requestHeaders
  = Some {| RateLimiter.Entry.count := k; RateLimiter.Entry.resetTime := r |} ->
  limiterNow clock <= r -> RateLimiter.RATE_LIMIT_MAX_REQUESTS <= k ->
  let handled := POST upstream requestHeaders formData clock generated state in
  exists seconds,
    response handled
    = {| status := 429;
         headers :=
           [(str "X-RateLimit-Limit", str "10");
            (str "X-RateLimit-Remaining", str "0");
            (str "X-RateLimit-Reset", numberToString r);
            (str "Retry-After", numberToString seconds)];
         body :=
           {| Web.success := false; data := None;
              Web.error :=
                Some (str "Rate limit exceeded. Maximum 0 requests per minute. Try again after "
                      ++ toISOString r);
              message := None |} |}
    /\ 1000 * (seconds - 1) < r - retryNow clock <= 1000 * seconds
    /\ events handled = []
    /\ rateLimitStore (server handled) = rateLimitStore state
    /\ database (server handled) = database state.
Proof.
  intros Hentry Hopen Hfull. cbv zeta. unfold POST.
  rewrite (checkRateLimit_reject _ _ _ k r Hentry Hopen Hfull).
  cbn [RateLimiter.allowed RateLimiter.remaining RateLimiter.resetTime negb
       response server events rateLimitStore database].
  exists (Tokens.ceil (inject_Z (r - retryNow clock) / 1000)).
  split; [reflexivity|]. split; [|by repeat split].
  change (1000%Q) with (Z.pos 1000 # 1). rewrite ceil_quotient. euclid.
Qed.

End HandlerFacts.

Lemma POST_gate_witness :
  OcrRoute.size Examples.sampleFile <= OcrRoute.MAX_FILE_SIZE
  /\ toLowerCase (OcrRoute.type Examples.sampleFile) ∈ OcrRoute.ALLOWED_FORMATS.
Proof.
  destruct (@POST_gate (stubPlatform true) Store.hexObjectId Examples.hexDriver
              Examples.plainFormats flakyUpstream Examples.sampleHeaders
              (Returned Examples.sampleForm) Examples.sampleClock
              (str "aaaaaaaaaaaaaaaaaaaaaaaa") Examples.sampleServer
              ltac:(vm_compute; discriminate))
    as (_ & form & file & buffer & Hform & Himage & Hsize & Htype & _).
  injection Hform as <-. injection Himage as <-. by split.
Defined.

Lemma POST_success_witness :
  exists created,
    Store.screenshots (OcrRoute.database (OcrRoute.server Examples.sampleHandled))
    = [sampleRecord; created]
    /\ Store.imageSize created = 3
    /\ @Documents.getScreenshotById Store.hexObjectId (str "aaaaaaaaaaaaaaaaaaaaaaaa")
         (OcrRoute.database (OcrRoute.server Examples.sampleHandled))
       = Returned (Some created).
Proof.
  destruct (@POST_success (stubPlatform true) Store.hexObjectId Examples.hexDriver
              Examples.plainFormats flakyUpstream Examples.sampleHeaders
              (Returned Examples.sampleForm) Examples.sampleClock
              (str "aaaaaaaaaaaaaaaaaaaaaaaa") Examples.sampleServer
              ltac:(vm_compute; reflexivity))
    as (form & file & created & Hform & Himage & Hdocs & _ & Hsize & _ & _ & Hback).
  injection Hform as <-. injection Himage as <-.
  exists created. split; [exact Hdocs|]. split; [exact Hsize|].
  apply Hback. reflexivity.
Defined.

Lemma POST_refused_witness :
  exists seconds,
    Web.status
      (OcrRoute.response
         (@OcrRoute.POST (stubPlatform true) Store.hexObjectId Examples.hexDriver
            Examples.plainFormats flakyUpstream Examples.sampleHeaders
            (Returned Examples.sampleForm) Examples.sampleClock
            (str "aaaaaaaaaaaaaaaaaaaaaaaa") Examples.busyServer)) = 429
    /\ 1000 * (seconds - 1) < 29999 <= 1000 * seconds.
Proof.
  destruct (@POST_refused (stubPlatform true) Store.hexObjectId Examples.hexDriver
              Examples.plainFormats flakyUpstream Examples.sampleHeaders
              (Returned Examples.sampleForm) Examples.sampleClock
              (str "aaaaaaaaaaaaaaaaaaaaaaaa") Examples.busyServer 10 1700000030000
              ltac:(vm_compute; reflexivity) ltac:(vm_compute; discriminate)
              ltac:(vm_compute; discriminate))
    as (seconds & Hresponse & Hseconds & _).
  exists seconds. split; [by rewrite Hresponse | exact Hseconds].
Defined.
